(** * shape-frontend: session controller, dashboard orchestration and mesh colouring

    A shallow embedding of
    - [src/lib/api.ts]            (wire types, [getWsUrl], the request
      wrappers [login], [getMe], [getSurfaceMesh] and [getSegments]),
    - [src/lib/auth.tsx]          (the provider of the signed-in user),
    - [src/app/page.tsx] and [src/app/login/page.tsx] (the redirects on
      stored credentials and the silent login),
    - [src/lib/useShapeSocket.ts] (the pipeline session controller hook),
    - [src/components/meshConstants.ts] and [src/components/MeshViewer.tsx]
      (colour table, per-face colouring, scene effects),
    - [src/app/dashboard/page.tsx] (the one-shot flags, the effects that
      chain segmentation and the automatic query, and the handlers).

    What the code relies on of the JavaScript run time - property lookup
    on object literals, exceptions, numbers as array indices - is in
    [Js].  React state cells and refs are fields of explicit state records; a
    [setX] call is a record update, a handler is a state transformer, and
    the browser objects the code talks to (WebSocket instances, VTK scene
    objects) live in a store next to the React state. *)

From Stdlib Require Import Ascii String ZArith QArith Lia.
From stdpp Require Import base strings list gmap pretty.

Notation "s |> f" := (f s) (at level 45, left associativity, only parsing).

(* ===================================================================== *)
(** ** The JavaScript run time *)
(* ===================================================================== *)

Module Js.

(** The own properties of [Object.prototype] (those of Annex B included).
    Every object literal, and every object made by [JSON.parse], inherits
    them. *)
Definition Object_prototype : list string :=
  [ "constructor"; "__defineGetter__"; "__defineSetter__"; "hasOwnProperty";
    "__lookupGetter__"; "__lookupSetter__"; "isPrototypeOf";
    "propertyIsEnumerable"; "toString"; "valueOf"; "__proto__";
    "toLocaleString" ].

(** [o[key]] for an object literal with the own properties [o]: an own
    value, an inherited member (a function, or for [__proto__] the
    prototype itself: truthy in either case, and without elements 0, 1,
    2), or [undefined]. *)
Inductive Property (A : Type) :=
| Own (a : A)
| Inherited
| Undefined.
Arguments Own {A} _.
Arguments Inherited {A}.
Arguments Undefined {A}.

Definition get {A} (o : gmap string A) (key : string) : Property A :=
  match o !! key with
  | Some a => Own a
  | None => if bool_decide (key ∈ Object_prototype) then Inherited else Undefined
  end.

(** How a call ends: with a value, or with an exception (of which the
    code only ever reads [message]). *)
Inductive Completion (A : Type) :=
| Normal (a : A)
| Throw (message : string).
Arguments Normal {A} _.
Arguments Throw {A} _.

(** [l.map(f)]: the first exception ends the loop. *)
Fixpoint map {A B} (f : A -> Completion B) (l : list A) : Completion (list B) :=
  match l with
  | [] => Normal []
  | x :: l =>
      match f x with
      | Normal y =>
          match map f l with
          | Normal ys => Normal (y :: ys)
          | Throw message => Throw message
          end
      | Throw message => Throw message
      end
  end.

(** The message of the [TypeError] of [String(o)] for an object [o] that
    has no callable [toString] or [valueOf] giving a primitive.  The
    wording is the engine's (V8's is given). *)
Definition cannot_convert : string := "Cannot convert object to primitive value".

(** A number used as a typed array index, [a[i] = v]: the write reaches
    the array only if [i] is an integer that is not negative (and is then
    dropped when the array is shorter). *)
Definition array_index (i : Q) : option nat :=
  if ((Qnum i mod Zpos (Qden i) =? 0) && (0 <=? Qnum i))%Z
  then Some (Z.to_nat (Qnum i / Zpos (Qden i)))
  else None.

(** [x < y] on numbers. *)
Definition lt (x y : Q) : bool :=
  (Qnum x * Zpos (Qden y) <? Qnum y * Zpos (Qden x))%Z.

End Js.

(* ===================================================================== *)
(** ** src/lib/api.ts *)
(* ===================================================================== *)

Module Api.

(** A JavaScript object held by reference: [addr] is its identity (what
    [Object.is] and React's dependency comparison look at), [val] its
    contents. *)
Record Obj (A : Type) := mkObj { addr : nat; val : A }.
Arguments mkObj {A} _ _.
Arguments addr {A} _.
Arguments val {A} _.

(** Scalar JSON values, as found in the free-form [detail] record of a
    progress message; a missing key reads as [None] ([undefined]).  The
    code never computes with these numbers: it tests whether they are
    truthy and prints them.  A number is therefore given by its decimal
    text, the one [String(n)] yields (["0"] for both zeros). *)
Inductive JsVal :=
| JNull
| JBool (b : bool)
| JNum (printed : string)
| JStr (s : string).

Record Segment := {
  segment_id : Z;
  type : string;
  face_ids : option (list Q);            (* face_ids?: number[] *)
  downsampled_nodes : list (list Q);
  downsampled_edges : list (list Z)
}.

Record Summary := {
  total_segments : Z;
  counts_by_type : list (string * Z)
}.

Record SegmentResult := {
  segments : list Segment;
  summary : Summary
}.

Record QueryResult := {
  query : string;
  answer : string;
  highlight_ids : list Z;
  mode : string
}.

Record SurfaceMesh := {
  vertices : list (list Q);
  faces : list (list Z)
}.

(** [SegmentResult | QueryResult]: the payload of a [result] message. *)
Inductive ResultData :=
| SegData (r : SegmentResult)
| QryData (r : QueryResult).

(** ["answer" in data] *)
Definition has_answer (data : ResultData) : bool :=
  match data with QryData _ => true | SegData _ => false end.

(** [WsIncoming]; [Other] stands for a decoded message whose [type] is none
    of the four declared ones (the [default:] arm of the handler). *)
Inductive WsIncoming :=
| Connected
| Progress (step : string) (detail : gmap string JsVal) (explanation : option string)
| Result (data : Obj ResultData)
| Error (message : string)
| Other (type : string).

(** The outcome of [JSON.parse(event.data)]. *)
Inductive MessageData :=
| Undecodable
| Decoded (msg : WsIncoming).

(** Payloads written to the socket (before [JSON.stringify]). *)
Inductive WsOutgoing :=
| UploadAndSegment (target_step : Q) (downsample_nodes : Z) (embed : bool)
| Query (query : string).

Section Backend.
(** [process.env.NEXT_PUBLIC_BACKEND || ""] *)
Variable BACKEND : string.

(** [BACKEND.replace(/^http/, "ws")] *)
Definition WS_BASE : string :=
  if String.prefix "http" BACKEND
  then "ws" +:+ String.substring 4 (String.length BACKEND - 4) BACKEND
  else BACKEND.

Definition getWsUrl (uid sessionId : string) : string :=
  WS_BASE +:+ "/ws/" +:+ uid +:+ "/" +:+ sessionId.
End Backend.

(** *** Session lists *)

(** [string | SessionInfo | Record<string, unknown>]: an element of the
    [sessions] array as the backend sends it.  Of an object the keys are
    kept with their values; a value that is not a scalar counts, for
    [typeof v === "string"], like any other non-string. *)
Inductive SessionEntry :=
| SessionString (s : string)
| SessionObject (fields : gmap string JsVal).

(** [String(s)] of an object made by [JSON.parse]: the inherited
    [toString] prints ["[object Object]"]; an own [toString] key holds a
    JSON value, which cannot be called, and the inherited [valueOf] returns
    the object itself, so the conversion throws. *)
Definition String_object (fields : gmap string JsVal) : Js.Completion string :=
  if bool_decide (is_Some (fields !! "toString"))
  then Js.Throw Js.cannot_convert
  else Js.Normal "[object Object]".

Definition normalizeSessionId (s : SessionEntry) : Js.Completion string :=
  match s with
  | SessionString s => Js.Normal s
  | SessionObject fields =>
      match fields !! "session_id" with
      | Some (JStr session_id) => Js.Normal session_id
      | _ => String_object fields
      end
  end.

(** *** fetch

    A promise that has settled, and the part of a [Response] the wrappers
    look at: [res.status] and the outcome of [res.json()]. *)
Inductive Promise (A : Type) :=
| Fulfilled (a : A)
| Rejected (message : string).
Arguments Fulfilled {A} _.
Arguments Rejected {A} _.

Record Response (A : Type) := { status : Z; json : Promise A }.
Arguments status {A} _.
Arguments json {A} _.

(** [res.ok] *)
Definition ok {A} (res : Response A) : bool :=
  (200 <=? status res)%Z && (status res <=? 299)%Z.

(** The answer of [getMe] and of [login], with the fields of the declared
    type that are read. *)
Record Me := {
  uid : string;
  email : string;
  sessions : option (list SessionEntry)   (* [data.sessions], possibly missing *)
}.

(** The wrappers, as functions of what [fetch] settled with. *)
Definition getMe (fetched : Promise (Response Me)) : Promise Me :=
  match fetched with
  | Rejected message => Rejected message
  | Fulfilled res =>
      if (status res =? 404)%Z || (status res =? 401)%Z then Rejected "Invalid session"
      else if negb (ok res) then Rejected "Failed to verify session"
      else json res
  end.

Definition getSurfaceMesh (fetched : Promise (Response (Obj SurfaceMesh)))
    : Promise (Obj SurfaceMesh) :=
  match fetched with
  | Rejected message => Rejected message
  | Fulfilled res =>
      if negb (ok res)
      then Rejected ("Failed to load surface mesh (" +:+ pretty (status res) +:+ ")")
      else json res
  end.

(** [login]; of the answer only [uid] and [email] are ever read. *)
Definition login (fetched : Promise (Response Me)) : Promise Me :=
  match fetched with
  | Rejected message => Rejected message
  | Fulfilled res => if negb (ok res) then Rejected "Login failed" else json res
  end.

Definition getSegments (fetched : Promise (Response (option (Obj SegmentResult))))
    : Promise (option (Obj SegmentResult)) :=
  match fetched with
  | Rejected message => Rejected message
  | Fulfilled res =>
      if (status res =? 404)%Z then Fulfilled None          (* not yet segmented *)
      else if negb (ok res) then Rejected "Failed to load segments"
      else json res
  end.

End Api.

(* ===================================================================== *)
(** ** src/lib/useShapeSocket.ts *)
(* ===================================================================== *)

Module ShapeSocket.
Import Api.

(** [PipelinePhase] is a union of string literals; at run time the phase
    cell holds whatever string was stored in it. *)
Definition PipelinePhase := string.

Definition PipelinePhase_values : list string :=
  [ "idle"; "connecting"; "connected"; "segmenting"; "segmented";
    "downsampling"; "downsampled"; "embedding"; "embedded"; "stored";
    "segment_done"; "parsing_query"; "tool_call"; "query_done"; "error" ].

Record ProgressEntry := {
  step : string;
  detail : gmap string JsVal;
  explanation : option string;
  timestamp : Z
}.

Inductive Expecting := segment | query.

Inductive ReadyState := CONNECTING | OPEN | CLOSING | CLOSED.

#[global] Instance Expecting_eq_dec : EqDecision Expecting.
Proof. solve_decision. Defined.

#[global] Instance ReadyState_eq_dec : EqDecision ReadyState.
Proof. solve_decision. Defined.

Record WebSocket := { url : string; readyState : ReadyState }.

(** The hook's state cells and refs, together with the browser side: every
    WebSocket ever constructed ([sockets], a socket's handle is its index)
    and the frames handed to [send] ([sent], oldest first). *)
Record State := mkState {
  wsRef : option nat;
  phase : PipelinePhase;
  progressLog : list ProgressEntry;
  progressText : string;
  segmentResult : option (Obj SegmentResult);
  queryResult : option (Obj ResultData);
  queryResultVersion : Z;
  error : option string;
  isConnected : bool;
  expectingRef : option Expecting;
  sockets : list WebSocket;
  sent : list (nat * WsOutgoing)
}.

Definition initial : State :=
  {| wsRef := None; phase := "idle"; progressLog := []; progressText := "";
     segmentResult := None; queryResult := None; queryResultVersion := 0;
     error := None; isConnected := false; expectingRef := None;
     sockets := []; sent := [] |}.

(** *** Setters *)

Definition set_wsRef (v : option nat) (s : State) : State :=
  mkState v (phase s) (progressLog s) (progressText s) (segmentResult s)
    (queryResult s) (queryResultVersion s) (error s) (isConnected s)
    (expectingRef s) (sockets s) (sent s).

Definition setPhaseWith (f : PipelinePhase -> PipelinePhase) (s : State) : State :=
  mkState (wsRef s) (f (phase s)) (progressLog s) (progressText s) (segmentResult s)
    (queryResult s) (queryResultVersion s) (error s) (isConnected s)
    (expectingRef s) (sockets s) (sent s).

Definition setPhase (p : PipelinePhase) : State -> State := setPhaseWith (fun _ => p).

Definition setProgressLogWith (f : list ProgressEntry -> list ProgressEntry) (s : State) : State :=
  mkState (wsRef s) (phase s) (f (progressLog s)) (progressText s) (segmentResult s)
    (queryResult s) (queryResultVersion s) (error s) (isConnected s)
    (expectingRef s) (sockets s) (sent s).

Definition setProgressLog (l : list ProgressEntry) : State -> State :=
  setProgressLogWith (fun _ => l).

Definition setProgressText (t : string) (s : State) : State :=
  mkState (wsRef s) (phase s) (progressLog s) t (segmentResult s)
    (queryResult s) (queryResultVersion s) (error s) (isConnected s)
    (expectingRef s) (sockets s) (sent s).

Definition setSegmentResult (r : option (Obj SegmentResult)) (s : State) : State :=
  mkState (wsRef s) (phase s) (progressLog s) (progressText s) r
    (queryResult s) (queryResultVersion s) (error s) (isConnected s)
    (expectingRef s) (sockets s) (sent s).

Definition setQueryResult (r : option (Obj ResultData)) (s : State) : State :=
  mkState (wsRef s) (phase s) (progressLog s) (progressText s) (segmentResult s)
    r (queryResultVersion s) (error s) (isConnected s)
    (expectingRef s) (sockets s) (sent s).

Definition setQueryResultVersionWith (f : Z -> Z) (s : State) : State :=
  mkState (wsRef s) (phase s) (progressLog s) (progressText s) (segmentResult s)
    (queryResult s) (f (queryResultVersion s)) (error s) (isConnected s)
    (expectingRef s) (sockets s) (sent s).

Definition setError (e : option string) (s : State) : State :=
  mkState (wsRef s) (phase s) (progressLog s) (progressText s) (segmentResult s)
    (queryResult s) (queryResultVersion s) e (isConnected s)
    (expectingRef s) (sockets s) (sent s).

Definition setIsConnected (b : bool) (s : State) : State :=
  mkState (wsRef s) (phase s) (progressLog s) (progressText s) (segmentResult s)
    (queryResult s) (queryResultVersion s) (error s) b
    (expectingRef s) (sockets s) (sent s).

Definition set_expectingRef (e : option Expecting) (s : State) : State :=
  mkState (wsRef s) (phase s) (progressLog s) (progressText s) (segmentResult s)
    (queryResult s) (queryResultVersion s) (error s) (isConnected s)
    e (sockets s) (sent s).

Definition set_sockets (l : list WebSocket) (s : State) : State :=
  mkState (wsRef s) (phase s) (progressLog s) (progressText s) (segmentResult s)
    (queryResult s) (queryResultVersion s) (error s) (isConnected s)
    (expectingRef s) l (sent s).

Definition set_sent (l : list (nat * WsOutgoing)) (s : State) : State :=
  mkState (wsRef s) (phase s) (progressLog s) (progressText s) (segmentResult s)
    (queryResult s) (queryResultVersion s) (error s) (isConnected s)
    (expectingRef s) (sockets s) l.

(** *** The browser's WebSocket objects *)

(** [ws.close()]: a connecting or open socket starts closing; on a closing
    or closed one the call does nothing. *)
Definition close_ws (w : WebSocket) : WebSocket :=
  match readyState w with
  | CONNECTING | OPEN => {| url := url w; readyState := CLOSING |}
  | CLOSING | CLOSED => w
  end.

Definition ws_close (ws : nat) (s : State) : State :=
  set_sockets (alter close_ws ws (sockets s)) s.

(** [new WebSocket(url)]: the fresh handle and the extended store. *)
Definition new_WebSocket (u : string) (s : State) : nat * State :=
  (length (sockets s),
   set_sockets (sockets s ++ [{| url := u; readyState := CONNECTING |}]) s).

(** [ws.readyState === WebSocket.OPEN] *)
Definition is_open (ws : nat) (s : State) : bool :=
  match sockets s !! ws with
  | Some {| readyState := OPEN |} => true
  | _ => false
  end.

(** [ws.send(JSON.stringify(payload))] *)
Definition ws_send (ws : nat) (payload : WsOutgoing) (s : State) : State :=
  set_sent (sent s ++ [(ws, payload)]) s.

(** *** disconnect *)

Definition disconnect (s : State) : State :=
  let s :=
    match wsRef s with
    | Some ws => s |> ws_close ws |> set_wsRef None
    | None => s
    end in
  s |> setIsConnected false |> setPhase "idle".

(** *** Handlers installed by connect *)

Definition onopen (s : State) : State :=
  s |> setIsConnected true.

(** JavaScript truthiness and [String(v)] on a possibly missing scalar. *)
Definition truthy (v : option JsVal) : bool :=
  match v with
  | None | Some JNull => false
  | Some (JBool b) => b
  | Some (JNum printed) => negb (String.eqb printed "0")
  | Some (JStr s) => negb (String.eqb s "")
  end.

Definition to_string (v : option JsVal) : string :=
  match v with
  | None => "undefined"
  | Some JNull => "null"
  | Some (JBool true) => "true"
  | Some (JBool false) => "false"
  | Some (JNum printed) => printed
  | Some (JStr s) => s
  end.

(** [s.replace(/_/g, " ")] *)
Fixpoint replace_underscores (s : string) : string :=
  match s with
  | EmptyString => EmptyString
  | String c r =>
      String (if Ascii.eqb c "_"%char then " "%char else c) (replace_underscores r)
  end.

Definition progress_text_by_step (step : string) (detail : gmap string JsVal) : string :=
  if String.eqb step "segmented" && truthy (detail !! "total_segments") then
    "Found " +:+ to_string (detail !! "total_segments") +:+ " segments"
  else if String.eqb step "downsampled" then
    "Downsampled " +:+ to_string (detail !! "segments_processed") +:+ " segments"
  else if String.eqb step "embedded" then
    "Embedded " +:+ to_string (detail !! "segments_embedded") +:+ " segments"
  else if String.eqb step "tool_call" && truthy (detail !! "tool") then
    "Calling " +:+ to_string (detail !! "tool") +:+ "..."
  else replace_underscores step.

(** The text shown next to the phase label for a progress message. *)
Definition progress_text (step : string) (detail : gmap string JsVal)
    (explanation : option string) : string :=
  let explained :=
    match explanation with
    | Some e => negb (String.eqb e "")
    | None => false
    end in
  if explained then default "" explanation
  else
    match detail !! "status" with
    | Some (JStr st) =>
        if negb (String.eqb st "") then st
        else progress_text_by_step step detail
    | _ => progress_text_by_step step detail
    end.

(** [ws.onmessage]; [now] is the value of [Date.now()]. *)
Definition onmessage (now : Z) (data : MessageData) (s : State) : State :=
  match data with
  | Undecodable => s                      (* catch: log and return *)
  | Decoded Connected =>
      s |> setPhaseWith (fun prev =>
             if String.eqb prev "connecting" || String.eqb prev "idle"
             then "connected" else prev)
  | Decoded (Progress step detail explanation) =>
      let entry := {| step := step; detail := detail;
                      explanation := explanation; timestamp := now |} in
      s |> setProgressLogWith (fun prev => prev ++ [entry])
        |> setPhase step
        |> setProgressText (progress_text step detail explanation)
  | Decoded (Result data) =>
      let s :=
        match expectingRef s, val data with
        | Some query, _ | _, QryData _ =>
            (* expectingRef.current === "query" || "answer" in data *)
            s |> setQueryResult (Some data)
              |> setQueryResultVersionWith (fun v => v + 1)%Z
              |> setPhase "query_done"
              |> setProgressText ""
        | _, SegData r =>
            s |> setSegmentResult (Some (mkObj (addr data) r))
              |> setPhase "segment_done"
              |> setProgressText ""
        end in
      s |> set_expectingRef None
  | Decoded (Error message) =>
      s |> setError (Some message) |> setPhase "error" |> setProgressText ""
  | Decoded (Other _) => s                (* default: warn *)
  end.

(** [ws.onclose], given [event.code]. *)
Definition onclose (code : Z) (s : State) : State :=
  let s := s |> setIsConnected false in
  if (code =? 4001)%Z then
    s |> setError (Some "Authentication failed. Please sign in again.")
      |> setPhase "error"
  else s.

Definition onerror (s : State) : State :=
  s |> setError (Some "WebSocket connection failed.")
    |> setPhase "error"
    |> setIsConnected false.

(** *** connect, triggerSegmentation, sendQuery *)

Section Backend.
Variable BACKEND : string.

Definition connect (uid sessionId : string) (s : State) : State :=
  let s := match wsRef s with Some ws => s |> ws_close ws | None => s end in
  let s := s |> setPhase "connecting" |> setError None
             |> setProgressLog [] |> setProgressText "" in
  let '(ws, s) := new_WebSocket (getWsUrl BACKEND uid sessionId) s in
  s |> set_wsRef (Some ws).
End Backend.

Record SegmentationOpts := {
  target_step : option Q;
  downsample_nodes : option Z;
  embed : option bool
}.

Definition triggerSegmentation (opts : option SegmentationOpts) (s : State) : State :=
  match wsRef s with
  | Some ws =>
      if is_open ws s then
        let s := s |> set_expectingRef (Some segment)
                   |> setProgressLog []
                   |> setProgressText "Starting segmentation..."
                   |> setPhase "segmenting" in
        let payload :=
          UploadAndSegment
            (default 1%Q (opts ≫= target_step))
            (default 16%Z (opts ≫= downsample_nodes))
            (default true (opts ≫= embed)) in
        s |> ws_send ws payload
      else s
  | None => s
  end.

Definition sendQuery (q : string) (s : State) : State :=
  match wsRef s with
  | Some ws =>
      if is_open ws s then
        let s := s |> set_expectingRef (Some query)
                   |> setProgressText "Understanding your question..."
                   |> setPhase "parsing_query" in
        s |> ws_send ws (Query q)
      else s
  | None => s
  end.

(** The cleanup of the hook's mount effect. *)
Definition unmount (s : State) : State :=
  match wsRef s with
  | Some ws => s |> ws_close ws |> set_wsRef None
  | None => s
  end.

(** *** Events of the browser

    The browser fires [open] once on a connecting socket, delivers
    [message] only while the socket is open, and fires [close] once, after
    which the socket is closed.  None of the handlers looks at the socket
    it was installed on, so an event of a replaced socket acts on the
    hook's state like one of the current socket. *)
Inductive WsEvent :=
| EvOpen
| EvMessage (now : Z) (data : MessageData)
| EvError
| EvClose (code : Z).

Definition set_readyState (ws : nat) (r : ReadyState) (s : State) : State :=
  set_sockets (alter (fun w => {| url := url w; readyState := r |}) ws (sockets s)) s.

Definition ready (ws : nat) (s : State) : option ReadyState :=
  readyState <$> sockets s !! ws.

Definition deliver (ws : nat) (ev : WsEvent) (s : State) : State :=
  match ev, ready ws s with
  | EvOpen, Some CONNECTING => s |> set_readyState ws OPEN |> onopen
  | EvMessage now data, Some OPEN => s |> onmessage now data
  | EvError, Some (CONNECTING | OPEN | CLOSING) => s |> onerror
  | EvClose code, Some (CONNECTING | OPEN | CLOSING) =>
      s |> set_readyState ws CLOSED |> onclose code
  | _, _ => s
  end.

(** A run of inbound events, each on the socket it names. *)
Definition receive (evs : list (nat * WsEvent)) (s : State) : State :=
  foldl (fun s e => deliver e.1 e.2 s) s evs.

(** A [progress] message whose step is one of the two phases in which an
    acknowledgment is taken. *)
Definition restarts (ev : WsEvent) : bool :=
  match ev with
  | EvMessage _ (Decoded (Progress step _ _)) =>
      bool_decide (step ∈ ["idle"; "connecting"])
  | _ => false
  end.

(** *** The hook in use

    What the component that mounts the hook, and the browser, can do to
    it: call one of the functions or setters the hook returns, or fire an
    event of one of the sockets. *)
Inductive Op :=
| Connect (uid sessionId : string)
| Disconnect
| TriggerSegmentation (opts : option SegmentationOpts)
| SendQuery (q : string)
| SetPhase (p : PipelinePhase)
| SetSegmentResult (r : option (Obj SegmentResult))
| Browser (ws : nat) (ev : WsEvent).

Section Use.
Variable BACKEND : string.

Definition perform (s : State) (op : Op) : State :=
  match op with
  | Connect uid sessionId => connect BACKEND uid sessionId s
  | Disconnect => disconnect s
  | TriggerSegmentation opts => triggerSegmentation opts s
  | SendQuery q => sendQuery q s
  | SetPhase p => setPhase p s
  | SetSegmentResult r => setSegmentResult r s
  | Browser ws ev => deliver ws ev s
  end.

Definition run (ops : list Op) (s : State) : State := foldl perform s ops.
End Use.

(** A socket that is connecting or open. *)
Definition live (w : WebSocket) : bool :=
  match readyState w with
  | CONNECTING | OPEN => true
  | CLOSING | CLOSED => false
  end.

(** Every socket but the one the hook holds is closing or closed, and the
    socket the hook holds is one of the store. *)
Definition tidy (s : State) : Prop :=
  (∀ ws w, sockets s !! ws = Some w → live w = true → wsRef s = Some ws)
  ∧ (∀ ws, wsRef s = Some ws → ws < length (sockets s)).

(** The [message] event of a [progress] message, given as the log entry it
    produces. *)
Definition progress_event (p : ProgressEntry) : WsEvent :=
  EvMessage (timestamp p) (Decoded (Progress (step p) (detail p) (explanation p))).

End ShapeSocket.

(* ===================================================================== *)
(** ** src/components/meshConstants.ts *)
(* ===================================================================== *)

Module MeshConstants.

(** RGB 0-255 *)
Definition Color := (Z * Z * Z)%type.

Definition SEGMENT_COLORS : gmap string Color :=
  list_to_map
    [ ("straight", (90, 178, 242)%Z);
      ("arc", (242, 140, 90)%Z);
      ("junction", (110, 210, 110)%Z);
      ("corner", (230, 100, 140)%Z) ].

Definition DEFAULT_MESH_COLOR : Color := (200, 200, 210)%Z.
Definition HIGHLIGHT_COLOR : Color := (255, 230, 80)%Z.

End MeshConstants.

(* ===================================================================== *)
(** ** src/components/MeshViewer.tsx *)
(* ===================================================================== *)

Module MeshViewer.
Import Api MeshConstants.

(** *** Typed arrays

    An element write of a [Uint8Array] / [Uint32Array] stores the value
    modulo the element width and is dropped when the index is outside the
    array (no exception, no growth); stdpp's list insert has exactly that
    out-of-range behaviour. *)
Definition u8_set (a : list Z) (i : nat) (v : Z) : list Z := <[i := (v mod 256)%Z]> a.
Definition u32_set (a : list Z) (i : nat) (v : Z) : list Z := <[i := (v mod 2^32)%Z]> a.

(** [a[i*3] = c[0]; a[i*3+1] = c[1]; a[i*3+2] = c[2]] *)
Definition set_rgb (a : list Z) (i : nat) (c : Color) : list Z :=
  let '(r, g, b) := c in
  u8_set (u8_set (u8_set a (i * 3) r) (i * 3 + 1) g) (i * 3 + 2) b.

(** An element write whose index is a number of the input rather than a
    loop counter. *)
Definition u8_store (a : list Z) (i : Q) (v : Z) : list Z :=
  match Js.array_index i with
  | Some n => u8_set a n v
  | None => a
  end.

(** [a[faceIdx*3] = c[0]; a[faceIdx*3+1] = c[1]; a[faceIdx*3+2] = c[2]].
    Numbers are rationals and their arithmetic is exact; the code's is
    rounded to a double, which makes no difference for the integers an
    index can be. *)
Definition store_rgb (a : list Z) (faceIdx : Q) (c : Color) : list Z :=
  let '(r, g, b) := c in
  u8_store (u8_store (u8_store a (faceIdx * 3) r) (faceIdx * 3 + 1) g)
           (faceIdx * 3 + 2) b.

(** A colour as three [Uint8Array] elements hold it. *)
Definition stored (c : Color) : Color :=
  let '(r, g, b) := c in ((r mod 256)%Z, (g mod 256)%Z, (b mod 256)%Z).

(** The colour triple stored for face [i]. *)
Definition get_rgb (a : list Z) (i : nat) : option Color :=
  r ← a !! (i * 3); g ← a !! (i * 3 + 1); b ← a !! (i * 3 + 2); Some (r, g, b).

(** *** Colouring *)

(** [highlightIds.includes(id)] *)
Definition includes (highlightIds : list Z) (id : Z) : bool :=
  bool_decide (id ∈ highlightIds).

(** What [color[0]], [color[1]], [color[2]] store when [color] is a
    member inherited from [Object.prototype]: the three are [undefined],
    which a [Uint8Array] holds as 0. *)
Definition member_color : Color := (0, 0, 0)%Z.

(** [isHighlighted ? HIGHLIGHT_COLOR : SEGMENT_COLORS[seg.type] || DEFAULT_MESH_COLOR];
    the colours of the table are arrays, hence truthy, and so are the
    members the table inherits. *)
Definition segment_color (highlightIds : list Z) (seg : Segment) : Color :=
  if includes highlightIds (segment_id seg) then HIGHLIGHT_COLOR
  else
    match Js.get SEGMENT_COLORS (type seg) with
    | Js.Own c => c
    | Js.Inherited => member_color
    | Js.Undefined => DEFAULT_MESH_COLOR
    end.

(** [new Uint8Array(numFaces * 3)] filled with the default colour. *)
Definition default_face_colors (numFaces : nat) : list Z :=
  foldl (fun a i => set_rgb a i DEFAULT_MESH_COLOR)
        (replicate (numFaces * 3) 0%Z) (seq 0 numFaces).

(** The body of [for (const faceIdx of seg.face_ids)]: the guard compares
    the number with the face count and nothing else. *)
Definition paint_face (numFaces : nat) (color : Color) (a : list Z) (faceIdx : Q)
    : list Z :=
  if Js.lt faceIdx (inject_Z (Z.of_nat numFaces)) then store_rgb a faceIdx color else a.


(** The number [q] is the face index [F]. *)
Definition is_face (F : nat) (q : Q) : Prop := (q == inject_Z (Z.of_nat F))%Q.

#[global] Instance is_face_dec F q : Decision (is_face F q) := Qeq_dec _ _.

(** The segment lists face [F]. *)
Definition lists_face (seg : Segment) (F : nat) : Prop :=
  ∃ ids, face_ids seg = Some ids ∧ Exists (is_face F) ids.

(** Every number of the segment's face list is a face index: an integer
    that is not negative. *)
Definition face_indices (seg : Segment) : Prop :=
  ∀ ids, face_ids seg = Some ids → Forall (fun q => ∃ F, is_face F q) ids.

(** The body of [for (const seg of segmentResult.segments)]. *)
Definition paint_segment (numFaces : nat) (highlightIds : list Z) (a : list Z)
    (seg : Segment) : list Z :=
  let color := segment_color highlightIds seg in
  match face_ids seg with
  | Some ids =>
      if 0 <? length ids then foldl (paint_face numFaces color) a ids else a
  | None => a
  end.

(** The [faceColors] buffer handed to VTK as ["SegmentColors"]. *)
Definition face_colors (numFaces : nat) (segmentResult : option SegmentResult)
    (highlightIds : list Z) : list Z :=
  let a := default_face_colors numFaces in
  match segmentResult with
  | Some r => foldl (paint_segment numFaces highlightIds) a (segments r)
  | None => a
  end.

(** [polys]: one [3, v0, v1, v2] cell per face; a missing vertex index
    reads as [undefined] and is stored as 0. *)
Definition face_polys (faces : list (list Z)) : list Z :=
  foldl (fun a '(i, f) =>
           u32_set (u32_set (u32_set (u32_set a (i * 4) 3)
             (i * 4 + 1) (default 0%Z (f !! 0)))
             (i * 4 + 2) (default 0%Z (f !! 1)))
             (i * 4 + 3) (default 0%Z (f !! 2)))
        (replicate (length faces * 4) 0%Z)
        (imap (fun i f => (i, f)) faces).

(** The centerline overlay: per-node colours and the line cells, built
    with a running [offset]; segments with fewer than two downsampled
    nodes are skipped.  [clLines] and [clColors] are given as stored by
    [new Uint32Array(clLines)] and [new Uint8Array(clColors)]; an edge
    with a missing endpoint yields [NaN], stored as 0. *)
Record Centerline := {
  clPoints : nat;               (* number of nodes pushed *)
  clLines : list Z;
  clColors : list Z;
  offset : Z
}.

Definition centerline_segment (highlightIds : list Z) (cl : Centerline)
    (seg : Segment) : Centerline :=
  let nodes := downsampled_nodes seg in
  if length nodes <? 2 then cl
  else
    let '(r, g, b) := segment_color highlightIds seg in
    let n := length nodes in
    let edges := downsampled_edges seg in
    let endpoint (e : list Z) (k : nat) : Z :=
      match e !! k with
      | Some x => ((x + offset cl) mod 2^32)%Z
      | None => 0%Z
      end in
    let lines :=
      if 0 <? length edges then
        flat_map (fun e => [2%Z; endpoint e 0; endpoint e 1]) edges
      else
        (Z.of_nat n mod 2^32)%Z
          :: map (fun i => ((Z.of_nat i + offset cl) mod 2^32)%Z) (seq 0 n) in
    {| clPoints := clPoints cl + n;
       clLines := clLines cl ++ lines;
       clColors := clColors cl
                   ++ flat_map (fun _ => [r mod 256; g mod 256; b mod 256]%Z) nodes;
       offset := offset cl + Z.of_nat n |}.

Definition centerline (segmentResult : option SegmentResult) (highlightIds : list Z)
    : option Centerline :=
  match segmentResult with
  | Some r =>
      let cl := foldl (centerline_segment highlightIds)
                  {| clPoints := 0; clLines := []; clColors := []; offset := 0 |}
                  (segments r) in
      if 0 <? clPoints cl then Some cl else None
  | None => None
  end.

(** *** The scene and the effects

    What one run of the render effect constructs: a full-screen renderer
    with its renderer, render window and surface actor.  The handle of a
    scene is its index in [scenes]; the four refs of the component hold
    such handles.  Vertex coordinates are floating-point and are left out;
    the integer buffers are kept. *)
Record Scene := {
  polys : list Z;
  SegmentColors : list Z;
  surfaceOpacity : Q;                    (* the surface actor's opacity *)
  overlay : option Centerline;
  deleted : bool;                        (* fullScreenRenderer.delete() *)
  renders : nat                          (* renderWindow.render() calls *)
}.

Record Props := {
  segmentResult : option (Obj SegmentResult);
  highlightIds : Obj (list Z);
  opacity : Q
}.

Record Viewer := mkViewer {
  containerRef : bool;                   (* the container div is mounted *)
  surfaceMesh : option (Obj SurfaceMesh);
  vtkContextRef : option nat;
  surfaceActorRef : option nat;
  rendererRef : option nat;
  renderWindowRef : option nat;
  rotatingRef : bool;
  rafIdRef : option nat;
  scenes : list Scene;
  frames : nat;                          (* animation frames requested *)
  cleanup : bool                         (* the render effect's last run
                                            returned its cleanup *)
}.

Definition initial : Viewer :=
  {| containerRef := false; surfaceMesh := None; vtkContextRef := None;
     surfaceActorRef := None; rendererRef := None; renderWindowRef := None;
     rotatingRef := true; rafIdRef := None; scenes := []; frames := 0;
     cleanup := false |}.

Definition set_scenes (l : list Scene) (v : Viewer) : Viewer :=
  mkViewer (containerRef v) (surfaceMesh v) (vtkContextRef v) (surfaceActorRef v)
    (rendererRef v) (renderWindowRef v) (rotatingRef v) (rafIdRef v) l
    (frames v) (cleanup v).

Definition set_refs (ctx actor ren win : option nat) (v : Viewer) : Viewer :=
  mkViewer (containerRef v) (surfaceMesh v) ctx actor ren win
    (rotatingRef v) (rafIdRef v) (scenes v) (frames v) (cleanup v).

Definition set_cleanup (b : bool) (v : Viewer) : Viewer :=
  mkViewer (containerRef v) (surfaceMesh v) (vtkContextRef v) (surfaceActorRef v)
    (rendererRef v) (renderWindowRef v) (rotatingRef v) (rafIdRef v) (scenes v)
    (frames v) b.

Definition set_surfaceOpacity (o : Q) (sc : Scene) : Scene :=
  {| polys := polys sc; SegmentColors := SegmentColors sc; surfaceOpacity := o;
     overlay := overlay sc; deleted := deleted sc; renders := renders sc |}.

Definition render (sc : Scene) : Scene :=
  {| polys := polys sc; SegmentColors := SegmentColors sc;
     surfaceOpacity := surfaceOpacity sc; overlay := overlay sc;
     deleted := deleted sc; renders := S (renders sc) |}.

Definition delete (sc : Scene) : Scene :=
  {| polys := polys sc; SegmentColors := SegmentColors sc;
     surfaceOpacity := surfaceOpacity sc; overlay := overlay sc;
     deleted := true; renders := renders sc |}.

(** [startRotation]: request a frame unless the loop is already running. *)
Definition startRotation (v : Viewer) : Viewer :=
  match rafIdRef v with
  | Some _ => v
  | None =>
      mkViewer (containerRef v) (surfaceMesh v) (vtkContextRef v) (surfaceActorRef v)
        (rendererRef v) (renderWindowRef v) (rotatingRef v) (Some (frames v))
        (scenes v) (S (frames v)) (cleanup v)
  end.

(** [stopRotation]: cancel the pending frame, if any. *)
Definition stopRotation (v : Viewer) : Viewer :=
  mkViewer (containerRef v) (surfaceMesh v) (vtkContextRef v) (surfaceActorRef v)
    (rendererRef v) (renderWindowRef v) (rotatingRef v) None (scenes v)
    (frames v) (cleanup v).

(** The effect with dependency array [[opacity]]. *)
Definition opacity_effect (p : Props) (v : Viewer) : Viewer :=
  match surfaceActorRef v, renderWindowRef v with
  | Some actor, Some win =>
      v |> set_scenes (alter render win
                         (alter (set_surfaceOpacity (opacity p)) actor (scenes v)))
  | _, _ => v
  end.

(** Everything the render effect builds from the mesh and the props. *)
Definition build_scene (mesh : SurfaceMesh) (p : Props) : Scene :=
  let result := val <$> segmentResult p in
  {| polys := face_polys (faces mesh);
     SegmentColors := face_colors (length (faces mesh)) result (val (highlightIds p));
     surfaceOpacity := opacity p;
     overlay := centerline result (val (highlightIds p));
     deleted := false;
     renders := 1 |}.

(** The effect with dependency array
    [[surfaceMesh, segmentResult, highlightIds, opacity]]. *)
Definition render_effect (p : Props) (v : Viewer) : Viewer :=
  match surfaceMesh v with
  | Some mesh =>
      if negb (containerRef v)
         || (length (vertices (val mesh)) =? 0)
         || (length (faces (val mesh)) =? 0)
      then v |> set_cleanup false
      else
        let v :=
          match vtkContextRef v with
          | Some ctx =>
              v |> set_scenes (alter delete ctx (scenes v))
                |> set_refs None (surfaceActorRef v) (rendererRef v) (renderWindowRef v)
          | None => v
          end in
        let h := length (scenes v) in
        let v := v |> set_scenes (scenes v ++ [build_scene (val mesh) p])
                   |> set_refs (Some h) (Some h) (Some h) (Some h) in
        let v := if rotatingRef v then startRotation v else v in
        v |> set_cleanup true
  | None => v |> set_cleanup false
  end.

(** The function returned by the render effect. *)
Definition render_cleanup (v : Viewer) : Viewer :=
  let v := stopRotation v in
  let v := v |> set_refs (vtkContextRef v) None None None in
  match vtkContextRef v with
  | Some ctx =>
      v |> set_scenes (alter delete ctx (scenes v))
        |> set_refs None None None None
  | None => v
  end.

(** React's comparison of dependencies: objects by identity, numbers by
    value. *)
Definition same_ref {A} (a b : option (Obj A)) : bool :=
  match a, b with
  | None, None => true
  | Some x, Some y => addr x =? addr y
  | _, _ => false
  end.

Definition opacity_deps_changed (p p' : Props) : bool :=
  negb (Qeq_bool (opacity p) (opacity p')).

Definition render_deps_changed (mesh mesh' : option (Obj SurfaceMesh)) (p p' : Props)
    : bool :=
  negb (same_ref mesh mesh')
  || negb (same_ref (segmentResult p) (segmentResult p'))
  || negb (addr (highlightIds p) =? addr (highlightIds p'))
  || negb (Qeq_bool (opacity p) (opacity p')).

(** One commit: the cleanups of the effects whose dependencies changed run
    first, then those effects, in the order the component declares them. *)
Definition commit (opacity_changed render_changed : bool) (p' : Props) (v : Viewer)
    : Viewer :=
  let v := if render_changed && cleanup v then render_cleanup v else v in
  let v := if opacity_changed then opacity_effect p' v else v in
  if render_changed then render_effect p' v else v.

(** The parent passes new props. *)
Definition rerender (p p' : Props) (v : Viewer) : Viewer :=
  commit (opacity_deps_changed p p')
         (render_deps_changed (surfaceMesh v) (surfaceMesh v) p p') p' v.

(** The mesh fetch resolved with a non-empty mesh: [surfaceMesh] is set,
    the loading state ends and the container div is mounted. *)
Definition mesh_loaded (mesh : Obj SurfaceMesh) (p : Props) (v : Viewer) : Viewer :=
  let v' :=
    mkViewer true (Some mesh) (vtkContextRef v) (surfaceActorRef v)
      (rendererRef v) (renderWindowRef v) (rotatingRef v) (rafIdRef v)
      (scenes v) (frames v) (cleanup v) in
  commit false (render_deps_changed (surfaceMesh v) (Some mesh) p p) p v'.

(** *** Rotation controls *)

Definition set_rotatingRef (b : bool) (v : Viewer) : Viewer :=
  mkViewer (containerRef v) (surfaceMesh v) (vtkContextRef v) (surfaceActorRef v)
    (rendererRef v) (renderWindowRef v) b (rafIdRef v) (scenes v)
    (frames v) (cleanup v).

Definition set_rafIdRef (r : option nat) (v : Viewer) : Viewer :=
  mkViewer (containerRef v) (surfaceMesh v) (vtkContextRef v) (surfaceActorRef v)
    (rendererRef v) (renderWindowRef v) (rotatingRef v) r (scenes v)
    (frames v) (cleanup v).

(** [rafIdRef.current = requestAnimationFrame(animate)] *)
Definition requestAnimationFrame (v : Viewer) : Viewer :=
  mkViewer (containerRef v) (surfaceMesh v) (vtkContextRef v) (surfaceActorRef v)
    (rendererRef v) (renderWindowRef v) (rotatingRef v) (Some (frames v))
    (scenes v) (S (frames v)) (cleanup v).

(** [toggleRotation]; the value it returns is [isRotating] afterwards. *)
Definition toggleRotation (v : Viewer) : Viewer :=
  let v := v |> set_rotatingRef (negb (rotatingRef v)) in
  if rotatingRef v then startRotation v else stopRotation v.

Definition isRotating (v : Viewer) : bool := rotatingRef v.

(** [animate], the callback of the requested frame.  The camera moves are
    floating-point and are left out; the render they end with is counted. *)
Definition animate (v : Viewer) : Viewer :=
  if negb (rotatingRef v) then v |> set_rafIdRef None
  else
    let v :=
      match rendererRef v, renderWindowRef v with
      | Some _, Some win => v |> set_scenes (alter render win (scenes v))
      | _, _ => v
      end in
    requestAnimationFrame v.

(** The browser runs the frame [rafIdRef] holds; a cancelled frame never
    runs. *)
Definition frame (v : Viewer) : Viewer :=
  match rafIdRef v with
  | Some _ => animate v
  | None => v
  end.

(** *** Fetching the mesh, and what the component renders *)

Record Fetch := { loading : bool; error : option string }.

(** The fetch effect (dependencies [[uid, sessionId]]) up to the call of
    [getSurfaceMesh]. *)
Definition fetch_effect (uid sessionId : string) (f : Fetch) : Fetch :=
  if String.eqb uid "" || String.eqb sessionId "" then f
  else {| loading := true; error := None |}.

(** [.then], [.catch] and [.finally] of the fetch effect: the new
    [loading] and [error] cells and the new [surfaceMesh].  A missing
    [vertices] or [faces] field reads as the empty list: [?.length] is
    falsy for both. *)
Definition fetch_settled (outcome : Promise (Obj SurfaceMesh)) (f : Fetch)
    (mesh : option (Obj SurfaceMesh)) : Fetch * option (Obj SurfaceMesh) :=
  match outcome with
  | Fulfilled data =>
      if (length (vertices (val data)) =? 0) || (length (faces (val data)) =? 0)
      then ({| loading := false;
               error := Some "Mesh data is empty or has unexpected format." |}, mesh)
      else ({| loading := false; error := error f |}, Some data)
  | Rejected message =>
      ({| loading := false;
          error := Some ("Could not load mesh: "
                         +:+ (if String.eqb message "" then "unknown error" else message)) |},
       mesh)
  end.

Inductive View :=
| LoadingMesh                      (* "Loading mesh…" *)
| ShowError (e : string)
| ProcessingMesh                   (* "Processing mesh…" *)
| WaitingForMesh                   (* "Waiting for mesh data…" *)
| Container.                       (* <div ref={containerRef}/> *)

Definition view (processing : bool) (f : Fetch) (mesh : option (Obj SurfaceMesh)) : View :=
  let without_error :=
    match mesh with
    | None => if processing then ProcessingMesh else WaitingForMesh
    | Some _ => Container
    end in
  if loading f then LoadingMesh
  else
    match error f with
    | Some e => if negb (String.eqb e "") then ShowError e else without_error
    | None => without_error
    end.

(** *** The component in use

    The cleanup of the render effect also runs when the component
    unmounts.  React applies the state updates of one settled promise in
    one render; the container div exists exactly in the [Container]
    view, which does not depend on [processing]. *)
Definition unmount (v : Viewer) : Viewer :=
  if cleanup v then render_cleanup v |> set_cleanup false else v.

Record Component := mkComponent {
  props : Props;
  fetch : Fetch;
  viewer : Viewer
}.

(** The component as mounted with props [p]: the fetch effect has run,
    the other two effects found nothing to do. *)
Definition mount (uid sessionId : string) (p : Props) : Component :=
  {| props := p;
     fetch := fetch_effect uid sessionId {| loading := false; error := None |};
     viewer := initial |}.

Definition set_containerRef (b : bool) (v : Viewer) : Viewer :=
  mkViewer b (surfaceMesh v) (vtkContextRef v) (surfaceActorRef v)
    (rendererRef v) (renderWindowRef v) (rotatingRef v) (rafIdRef v) (scenes v)
    (frames v) (cleanup v).

Definition set_surfaceMesh (m : option (Obj SurfaceMesh)) (v : Viewer) : Viewer :=
  mkViewer (containerRef v) m (vtkContextRef v) (surfaceActorRef v)
    (rendererRef v) (renderWindowRef v) (rotatingRef v) (rafIdRef v) (scenes v)
    (frames v) (cleanup v).

Definition shows_container (f : Fetch) (mesh : option (Obj SurfaceMesh)) : bool :=
  match view false f mesh with Container => true | _ => false end.

Inductive Op :=
| SetProps (p' : Props)
| SetSession (uid sessionId : string)
| MeshFetched (fetched : Promise (Response (Obj SurfaceMesh)))
| ToggleRotation
| AnimationFrame
| Unmount.

Definition perform (c : Component) (op : Op) : Component :=
  match op with
  | SetProps p' =>
      mkComponent p' (fetch c) (rerender (props c) p' (viewer c))
  | SetSession uid sessionId =>
      let f := fetch_effect uid sessionId (fetch c) in
      mkComponent (props c) f
        (viewer c |> set_containerRef (shows_container f (surfaceMesh (viewer c))))
  | MeshFetched fetched =>
      let '(f, mesh) :=
        fetch_settled (getSurfaceMesh fetched) (fetch c) (surfaceMesh (viewer c)) in
      let v := viewer c |> set_containerRef (shows_container f mesh)
                        |> set_surfaceMesh mesh in
      mkComponent (props c) f
        (commit false
           (render_deps_changed (surfaceMesh (viewer c)) mesh (props c) (props c))
           (props c) v)
  | ToggleRotation => mkComponent (props c) (fetch c) (toggleRotation (viewer c))
  | AnimationFrame => mkComponent (props c) (fetch c) (frame (viewer c))
  | Unmount => mkComponent (props c) (fetch c) (unmount (viewer c))
  end.

Definition run (ops : list Op) (c : Component) : Component := foldl perform c ops.

(** The refs point to one scene, every other scene has been deleted, and a
    frame is pending only while the rotation is on. *)
Definition consistent (v : Viewer) : Prop :=
  surfaceActorRef v = vtkContextRef v
  ∧ rendererRef v = vtkContextRef v
  ∧ renderWindowRef v = vtkContextRef v
  ∧ (∀ i sc, scenes v !! i = Some sc → deleted sc = false → vtkContextRef v = Some i)
  ∧ (∀ i, vtkContextRef v = Some i →
       cleanup v = true ∧ ∃ sc, scenes v !! i = Some sc ∧ deleted sc = false)
  ∧ (is_Some (rafIdRef v) → rotatingRef v = true)
  ∧ (rotatingRef v = true → is_Some (vtkContextRef v) → is_Some (rafIdRef v)).

(** The mesh held is non-empty, and the container div exists exactly in
    the [Container] view. *)
Definition wellformed (c : Component) : Prop :=
  consistent (viewer c)
  ∧ (∀ m, surfaceMesh (viewer c) = Some m →
       vertices (val m) ≠ [] ∧ faces (val m) ≠ [])
  ∧ containerRef (viewer c) = shows_container (fetch c) (surfaceMesh (viewer c)).

(** *** Cell arrays

    [polys] and [clLines] as VTK reads them: a count, then that many point
    indices, and so on to the end of the array. *)
(** The three point indices of a face as [polys] holds them. *)
Definition triangle (f : list Z) : list Z :=
  [ (default 0 (f !! 0%nat) mod 2^32)%Z;
    (default 0 (f !! 1%nat) mod 2^32)%Z;
    (default 0 (f !! 2%nat) mod 2^32)%Z ].

Fixpoint cells (fuel : nat) (a : list Z) : option (list (list Z)) :=
  match fuel, a with
  | _, [] => Some []
  | 0, _ :: _ => None
  | S fuel, n :: a =>
      let k := Z.to_nat n in
      if length a <? k then None
      else cons (take k a) <$> cells fuel (drop k a)
  end.

(** Every edge of the segment joins two of the segment's nodes. *)
Definition edges_in_range (seg : Segment) : Prop :=
  Forall (fun e : list Z =>
            ∃ a b, e !! 0%nat = Some a ∧ e !! 1%nat = Some b
              ∧ (0 ≤ a < Z.of_nat (length (downsampled_nodes seg)))%Z
              ∧ (0 ≤ b < Z.of_nat (length (downsampled_nodes seg)))%Z)
         (downsampled_edges seg).

End MeshViewer.

(* ===================================================================== *)
(** ** src/app/dashboard/page.tsx *)
(* ===================================================================== *)

Module Dashboard.
Import Api.

(** *** String.prototype.trim

    Strings are UTF-8 byte strings; the white space and line terminator
    code points of ECMAScript are listed by their encodings. *)
Definition utf8 (bytes : list nat) : string :=
  string_of_list_ascii (map ascii_of_nat bytes).

Definition white_space : list string :=
  map utf8
    [ [9]; [10]; [11]; [12]; [13]; [32];                    (* TAB LF VT FF CR SP *)
      [194; 160];                                           (* U+00A0 *)
      [225; 154; 128];                                      (* U+1680 *)
      [226; 128; 128]; [226; 128; 129]; [226; 128; 130];    (* U+2000 - U+200A *)
      [226; 128; 131]; [226; 128; 132]; [226; 128; 133];
      [226; 128; 134]; [226; 128; 135]; [226; 128; 136];
      [226; 128; 137]; [226; 128; 138];
      [226; 128; 168]; [226; 128; 169];                     (* U+2028 U+2029 *)
      [226; 128; 175];                                      (* U+202F *)
      [226; 129; 159];                                      (* U+205F *)
      [227; 128; 128];                                      (* U+3000 *)
      [239; 187; 191] ].                                    (* U+FEFF *)

Fixpoint strip_prefix (tok s : string) : option string :=
  match tok, s with
  | EmptyString, _ => Some s
  | String a tok', String b s' =>
      if Ascii.eqb a b then strip_prefix tok' s' else None
  | String _ _, EmptyString => None
  end.

(** [s] without one leading white space code point, if it has one. *)
Definition strip_one (tokens : list string) (s : string) : option string :=
  list_find (fun r : option string => is_Some r) (map (fun tok => strip_prefix tok s) tokens)
    ≫= snd.

Fixpoint strip_all (fuel : nat) (tokens : list string) (s : string) : string :=
  match fuel with
  | 0 => s
  | S fuel =>
      match strip_one tokens s with
      | Some r => strip_all fuel tokens r
      | None => s
      end
  end.

Definition trimStart (s : string) : string :=
  strip_all (String.length s) white_space s.

Definition trimEnd (s : string) : string :=
  String.rev (strip_all (String.length s) (map String.rev white_space) (String.rev s)).

Definition trim (s : string) : string := trimEnd (trimStart s).

(** *** isProcessing *)

Definition isProcessing (phase : string) : bool :=
  bool_decide (phase ∈
    [ "connecting"; "segmenting"; "segmented"; "downsampling";
      "downsampled"; "embedding"; "embedded"; "stored";
      "parsing_query"; "tool_call" ]).

(** *** The part of the page that reaches the socket

    The refs and state cells read by the handlers and effects that issue
    commands, and the hook's state.  The transcript, the highlight set and
    the modal and layout cells are written by the page but never read by
    the code below, and are not part of [State]; the two chat cells that
    [handleSendMessage] writes are given beside it, in [Chat].
    [rendered] holds the values the effects' dependency arrays had at the
    last render. *)
Record Deps := {
  dep_phase : string;
  dep_segmentResult : option nat;        (* identity of the object, or null *)
  dep_activeSession : option string
}.

Record State := mkState {
  activeSession : option string;
  pendingPromptRef : option string;
  needsSegmentationRef : bool;
  freshSegmentationRef : bool;
  socket : ShapeSocket.State;
  rendered : Deps
}.

Definition deps_of (s : State) : Deps :=
  {| dep_phase := ShapeSocket.phase (socket s);
     dep_segmentResult := addr <$> ShapeSocket.segmentResult (socket s);
     dep_activeSession := activeSession s |}.

(** The page as mounted: the effects have run once, with nothing to do. *)
Definition initial : State :=
  {| activeSession := None; pendingPromptRef := None;
     needsSegmentationRef := false; freshSegmentationRef := false;
     socket := ShapeSocket.initial;
     rendered := {| dep_phase := "idle"; dep_segmentResult := None;
                    dep_activeSession := None |} |}.

Definition setActiveSession (a : option string) (s : State) : State :=
  mkState a (pendingPromptRef s) (needsSegmentationRef s) (freshSegmentationRef s)
    (socket s) (rendered s).

Definition set_pendingPromptRef (p : option string) (s : State) : State :=
  mkState (activeSession s) p (needsSegmentationRef s) (freshSegmentationRef s)
    (socket s) (rendered s).

Definition set_needsSegmentationRef (b : bool) (s : State) : State :=
  mkState (activeSession s) (pendingPromptRef s) b (freshSegmentationRef s)
    (socket s) (rendered s).

Definition set_freshSegmentationRef (b : bool) (s : State) : State :=
  mkState (activeSession s) (pendingPromptRef s) (needsSegmentationRef s) b
    (socket s) (rendered s).

(** Run a function of the hook on the hook's state. *)
Definition hook (f : ShapeSocket.State -> ShapeSocket.State) (s : State) : State :=
  mkState (activeSession s) (pendingPromptRef s) (needsSegmentationRef s)
    (freshSegmentationRef s) (f (socket s)) (rendered s).

Definition set_rendered (d : Deps) (s : State) : State :=
  mkState (activeSession s) (pendingPromptRef s) (needsSegmentationRef s)
    (freshSegmentationRef s) (socket s) d.

(** *** Effects *)

(** A non-empty string ([activeSession &&], [modalPrompt ||]). *)
Definition nonempty (o : option string) : bool :=
  match o with Some t => negb (String.eqb t "") | None => false end.

(** [pendingPromptRef.current?.trim() || "describe this geometry"] *)
Definition auto_prompt (pending : option string) : string :=
  match trim <$> pending with
  | Some t => if String.eqb t "" then "describe this geometry" else t
  | None => "describe this geometry"
  end.

(** The effect with dependencies [[phase, segmentResult, ...]]: after a
    fresh segmentation, send the automatic query.  [d] is the render the
    effect closes over. *)
Definition segment_done_effect (d : Deps) (s : State) : State :=
  if String.eqb (dep_phase d) "segment_done"
     && bool_decide (is_Some (dep_segmentResult d))
     && freshSegmentationRef s
  then
    let s := s |> set_freshSegmentationRef false in
    let prompt := auto_prompt (pendingPromptRef s) in
    s |> set_pendingPromptRef None |> hook (ShapeSocket.sendQuery prompt)
  else s.

(** The effect with dependencies [[phase, activeSession, ...]]: start the
    segmentation of a newly created session once the socket acknowledged. *)
Definition connected_effect (d : Deps) (s : State) : State :=
  if String.eqb (dep_phase d) "connected"
     && nonempty (dep_activeSession d)
     && needsSegmentationRef s
  then
    s |> set_needsSegmentationRef false
      |> set_freshSegmentationRef true
      |> hook (ShapeSocket.triggerSegmentation None)
  else s.

Definition deps1_changed (d d' : Deps) : bool :=
  negb (String.eqb (dep_phase d) (dep_phase d'))
  || negb (bool_decide (dep_segmentResult d = dep_segmentResult d')).

Definition deps4_changed (d d' : Deps) : bool :=
  negb (String.eqb (dep_phase d) (dep_phase d'))
  || negb (bool_decide (dep_activeSession d = dep_activeSession d')).

(** One render and commit: the effects whose dependencies changed since
    the last render run in declaration order, each seeing the state of
    this render and the current refs. *)
Definition commit (s : State) : State :=
  let prev := rendered s in
  let d := deps_of s in
  let s := s |> set_rendered d in
  let s := if deps1_changed prev d then segment_done_effect d s else s in
  if deps4_changed prev d then connected_effect d s else s.

(** Render until no dependency changes any more. *)
Fixpoint settle (fuel : nat) (s : State) : State :=
  match fuel with
  | 0 => s
  | S fuel =>
      if deps1_changed (rendered s) (deps_of s)
         || deps4_changed (rendered s) (deps_of s)
      then settle fuel (commit s)
      else s
  end.

(** *** Handlers *)

Section Session.
Variable BACKEND : string.
(** [uid] of [useAuth()]; the page renders its handlers only when it is
    set. *)
Variable uid : string.

(** [handleCreateInteraction] with a file chosen in the modal, from the
    resolution of [uploadMesh] with session id [sid] on. *)
Definition handleCreateInteraction (sid modalPrompt : string) (s : State) : State :=
  if String.eqb uid "" then s
  else
    s |> set_pendingPromptRef
           (if String.eqb modalPrompt "" then None else Some modalPrompt)
      |> set_needsSegmentationRef true
      |> setActiveSession (Some sid)
      |> hook (ShapeSocket.connect BACKEND uid sid).

(** [handleSelectSession], up to its [await]. *)
Definition handleSelectSession (sid : string) (s : State) : State :=
  if bool_decide (Some sid = activeSession s) then s
  else
    let s := s |> hook ShapeSocket.disconnect
               |> setActiveSession (Some sid)
               |> hook (ShapeSocket.setSegmentResult None) in
    if String.eqb uid "" then s
    else s |> hook (ShapeSocket.connect BACKEND uid sid).

(** [handleSelectSession], after [getSegments] resolved.  The chat
    history that arrives with the segments goes to the transcript only. *)
Definition restoreSegments (segments : option (Obj SegmentResult)) (s : State) : State :=
  match segments with
  | Some r =>
      s |> hook (ShapeSocket.setSegmentResult (Some r))
        |> hook (ShapeSocket.setPhase "segment_done")
  | None => s
  end.

(** [handleSendMessage], as far as it reaches the socket; [chatInput] is
    the content of the input cell when the handler runs.  The handler
    with the two cells it also writes is [submitMessage] below. *)
Definition handleSendMessage (chatInput : string) (s : State) : State :=
  let text := trim chatInput in
  if String.eqb text ""
     || negb (nonempty (activeSession s))
     || isProcessing (ShapeSocket.phase (socket s))
  then s
  else s |> hook (ShapeSocket.sendQuery text).

(** The chat cells of the page: the input and the transcript. *)
Record ChatMessage := { role : string; text : string }.

Record Chat := { chatInput : string; messages : list ChatMessage }.

(** [handleSendMessage] whole: past the guard the message joins the
    transcript and the input is cleared, and only then is [sendQuery]
    called, which may find the socket closed. *)
Definition submitMessage (c : Chat) (s : State) : Chat * State :=
  let text := trim (chatInput c) in
  if String.eqb text ""
     || negb (nonempty (activeSession s))
     || isProcessing (ShapeSocket.phase (socket s))
  then (c, s)
  else
    ({| chatInput := "";
        messages := messages c ++ [ {| role := "user"; text := text |} ] |},
     s |> hook (ShapeSocket.sendQuery text)).

(** *** Events

    Each event runs its handler to completion and the page then renders
    until its effects are quiescent, before the next event is taken. *)
Inductive Event :=
| CreateInteraction (sid modalPrompt : string)
| SelectSession (sid : string)
| SegmentsLoaded (segments : option (Obj SegmentResult))
| SendMessage (chatInput : string)
| Ws (ws : nat) (ev : ShapeSocket.WsEvent).

Definition handle (ev : Event) (s : State) : State :=
  match ev with
  | CreateInteraction sid modalPrompt => handleCreateInteraction sid modalPrompt s
  | SelectSession sid => handleSelectSession sid s
  | SegmentsLoaded segments => restoreSegments segments s
  | SendMessage chatInput => handleSendMessage chatInput s
  | Ws ws ev => s |> hook (ShapeSocket.deliver ws ev)
  end.

Definition step (s : State) (ev : Event) : State :=
  settle 4 (handle ev s).

Definition run (evs : list Event) (s : State) : State :=
  foldl step s evs.

End Session.

Definition is_create (ev : Event) : bool :=
  match ev with CreateInteraction _ _ => true | _ => false end.

(** A [progress] message arriving on socket [ws], given as the log entry
    it produces. *)
Definition progress_on (ws : nat) (p : ShapeSocket.ProgressEntry) : Event :=
  Ws ws (ShapeSocket.EvMessage (ShapeSocket.timestamp p)
           (Decoded (Progress (ShapeSocket.step p) (ShapeSocket.detail p)
                       (ShapeSocket.explanation p)))).

(** The page of a newly created session [sid] between the segmentation
    command and its result: the session's socket is the newest one, [pre]
    are the older ones, [seg], [qr], [qv] and [snt] are what the page held
    before the session was created. *)
Definition segmenting_page (BACKEND uid sid modalPrompt : string)
    (pre : list ShapeSocket.WebSocket) (seg : option (Obj SegmentResult))
    (qr : option (Obj ResultData)) (qv : Z) (snt : list (nat * WsOutgoing))
    (ph : string) (log : list ShapeSocket.ProgressEntry) (txt : string) : State :=
  mkState (Some sid)
    (if String.eqb modalPrompt "" then None else Some modalPrompt) false true
    (ShapeSocket.mkState (Some (length pre)) ph log txt seg qr qv None true
       (Some ShapeSocket.segment)
       (pre ++ [ {| ShapeSocket.url := getWsUrl BACKEND uid sid;
                    ShapeSocket.readyState := ShapeSocket.OPEN |} ])
       (snt ++ [ (length pre, UploadAndSegment 1 16 true) ]))
    {| dep_phase := ph; dep_segmentResult := addr <$> seg;
       dep_activeSession := Some sid |}.

(** No effect fires at [s]: the conditions of the two effects are false. *)
Definition quiet (s : State) : Prop :=
  String.eqb (ShapeSocket.phase (socket s)) "segment_done"
    && bool_decide (is_Some (ShapeSocket.segmentResult (socket s)))
    && freshSegmentationRef s = false
  ∧ String.eqb (ShapeSocket.phase (socket s)) "connected"
    && nonempty (activeSession s)
    && needsSegmentationRef s = false.

(** *** phaseLabel *)

Definition phase_labels : gmap string string :=
  list_to_map
    [ ("connecting", "Connecting…");
      ("connected", "Connected");
      ("segmenting", "Segmenting mesh…");
      ("segmented", "Segments found");
      ("downsampling", "Downsampling…");
      ("downsampled", "Downsampled");
      ("embedding", "Computing embeddings…");
      ("embedded", "Embeddings ready");
      ("stored", "Saving results…");
      ("segment_done", "Segmentation complete");
      ("parsing_query", "Understanding question…");
      ("tool_call", "Running analysis…");
      ("query_done", "Done") ].

(** What [phaseLabel] returns: a text, or - the declared return type
    notwithstanding - a member of [Object.prototype]. *)
Inductive Label :=
| Text (t : string)
| Member (key : string).

(** [map[phase] || ""] *)
Definition phaseLabel (phase : string) : Label :=
  match Js.get phase_labels phase with
  | Js.Own t => Text t
  | Js.Inherited => Member phase
  | Js.Undefined => Text ""
  end.

(** *** Restoring a session

    [getSegments(uid, sid).catch(() => null)] *)
Definition loaded_segments (fetched : Promise (Response (option (Obj SegmentResult))))
    : option (Obj SegmentResult) :=
  match getSegments fetched with
  | Fulfilled r => r
  | Rejected _ => None
  end.

(** *** Counting what a run of the page did *)

Definition is_send (ev : Event) : bool :=
  match ev with SendMessage _ => true | _ => false end.

Definition is_segmentation (m : WsOutgoing) : bool :=
  match m with UploadAndSegment _ _ _ => true | Query _ => false end.

Definition is_query (m : WsOutgoing) : bool :=
  match m with Query _ => true | UploadAndSegment _ _ _ => false end.

Definition count_frames (f : WsOutgoing → bool) (l : list (nat * WsOutgoing)) : nat :=
  length (List.filter (fun m => f m.2) l).

Definition count_events (f : Event → bool) (evs : list Event) : nat :=
  length (List.filter f evs).

(** *** The connection and the session

    The hook's sockets are tidy, and the socket the hook holds was opened
    for the active session. *)
Definition follows_session (BACKEND uid : string) (s : State) : Prop :=
  ShapeSocket.tidy (socket s)
  ∧ ∀ ws, ShapeSocket.wsRef (socket s) = Some ws →
      ∃ sid, activeSession s = Some sid
        ∧ (ShapeSocket.url <$> ShapeSocket.sockets (socket s)) !! ws
          = Some (getWsUrl BACKEND uid sid).

End Dashboard.

(* ===================================================================== *)
(** ** src/lib/auth.tsx *)
(* ===================================================================== *)

Module Auth.
Import Api.

(** The provider's state cells, the browser's [localStorage] and the
    routes pushed to the router (oldest first). *)
Record State := mkState {
  uid : option string;
  email : option string;
  sessions : list string;
  loading : bool;
  localStorage : gmap string string;
  routes : list string
}.

(** The provider as first rendered, over the storage the browser holds. *)
Definition initial (storage : gmap string string) : State :=
  {| uid := None; email := None; sessions := []; loading := true;
     localStorage := storage; routes := [] |}.

Definition setUid (u : option string) (s : State) : State :=
  mkState u (email s) (sessions s) (loading s) (localStorage s) (routes s).

Definition setEmail (e : option string) (s : State) : State :=
  mkState (uid s) e (sessions s) (loading s) (localStorage s) (routes s).

Definition setSessionsWith (f : list string → list string) (s : State) : State :=
  mkState (uid s) (email s) (f (sessions s)) (loading s) (localStorage s) (routes s).

Definition setSessions (l : list string) : State → State := setSessionsWith (fun _ => l).

Definition setLoading (b : bool) (s : State) : State :=
  mkState (uid s) (email s) (sessions s) b (localStorage s) (routes s).

Definition removeItem (key : string) (s : State) : State :=
  mkState (uid s) (email s) (sessions s) (loading s) (delete key (localStorage s))
    (routes s).

Definition router_push (route : string) (s : State) : State :=
  mkState (uid s) (email s) (sessions s) (loading s) (localStorage s)
    (routes s ++ [route]).

Definition logout (s : State) : State :=
  s |> removeItem "uid" |> removeItem "email"
    |> setUid None |> setEmail None |> setSessions []
    |> router_push "/".

(** [prev.includes(sid) ? prev : [sid, ...prev]] *)
Definition addSession (sid : string) (s : State) : State :=
  s |> setSessionsWith (fun prev => if bool_decide (sid ∈ prev) then prev else sid :: prev).

(** [.then], [.catch] and [.finally] of the mount effect, for the
    credentials it read from the storage. *)
Definition getMe_catch (storedUid storedEmail message : string) (s : State) : State :=
  if String.eqb message "Invalid session" then
    s |> removeItem "uid" |> removeItem "email"
  else
    s |> setUid (Some storedUid) |> setEmail (Some storedEmail).

(** An exception thrown inside [.then] - by [normalizeSessionId], after
    the first two setters ran - reaches the same [.catch] as a rejected
    request. *)
Definition getMe_settled (storedUid storedEmail : string) (outcome : Promise Me)
    (s : State) : State :=
  let s :=
    match outcome with
    | Fulfilled data =>
        let s := s |> setUid (Some (Api.uid data))
                   |> setEmail (Some (Api.email data)) in
        match Js.map normalizeSessionId (default [] (Api.sessions data)) with
        | Js.Normal ids => s |> setSessions ids
        | Js.Throw message => s |> getMe_catch storedUid storedEmail message
        end
    | Rejected message => s |> getMe_catch storedUid storedEmail message
    end in
  s |> setLoading false.

(** The mount effect, given what the [fetch] of [getMe] settles with.
    While [loading] is set the page renders only a spinner, so nothing else
    touches the provider between the request and its outcome. *)
Definition mount_effect (fetched : Promise (Response Me)) (s : State) : State :=
  match localStorage s !! "uid", localStorage s !! "email" with
  | Some storedUid, Some storedEmail =>
      if String.eqb storedUid "" || String.eqb storedEmail ""
      then s |> setLoading false
      else s |> getMe_settled storedUid storedEmail (getMe fetched)
  | _, _ => s |> setLoading false
  end.

End Auth.

(* ===================================================================== *)
(** ** src/app/page.tsx, src/app/login/page.tsx and the guard of the dashboard *)
(* ===================================================================== *)

Module SignIn.
Import Api.

(** [uid && email] of the two stored items, as both pages test it. *)
Definition stored_credentials (storage : gmap string string) : bool :=
  Dashboard.nonempty (storage !! "uid") && Dashboard.nonempty (storage !! "email").

(** What a page's mount effect leaves: the status line (of the login
    page), the storage and the routes given to the router. *)
Record Page := {
  status : string;
  localStorage : gmap string string;
  routes : list string
}.

(** The effect of [Home]: a user with stored credentials goes straight to
    the dashboard. *)
Definition home_effect (storage : gmap string string) : Page :=
  {| status := ""; localStorage := storage;
     routes := if stored_credentials storage then ["/dashboard"] else [] |}.

(** The effect of [LoginPage], given what the [fetch] of [login] settles
    with; the address sent is made of two random UUIDs and is never read
    again. *)
Definition login_effect (fetched : Promise (Response Me)) (storage : gmap string string)
    : Page :=
  if stored_credentials storage then
    {| status := "Checking…"; localStorage := storage; routes := ["/dashboard"] |}
  else
    match login fetched with
    | Fulfilled data =>
        {| status := "Welcome to Shape";
           localStorage := <["email" := email data]> (<["uid" := uid data]> storage);
           routes := ["/dashboard"] |}
    | Rejected _ =>
        {| status := "Something went wrong. Please refresh.";
           localStorage := storage; routes := [] |}
    end.

(** [DashboardPage]: [if (loading) ...; if (!uid) router.replace("/login")]. *)
Definition dashboard_redirects (a : Auth.State) : bool :=
  negb (Auth.loading a) && negb (Dashboard.nonempty (Auth.uid a)).

End SignIn.

(* ===================================================================== *)
(** ** Concrete sessions, meshes and results *)
(* ===================================================================== *)

Module Examples.
Import Api.

(** A hook whose socket is open and acknowledged. *)
Definition connected_state : ShapeSocket.State :=
  ShapeSocket.initial
    |> ShapeSocket.connect "http://localhost:8000" "u1" "s1"
    |> ShapeSocket.deliver 0 ShapeSocket.EvOpen
    |> ShapeSocket.deliver 0 (ShapeSocket.EvMessage 1000 (Decoded Connected)).

(** The same hook after the user asked a question. *)
Definition querying_state : ShapeSocket.State :=
  connected_state |> ShapeSocket.sendQuery "how many arcs?".

(** The same hook after a segmentation was triggered. *)
Definition segmenting_state : ShapeSocket.State :=
  connected_state |> ShapeSocket.triggerSegmentation None.

(** Two segments that both list face 1; the second also lists a face the
    mesh does not have. *)
Definition straight_segment : Segment :=
  {| segment_id := 0; type := "straight"; face_ids := Some [0; 1]%Q;
     downsampled_nodes := []; downsampled_edges := [] |}.

Definition arc_segment : Segment :=
  {| segment_id := 1; type := "arc"; face_ids := Some [1; 2; 7]%Q;
     downsampled_nodes := []; downsampled_edges := [] |}.

Definition two_segments : SegmentResult :=
  {| segments := [straight_segment; arc_segment];
     summary := {| total_segments := 2;
                   counts_by_type := [("straight", 1%Z); ("arc", 1%Z)] |} |}.

Definition an_answer : QueryResult :=
  {| query := "how many arcs?"; answer := "One."; highlight_ids := [1%Z];
     mode := "text" |}.

(** The hook after the segmentation it triggered delivered its result. *)
Definition segment_done_state : ShapeSocket.State :=
  segmenting_state
    |> ShapeSocket.deliver 0
         (ShapeSocket.EvMessage 3000
            (Decoded (Result (mkObj 7 (SegData two_segments))))).

(** A mesh of three triangles over five vertices. *)
Definition fan_mesh : Obj SurfaceMesh :=
  mkObj 1
    {| vertices := [ [0; 0; 0]; [1; 0; 0]; [1; 1; 0]; [0; 1; 0]; [-1#1; 1; 0] ]%Q;
       faces := [ [0; 1; 2]; [0; 2; 3]; [0; 3; 4] ]%Z |}.

(** The viewer's props with the opacity slider at 40%, and the same
    objects with the slider moved to 45%. *)
Definition props_40 : MeshViewer.Props :=
  {| MeshViewer.segmentResult := Some (mkObj 2 two_segments);
     MeshViewer.highlightIds := mkObj 3 [];
     MeshViewer.opacity := (2 # 5)%Q |}.

Definition props_45 : MeshViewer.Props :=
  {| MeshViewer.segmentResult := Some (mkObj 2 two_segments);
     MeshViewer.highlightIds := mkObj 3 [];
     MeshViewer.opacity := (9 # 20)%Q |}.

(** The viewer with the scene of [fan_mesh] on display. *)
Definition displayed : MeshViewer.Viewer :=
  MeshViewer.mesh_loaded fan_mesh props_40 MeshViewer.initial.

(** A new session is created with a prompt in the modal, its socket opens
    and is acknowledged, one progress message and then the segmentation
    result arrive. *)
Definition fresh_session (modalPrompt : string) : list Dashboard.Event :=
  [ Dashboard.CreateInteraction "s1" modalPrompt;
    Dashboard.Ws 0 ShapeSocket.EvOpen;
    Dashboard.Ws 0 (ShapeSocket.EvMessage 1000 (Decoded Connected)) ]
  ++ (Dashboard.progress_on 0 <$>
        [ {| ShapeSocket.step := "segmented";
             ShapeSocket.detail := {[ "total_segments" := JNum "2" ]};
             ShapeSocket.explanation := None;
             ShapeSocket.timestamp := 2000 |} ])
  ++ [ Dashboard.Ws 0 (ShapeSocket.EvMessage 3000
         (Decoded (Result (mkObj 7 (SegData two_segments))))) ].

(** A session is created, and while its segmentation runs the user picks
    an older session from the history, whose socket opens and whose
    stored segments are then loaded. *)
Definition switch_while_segmenting : list Dashboard.Event :=
  [ Dashboard.CreateInteraction "s1" "";
    Dashboard.Ws 0 ShapeSocket.EvOpen;
    Dashboard.Ws 0 (ShapeSocket.EvMessage 1000 (Decoded Connected));
    Dashboard.SelectSession "s0";
    Dashboard.Ws 1 ShapeSocket.EvOpen;
    Dashboard.SegmentsLoaded (Some (mkObj 9 two_segments)) ].

(** The hook after the page moved from session [s1] to session [s2]: the
    first socket is closing, the second one is open. *)
Definition reconnected_state : ShapeSocket.State :=
  ShapeSocket.initial
    |> ShapeSocket.connect "http://localhost:8000" "u1" "s1"
    |> ShapeSocket.deliver 0 ShapeSocket.EvOpen
    |> ShapeSocket.connect "http://localhost:8000" "u1" "s2"
    |> ShapeSocket.deliver 1 ShapeSocket.EvOpen.


(** A result with centerlines: three nodes joined by two edges, and two
    nodes without an edge list. *)
Definition centerlines : SegmentResult :=
  {| segments :=
       [ {| segment_id := 0; type := "straight"; face_ids := None;
            downsampled_nodes := [ [0; 0; 0]; [1; 0; 0]; [2; 0; 0] ]%Q;
            downsampled_edges := [ [0; 1]; [1; 2] ]%Z |};
         {| segment_id := 1; type := "arc"; face_ids := None;
            downsampled_nodes := [ [2; 0; 0]; [2; 1; 0] ]%Q;
            downsampled_edges := [] |} ];
     summary := {| total_segments := 2;
                   counts_by_type := [("straight", 1%Z); ("arc", 1%Z)] |} |}.

Definition centerlines_overlay : MeshViewer.Centerline :=
  {| MeshViewer.clPoints := 5;
     MeshViewer.clLines := [2; 0; 1; 2; 1; 2; 2; 3; 4]%Z;
     MeshViewer.clColors :=
       [90; 178; 242; 90; 178; 242; 90; 178; 242; 242; 140; 90; 242; 140; 90]%Z;
     MeshViewer.offset := 5 |}.

(** The viewer of session [s1] after its mesh arrived. *)
Definition loaded_viewer : MeshViewer.Component :=
  MeshViewer.run
    [ MeshViewer.MeshFetched
        (Fulfilled {| status := 200; json := Fulfilled fan_mesh |}) ]
    (MeshViewer.mount "u1" "s1" props_40).

(** The props after a query highlighted the arc. *)
Definition props_highlight : MeshViewer.Props :=
  {| MeshViewer.segmentResult := Some (mkObj 2 two_segments);
     MeshViewer.highlightIds := mkObj 4 [1%Z];
     MeshViewer.opacity := (2 # 5)%Q |}.

Definition stored_credentials : gmap string string :=
  <["uid" := "u1"]> (<["email" := "user_1@shape.local"]> ∅).

End Examples.

(* ===================================================================== *)
(** * Properties of the session controller *)
(* ===================================================================== *)

Section SessionController.
Import Api ShapeSocket.

Implicit Types (s : State) (now : Z).

(** The cells a handler does not mention keep their value; these facts
    are all by computation and are used to read a field through a chain
    of setters. *)
Lemma onmessage_undecodable now s : onmessage now Undecodable s = s.
Proof. reflexivity. Qed.

Lemma onmessage_connected_phase now s :
  phase (onmessage now (Decoded Connected) s) =
    if String.eqb (phase s) "connecting" || String.eqb (phase s) "idle"
    then "connected" else phase s.
Proof. reflexivity. Qed.

Lemma onmessage_result_phase now data s :
  phase (onmessage now (Decoded (Result data)) s) = "query_done"
  ∨ phase (onmessage now (Decoded (Result data)) s) = "segment_done".
Proof.
  unfold onmessage.
  destruct (expectingRef s) as [[]|], (val data); cbn; auto.
Qed.

Ltac by_deciding := apply (bool_decide_unpack _); vm_compute; exact I.

(** An inbound event other than a [progress] message that names [idle]
    or [connecting] as its step does not bring the phase back to one of
    the two. *)
Lemma deliver_keeps_started_off ws (ev : WsEvent) s :
  restarts ev = false →
  phase s ∉ ["idle"; "connecting"] →
  phase (deliver ws ev s) ∉ ["idle"; "connecting"].
Proof.
  intros Hev Hoff. unfold deliver.
  destruct ev as [| now data | | code], (ready ws s) as [[]|]; try done;
    try (cbn; by_deciding).
  - destruct data as [| [| step detail explanation | r | message | type]];
      try done.
    + rewrite onmessage_connected_phase.
      destruct (String.eqb_spec (phase s) "connecting") as [H | _];
        [rewrite H in Hoff; exfalso; apply Hoff; by_deciding |].
      destruct (String.eqb_spec (phase s) "idle") as [H | _];
        [rewrite H in Hoff; exfalso; apply Hoff; by_deciding | done].
    + cbn in Hev. apply bool_decide_eq_false in Hev. exact Hev.
    + destruct (onmessage_result_phase now r s) as [-> | ->]; by_deciding.
    + cbn. by_deciding.
  - unfold onclose. destruct (code =? 4001)%Z; [cbn; by_deciding | done].
  - unfold onclose. destruct (code =? 4001)%Z; [cbn; by_deciding | done].
  - unfold onclose. destruct (code =? 4001)%Z; [cbn; by_deciding | done].
Qed.

Lemma receive_keeps_started_off (evs : list (nat * WsEvent)) s :
  forallb (fun e => negb (restarts e.2)) evs = true →
  phase s ∉ ["idle"; "connecting"] →
  phase (receive evs s) ∉ ["idle"; "connecting"].
Proof.
  revert s. induction evs as [| [ws ev] evs IH]; intros s Hevs Hoff; [done |].
  cbn in Hevs. apply andb_prop in Hevs as [Hev Hevs]. apply negb_true_iff in Hev.
  change (receive ((ws, ev) :: evs) s) with (receive evs (deliver ws ev s)).
  apply IH; [done |]. by apply deliver_keeps_started_off.
Qed.

(** C1 (phase monotonicity), as the code has it.  A [connected]
    acknowledgment moves the phase to [connected] exactly when the phase
    it finds is [connecting] or [idle]; any other phase, [segment_done]
    and [query_done] among them, it leaves as it is.  The handler looks
    at the current phase only.  So over a sequence of inbound events:
    once the phase is [segment_done] or [query_done], it is neither
    [idle] nor [connecting] after any events among which no [progress]
    message names one of these two as its step, and an acknowledgment
    arriving then - on any socket - leaves it unchanged. *)
Theorem connected_ack_phase_monotone now s :
  let s' := onmessage now (Decoded Connected) s in
  (phase s = "segment_done" ∨ phase s = "query_done" → phase s' = phase s)
  ∧ (phase s = "connecting" ∨ phase s = "idle" → phase s' = "connected")
  ∧ (phase s' ≠ phase s → phase s = "connecting" ∨ phase s = "idle")
  ∧ (∀ (evs : list (nat * WsEvent)) ws,
       phase s = "segment_done" ∨ phase s = "query_done" →
       forallb (fun e => negb (restarts e.2)) evs = true →
       let t := receive evs s in
       (phase t ∉ ["idle"; "connecting"])
       ∧ phase (deliver ws (EvMessage now (Decoded Connected)) t) = phase t).
Proof.
  cbn zeta. rewrite onmessage_connected_phase.
  split_and!.
  - intros [H | H]; rewrite H; reflexivity.
  - intros [H | H]; rewrite H; reflexivity.
  - intros Hne.
    destruct (String.eqb_spec (phase s) "connecting") as [H1 | H1]; [by left |].
    destruct (String.eqb_spec (phase s) "idle") as [H2 | H2]; [by right |].
    cbn in Hne. congruence.
  - intros evs ws Hdone Hevs.
    assert (phase (receive evs s) ∉ ["idle"; "connecting"]) as Hoff.
    { apply receive_keeps_started_off; [done |].
      destruct Hdone as [-> | ->]; by_deciding. }
    split; [done |]. unfold deliver.
    destruct (ready ws (receive evs s)) as [[]|]; try done.
    rewrite onmessage_connected_phase.
    destruct (String.eqb_spec (phase (receive evs s)) "connecting") as [H | _];
      [rewrite H in Hoff; exfalso; apply Hoff; by_deciding |].
    destruct (String.eqb_spec (phase (receive evs s)) "idle") as [H | _];
      [rewrite H in Hoff; exfalso; apply Hoff; by_deciding | done].
Qed.

(** C2 (result disambiguation).  A [result] whose payload has an [answer]
    field is stored as the query result and the phase becomes
    [query_done], whatever the expectation flag holds; a payload without
    [answer], received while the flag is ["segment"], is stored as the
    segment result and the phase becomes [segment_done].  In both cases,
    and in every other, the flag is null afterwards. *)
Theorem result_disambiguation now (data : Obj ResultData) s :
  let s' := onmessage now (Decoded (Result data)) s in
  (has_answer (val data) = true →
     phase s' = "query_done"
     ∧ queryResult s' = Some data
     ∧ queryResultVersion s' = (queryResultVersion s + 1)%Z
     ∧ segmentResult s' = segmentResult s)
  ∧ (has_answer (val data) = false → expectingRef s = Some segment →
     phase s' = "segment_done"
     ∧ (∃ r, val data = SegData r ∧ segmentResult s' = Some (mkObj (addr data) r))
     ∧ queryResult s' = queryResult s
     ∧ queryResultVersion s' = queryResultVersion s)
  ∧ expectingRef s' = None.
Proof.
  cbn zeta. unfold onmessage. split; [| split].
  - intros Ha.
    destruct (expectingRef s) as [[]|], (val data); cbn in *; try discriminate; auto.
  - intros Ha He. rewrite He.
    destruct (val data) as [r | q]; cbn in *; try discriminate.
    repeat split; eauto.
  - destruct (expectingRef s) as [[]|], (val data); reflexivity.
Qed.

(** C5, as the code has it.  A server-reported [error] message moves the
    phase to [error], stores its message and clears the progress text; a
    message that does not decode is logged and dropped: the handler
    returns with every cell of the state as it was. *)
Theorem protocol_errors now s :
  onmessage now Undecodable s = s
  ∧ ∀ message,
      let s' := onmessage now (Decoded (Error message)) s in
      phase s' = "error" ∧ error s' = Some message ∧ progressText s' = "".
Proof. split; [reflexivity | intros message; cbn; auto]. Qed.

(** What [close()] and the store do to the ready state of a socket. *)
Lemma ready_ws_close ws ws' s :
  ready ws' (ws_close ws s) =
    if decide (ws = ws') then readyState ∘ close_ws <$> sockets s !! ws'
    else ready ws' s.
Proof.
  unfold ready, ws_close. cbn.
  destruct (decide (ws = ws')) as [-> | Hne].
  - rewrite list_lookup_alter_eq. by destruct (sockets s !! ws').
  - by rewrite list_lookup_alter_ne.
Qed.

Lemma is_open_ready ws s : is_open ws s = bool_decide (ready ws s = Some OPEN).
Proof.
  unfold is_open, ready.
  destruct (sockets s !! ws) as [[u []]|]; reflexivity.
Qed.

Lemma close_ws_not_open w : readyState (close_ws w) ≠ OPEN.
Proof. destruct w as [u []]; cbn; congruence. Qed.

Lemma ws_close_not_open ws s : is_open ws (ws_close ws s) = false.
Proof.
  rewrite is_open_ready, ready_ws_close, decide_True by done.
  apply bool_decide_eq_false.
  destruct (sockets s !! ws) as [w|]; cbn; [| congruence].
  intros [= H]. by apply (close_ws_not_open w).
Qed.

Lemma expectingRef_disconnect s : expectingRef (disconnect s) = expectingRef s.
Proof. unfold disconnect. destruct (wsRef s); reflexivity. Qed.

Lemma expectingRef_connect BACKEND uid sid s :
  expectingRef (connect BACKEND uid sid s) = expectingRef s.
Proof. unfold connect. destruct (wsRef s); reflexivity. Qed.

Lemma is_open_connect BACKEND uid sid ws s :
  wsRef s = None → is_open ws s = false →
  is_open ws (connect BACKEND uid sid s) = false.
Proof.
  intros Hw Hopen. unfold connect. rewrite Hw. cbn.
  unfold is_open in *. cbn.
  destruct (decide (ws < length (sockets s))) as [Hlt | Hge].
  - by rewrite lookup_app_l.
  - rewrite lookup_app_r by lia.
    by destruct (ws - length (sockets s)) as [| [| n]].
Qed.

Lemma is_open_disconnect ws s :
  wsRef s = Some ws → is_open ws (disconnect s) = false.
Proof.
  intros Hw. unfold disconnect. rewrite Hw.
  change (is_open ws (ws_close ws s) = false). apply ws_close_not_open.
Qed.

Lemma wsRef_disconnect s : wsRef (disconnect s) = None.
Proof. unfold disconnect. destruct (wsRef s) eqn:E; cbn; congruence. Qed.

(** C7, as the code has it.  [disconnect] closes the socket the hook
    holds, drops the reference to it, marks the hook as not connected and
    sets the phase to [idle]; it does not touch the expectation flag,
    which keeps the value it had (it is cleared only on receipt of a
    [result]).  The same holds when the page switches the active session:
    the old socket is closed and the flag is carried over to the new
    connection. *)
Theorem disconnect_teardown s :
  let s' := disconnect s in
  wsRef s' = None
  ∧ phase s' = "idle"
  ∧ isConnected s' = false
  ∧ expectingRef s' = expectingRef s
  ∧ (∀ ws, wsRef s = Some ws →
       is_open ws s' = false
       ∧ (ready ws s = Some OPEN ∨ ready ws s = Some CONNECTING →
          ready ws s' = Some CLOSING))
  ∧ (∀ BACKEND uid sid (d : Dashboard.State),
       let d' := Dashboard.handleSelectSession BACKEND uid sid d in
       expectingRef (Dashboard.socket d') = expectingRef (Dashboard.socket d)
       ∧ ∀ ws, Some sid ≠ Dashboard.activeSession d →
           wsRef (Dashboard.socket d) = Some ws →
           is_open ws (Dashboard.socket d') = false).
Proof.
  cbn zeta. unfold disconnect.
  repeat match goal with |- _ ∧ _ => split end.
  - destruct (wsRef s) eqn:E; cbn; congruence.
  - destruct (wsRef s); reflexivity.
  - destruct (wsRef s); reflexivity.
  - destruct (wsRef s); reflexivity.
  - intros ws ->.
    change (is_open ws (ws_close ws s) = false
            ∧ (ready ws s = Some OPEN ∨ ready ws s = Some CONNECTING →
               ready ws (ws_close ws s) = Some CLOSING)).
    split; [apply ws_close_not_open |].
    rewrite ready_ws_close, decide_True by done.
    unfold ready. destruct (sockets s !! ws) as [[u r]|]; cbn.
    + intros [[= ->] | [= ->]]; reflexivity.
    + intros [[=] | [=]].
  - intros BACKEND uid sid d. unfold Dashboard.handleSelectSession. split.
    + case_bool_decide; [reflexivity |].
      destruct (String.eqb uid ""); cbn -[connect disconnect];
        rewrite ?expectingRef_connect; cbn -[disconnect];
        apply expectingRef_disconnect.
    + intros ws Hsid Hw. rewrite bool_decide_eq_false_2 by done.
      destruct (String.eqb uid ""); cbn -[connect disconnect].
      * change (is_open ws (disconnect (Dashboard.socket d)) = false).
        by apply is_open_disconnect.
      * apply is_open_connect.
        -- change (wsRef (disconnect (Dashboard.socket d)) = None).
           apply wsRef_disconnect.
        -- change (is_open ws (disconnect (Dashboard.socket d)) = false).
           by apply is_open_disconnect.
Qed.

(** C8, as the code has it.  A close with code 4001 stores the
    re-authentication message and moves the phase to [error]; a close
    with any other code only marks the hook as not connected and leaves
    the error cell and the phase as they were.  The generic connectivity
    message is stored, with phase [error], by the socket's [error] event. *)
Theorem close_handling (code : Z) s :
  (code = 4001%Z →
     error (onclose code s) = Some "Authentication failed. Please sign in again."
     ∧ phase (onclose code s) = "error"
     ∧ isConnected (onclose code s) = false)
  ∧ (code ≠ 4001%Z →
     error (onclose code s) = error s
     ∧ phase (onclose code s) = phase s
     ∧ isConnected (onclose code s) = false)
  ∧ (error (onerror s) = Some "WebSocket connection failed."
     ∧ phase (onerror s) = "error"
     ∧ isConnected (onerror s) = false).
Proof.
  unfold onclose. split; [| split].
  - intros ->. cbn. auto.
  - intros Hne. apply Z.eqb_neq in Hne. rewrite Hne. cbn. auto.
  - cbn. auto.
Qed.

(** C10 (progress events are not validated).  A [progress] message appends
    exactly one entry - its step, detail and explanation, stamped with the
    current time - to the progress log and stores its step string as the
    phase, whatever the string and whatever the phase was; a step outside
    the fifteen values of [PipelinePhase] becomes the phase like any
    other. *)
Theorem progress_unvalidated now s step detail explanation :
  let s' := onmessage now (Decoded (Progress step detail explanation)) s in
  progressLog s' =
    progressLog s ++ [ {| step := step; detail := detail;
                          explanation := explanation; timestamp := now |} ]
  ∧ length (progressLog s') = S (length (progressLog s))
  ∧ phase s' = step
  ∧ (∃ other, (other ∉ PipelinePhase_values)
       ∧ phase (onmessage now (Decoded (Progress other detail explanation)) s) = other).
Proof.
  cbn zeta. cbn. repeat split.
  - rewrite length_app. cbn. lia.
  - exists "banana". split; [| reflexivity].
    unfold PipelinePhase_values. intros H.
    repeat (apply elem_of_cons in H as [H | H]; [discriminate H |]).
    by apply elem_of_nil in H.
Qed.

End SessionController.

(* ===================================================================== *)
(** * Properties of the per-face colouring *)
(* ===================================================================== *)

Section FaceColouring.
Import Api MeshConstants MeshViewer.

Implicit Types (a : list Z) (c : Color) (i j F numFaces : nat) (q : Q)
  (seg : Segment) (hl : list Z).

Lemma length_set_rgb a i c : length (set_rgb a i c) = length a.
Proof. destruct c as [[r g] b]. unfold set_rgb, u8_set. by rewrite !length_insert. Qed.

Lemma get_set_rgb_ne a i j c : i ≠ j → get_rgb (set_rgb a i c) j = get_rgb a j.
Proof.
  intros Hne. destruct c as [[r g] b]. unfold get_rgb, set_rgb, u8_set.
  rewrite !list_lookup_insert_ne; [done | lia ..].
Qed.

Lemma get_set_rgb_eq a i c :
  i * 3 + 2 < length a → get_rgb (set_rgb a i c) i = Some (stored c).
Proof.
  intros Hlt. destruct c as [[r g] b]. unfold get_rgb, set_rgb, u8_set.
  rewrite (list_lookup_insert_ne _ (i * 3 + 2) (i * 3)) by lia.
  rewrite (list_lookup_insert_ne _ (i * 3 + 1) (i * 3)) by lia.
  rewrite (list_lookup_insert_eq a (i * 3)) by lia. cbn.
  rewrite (list_lookup_insert_ne _ (i * 3 + 2) (i * 3 + 1)) by lia.
  rewrite (list_lookup_insert_eq _ (i * 3 + 1)) by (rewrite length_insert; lia). cbn.
  rewrite (list_lookup_insert_eq _ (i * 3 + 2)) by (rewrite !length_insert; lia). done.
Qed.

(** The table, read at an arbitrary key. *)
Lemma SEGMENT_COLORS_lookup (t : string) :
  SEGMENT_COLORS !! t =
    if decide ("straight" = t) then Some (90, 178, 242)%Z
    else if decide ("arc" = t) then Some (242, 140, 90)%Z
    else if decide ("junction" = t) then Some (110, 210, 110)%Z
    else if decide ("corner" = t) then Some (230, 100, 140)%Z
    else None.
Proof.
  unfold SEGMENT_COLORS. cbn [list_to_map foldr uncurry fst snd].
  rewrite !lookup_insert. repeat case_decide; try done.
Qed.

(** The colour of a segment that is not highlighted. *)
Lemma segment_color_plain hl seg :
  segment_id seg ∉ hl →
  segment_color hl seg =
    if decide (type seg = "straight") then (90, 178, 242)%Z
    else if decide (type seg = "arc") then (242, 140, 90)%Z
    else if decide (type seg = "junction") then (110, 210, 110)%Z
    else if decide (type seg = "corner") then (230, 100, 140)%Z
    else if bool_decide (type seg ∈ Js.Object_prototype) then member_color
    else DEFAULT_MESH_COLOR.
Proof.
  intros Hnin. unfold segment_color, includes, Js.get.
  rewrite bool_decide_eq_false_2 by done.
  rewrite SEGMENT_COLORS_lookup.
  repeat case_decide; try reflexivity; congruence.
Qed.

Lemma stored_segment_color hl seg : stored (segment_color hl seg) = segment_color hl seg.
Proof.
  unfold segment_color, Js.get. destruct (includes hl (segment_id seg)); [reflexivity |].
  rewrite SEGMENT_COLORS_lookup. repeat case_decide; try reflexivity;
    by case_bool_decide.
Qed.

(** The buffer after the initial fill. *)
Lemma length_default_fill a l :
  length (foldl (fun a i => set_rgb a i DEFAULT_MESH_COLOR) a l) = length a.
Proof.
  revert a. induction l as [| i l IH]; intros a; cbn [foldl]; [done |].
  by rewrite IH, length_set_rgb.
Qed.

Lemma length_default_face_colors numFaces :
  length (default_face_colors numFaces) = numFaces * 3.
Proof. unfold default_face_colors. by rewrite length_default_fill, length_replicate. Qed.

Lemma get_default_fill a l F :
  F * 3 + 2 < length a →
  get_rgb (foldl (fun a i => set_rgb a i DEFAULT_MESH_COLOR) a l) F =
    if bool_decide (F ∈ l) then Some DEFAULT_MESH_COLOR else get_rgb a F.
Proof.
  revert a. induction l as [| i l IH]; intros a Hlt; cbn [foldl].
  - by rewrite bool_decide_eq_false_2 by apply not_elem_of_nil.
  - rewrite IH by (by rewrite length_set_rgb).
    destruct (decide (F ∈ l)) as [Hin | Hnin].
    + by rewrite !bool_decide_eq_true_2 by (by constructor || done).
    + rewrite (bool_decide_eq_false_2 _ Hnin).
      destruct (decide (i = F)) as [-> | Hne].
      * rewrite get_set_rgb_eq by done.
        by rewrite bool_decide_eq_true_2 by constructor.
      * rewrite get_set_rgb_ne by done.
        rewrite bool_decide_eq_false_2; [done |].
        intros [? | ?]%elem_of_cons; congruence.
Qed.

Lemma get_default_face_colors numFaces F :
  F < numFaces → get_rgb (default_face_colors numFaces) F = Some DEFAULT_MESH_COLOR.
Proof.
  intros Hlt. unfold default_face_colors.
  rewrite get_default_fill by (rewrite length_replicate; lia).
  rewrite bool_decide_eq_true_2; [done |].
  apply elem_of_seq. lia.
Qed.

(** Numbers that are integers. *)
Lemma array_index_integer (x : Q) (z : Z) :
  (x == inject_Z z)%Q →
  Js.array_index x = if (0 <=? z)%Z then Some (Z.to_nat z) else None.
Proof.
  unfold Qeq, inject_Z. cbn [Qnum Qden]. intros H.
  assert (Qnum x = (z * Z.pos (Qden x))%Z) as Hx by lia.
  unfold Js.array_index. rewrite Hx.
  rewrite Z.mod_mul, Z.div_mul by done. cbn [andb Z.eqb].
  destruct (Z.leb_spec 0 z), (Z.leb_spec 0 (z * Z.pos (Qden x))); try done; nia.
Qed.

Lemma lt_integer (x : Q) (z n : Z) :
  (x == inject_Z z)%Q → Js.lt x (inject_Z n) = (z <? n)%Z.
Proof.
  unfold Qeq, inject_Z, Js.lt. cbn [Qnum Qden]. intros H.
  destruct (Z.ltb_spec z n), (Z.ltb_spec (Qnum x * 1) (n * Z.pos (Qden x))); try done; nia.
Qed.

Lemma store_rgb_face a q F c : is_face F q → store_rgb a q c = set_rgb a F c.
Proof.
  unfold is_face. intros H. destruct c as [[r g] b]. unfold store_rgb, set_rgb, u8_store.
  assert (q * 3 == inject_Z (Z.of_nat (F * 3)))%Q as H0
    by (rewrite H; unfold Qeq; cbn; lia).
  assert (q * 3 + 1 == inject_Z (Z.of_nat (F * 3 + 1)))%Q as H1
    by (rewrite H; unfold Qeq; cbn; lia).
  assert (q * 3 + 2 == inject_Z (Z.of_nat (F * 3 + 2)))%Q as H2
    by (rewrite H; unfold Qeq; cbn; lia).
  rewrite (array_index_integer _ _ H0), (array_index_integer _ _ H1),
    (array_index_integer _ _ H2).
  rewrite !(proj2 (Z.leb_le 0 (Z.of_nat _))) by lia.
  by rewrite !Nat2Z.id.
Qed.

(** On a face index the loop body is the write of that face's three
    elements, guarded by the face count. *)
Lemma paint_face_face numFaces c a q F :
  is_face F q →
  paint_face numFaces c a q = if F <? numFaces then set_rgb a F c else a.
Proof.
  intros H. unfold paint_face.
  rewrite (lt_integer q (Z.of_nat F)) by exact H.
  rewrite (store_rgb_face a q F c H).
  destruct (Z.ltb_spec (Z.of_nat F) (Z.of_nat numFaces)), (Nat.ltb_spec F numFaces);
    try done; lia.
Qed.

(** One segment's face loop.  The buffer keeps its length whatever the
    numbers are. *)
Lemma length_u8_store a (i : Q) (v : Z) : length (u8_store a i v) = length a.
Proof.
  unfold u8_store. destruct (Js.array_index i); [| done].
  unfold u8_set. by rewrite length_insert.
Qed.

Lemma length_store_rgb a q c : length (store_rgb a q c) = length a.
Proof. destruct c as [[r g] b]. unfold store_rgb. by rewrite !length_u8_store. Qed.

Lemma length_paint_face numFaces c a q : length (paint_face numFaces c a q) = length a.
Proof. unfold paint_face. destruct (Js.lt _ _); [apply length_store_rgb | done]. Qed.

Lemma length_paint_faces numFaces c a (ids : list Q) :
  length (foldl (paint_face numFaces c) a ids) = length a.
Proof.
  revert a. induction ids as [| q ids IH]; intros a; cbn [foldl]; [done |].
  by rewrite IH, length_paint_face.
Qed.

Lemma get_paint_faces_unlisted numFaces c a (ids : list Q) F :
  length a = numFaces * 3 → F < numFaces →
  Forall (fun q => ∃ F', is_face F' q) ids →
  ¬ Exists (is_face F) ids →
  get_rgb (foldl (paint_face numFaces c) a ids) F = get_rgb a F.
Proof.
  intros Hlen HF Hall. revert a Hlen.
  induction Hall as [| q ids [F' HF'] _ IH]; intros a Hlen Hnone; cbn [foldl]; [done |].
  rewrite IH; [| by rewrite length_paint_face | by intros H; apply Hnone; right].
  rewrite (paint_face_face numFaces c a q F' HF').
  destruct (F' <? numFaces); [| done].
  apply get_set_rgb_ne. intros ->. apply Hnone. by left.
Qed.

Lemma get_paint_faces_listed numFaces c a (ids : list Q) F :
  length a = numFaces * 3 → F < numFaces →
  Forall (fun q => ∃ F', is_face F' q) ids →
  Exists (is_face F) ids →
  get_rgb (foldl (paint_face numFaces c) a ids) F = Some (stored c).
Proof.
  intros Hlen HF Hall. revert a Hlen.
  induction Hall as [| q ids [F' HF'] Hall IH]; intros a Hlen Hex; cbn [foldl].
  - by apply Exists_nil in Hex.
  - destruct (decide (Exists (is_face F) ids)) as [Hlater | Hnone].
    + apply IH; [by rewrite length_paint_face | done].
    + rewrite get_paint_faces_unlisted; [| by rewrite length_paint_face | done ..].
      apply Exists_cons in Hex as [Hq | Hex]; [| done].
      rewrite (paint_face_face numFaces c a q F Hq).
      rewrite (proj2 (Nat.ltb_lt F numFaces) HF).
      apply get_set_rgb_eq. lia.
Qed.

(** One segment. *)
Lemma length_paint_segment numFaces hl a seg :
  length (paint_segment numFaces hl a seg) = length a.
Proof.
  unfold paint_segment. destruct (face_ids seg) as [ids |]; [| done].
  destruct (0 <? length ids); [apply length_paint_faces | done].
Qed.

Lemma length_paint_segments numFaces hl a (segs : list Segment) :
  length (foldl (paint_segment numFaces hl) a segs) = length a.
Proof.
  revert a. induction segs as [| seg segs IH]; intros a; cbn [foldl]; [done |].
  by rewrite IH, length_paint_segment.
Qed.

Lemma lists_face_dec seg F : lists_face seg F ∨ ¬ lists_face seg F.
Proof.
  unfold lists_face. destruct (face_ids seg) as [ids |].
  - destruct (decide (Exists (is_face F) ids)) as [Hex | Hnone]; [left; eauto |].
    right. by intros (ids' & [= <-] & Hex).
  - right. by intros (ids' & [=] & _).
Qed.

Lemma get_paint_segment_covered numFaces hl a seg F :
  length a = numFaces * 3 → F < numFaces →
  face_indices seg → lists_face seg F →
  get_rgb (paint_segment numFaces hl a seg) F = Some (segment_color hl seg).
Proof.
  intros Hlen HF Hwf (ids & Hids & Hex). unfold paint_segment. rewrite Hids.
  destruct ids as [| q ids]; [by apply Exists_nil in Hex |].
  cbn [length Nat.ltb Nat.leb].
  rewrite get_paint_faces_listed; [| done | done | by apply Hwf | done].
  by rewrite stored_segment_color.
Qed.

Lemma get_paint_segment_uncovered numFaces hl a seg F :
  length a = numFaces * 3 → F < numFaces →
  face_indices seg → ¬ lists_face seg F →
  get_rgb (paint_segment numFaces hl a seg) F = get_rgb a F.
Proof.
  intros Hlen HF Hwf Hnot. unfold paint_segment.
  destruct (face_ids seg) as [ids |] eqn:Hids; [| done].
  destruct (0 <? length ids); [| done].
  apply get_paint_faces_unlisted; [done | done | by apply Hwf |].
  intros Hex. apply Hnot. by exists ids.
Qed.

Lemma get_paint_segments_uncovered numFaces hl a (segs : list Segment) F :
  length a = numFaces * 3 → F < numFaces →
  Forall (fun seg => face_indices seg ∧ ¬ lists_face seg F) segs →
  get_rgb (foldl (paint_segment numFaces hl) a segs) F = get_rgb a F.
Proof.
  intros Hlen HF Hall. revert a Hlen.
  induction Hall as [| seg segs [Hwf Hseg] _ IH]; intros a Hlen; cbn [foldl]; [done |].
  rewrite IH by (by rewrite length_paint_segment).
  by apply get_paint_segment_uncovered.
Qed.

(** Last write wins: the colour of a face is the colour of the last
    segment, in result order, that lists it - provided that segment and
    the ones after it list face indices only. *)
Lemma last_covering_segment_wins numFaces (r : SegmentResult) hl pre seg post F :
  segments r = pre ++ seg :: post →
  F < numFaces →
  face_indices seg → lists_face seg F →
  Forall (fun seg' => face_indices seg' ∧ ¬ lists_face seg' F) post →
  get_rgb (face_colors numFaces (Some r) hl) F = Some (segment_color hl seg).
Proof.
  intros Hsegs HF Hwf Hin Hpost. unfold face_colors. rewrite Hsegs.
  rewrite foldl_app. cbn [foldl].
  rewrite get_paint_segments_uncovered; [| | done | done].
  - apply get_paint_segment_covered; [| done | done | done].
    by rewrite length_paint_segments, length_default_face_colors.
  - by rewrite length_paint_segment, length_paint_segments,
      length_default_face_colors.
Qed.

(** C6 (face colour: last write wins; the colour of a segment).  The
    claim's default for unrecognised types fails for a type that names a
    member of [Object.prototype]: the table is an object literal, the
    lookup finds the inherited member, which is truthy, and its elements
    0, 1, 2 - [undefined] - are stored as 0.  So a segment of type
    ["constructor"] that is not highlighted paints its faces (0, 0, 0),
    not the default (200, 200, 210); the same holds for each of the
    twelve inherited keys.  For every other type the colour is the one
    the claim gives. *)
Theorem inherited_type_colour :
  let seg := {| segment_id := 5; type := "constructor"; face_ids := Some [0%Q];
                downsampled_nodes := []; downsampled_edges := [] |} in
  let r := {| segments := [seg];
              summary := {| total_segments := 1;
                            counts_by_type := [("constructor", 1%Z)] |} |} in
  SEGMENT_COLORS !! type seg = None
  ∧ segment_color [] seg = (0, 0, 0)%Z
  ∧ get_rgb (face_colors 3 (Some r) []) 0 = Some (0, 0, 0)%Z
  ∧ get_rgb (face_colors 3 None []) 0 = Some DEFAULT_MESH_COLOR
  ∧ DEFAULT_MESH_COLOR = (200, 200, 210)%Z
  ∧ (∀ hl seg', segment_id seg' ∉ hl → type seg' ∈ Js.Object_prototype →
       segment_color hl seg' = (0, 0, 0)%Z)
  ∧ (∀ hl seg', segment_id seg' ∈ hl → segment_color hl seg' = (255, 230, 80)%Z)
  ∧ (∀ hl seg', segment_id seg' ∉ hl → type seg' ∉ Js.Object_prototype →
       segment_color hl seg' =
         if decide (type seg' = "straight") then (90, 178, 242)%Z
         else if decide (type seg' = "arc") then (242, 140, 90)%Z
         else if decide (type seg' = "junction") then (110, 210, 110)%Z
         else if decide (type seg' = "corner") then (230, 100, 140)%Z
         else (200, 200, 210)%Z).
Proof.
  cbn zeta. split_and!; try reflexivity.
  - intros hl seg' Hnin Hkey. rewrite segment_color_plain by done.
    rewrite (bool_decide_eq_true_2 _ Hkey).
    repeat match goal with
           | |- context [decide (type seg' = ?k)] =>
               destruct (decide (type seg' = k)) as [Heq | _];
               [exfalso; rewrite Heq in Hkey; revert Hkey;
                apply (bool_decide_unpack _); vm_compute; exact I |]
           end.
    reflexivity.
  - intros hl seg' Hin. unfold segment_color, includes.
    by rewrite bool_decide_eq_true_2.
  - intros hl seg' Hnin Hkey. rewrite segment_color_plain by done.
    by rewrite (bool_decide_eq_false_2 _ Hkey).
Qed.




End FaceColouring.

(* ===================================================================== *)
(** * Properties of the dashboard's one-shot flags *)
(* ===================================================================== *)

Section AutoQuery.
Import Api Dashboard.

Implicit Types (s : State) (d : Deps).

Lemma deps_changed_refl d : deps1_changed d d = false ∧ deps4_changed d d = false.
Proof.
  unfold deps1_changed, deps4_changed.
  by rewrite String.eqb_refl, !bool_decide_eq_true_2.
Qed.

Lemma deps_unchanged_eq d d' :
  deps1_changed d d' || deps4_changed d d' = false → d = d'.
Proof.
  unfold deps1_changed, deps4_changed. intros H.
  apply orb_false_elim in H as [H1 H4].
  apply orb_false_elim in H1 as [Hp Hs], H4 as [_ Ha].
  apply negb_false_iff in Hp, Hs, Ha.
  apply String.eqb_eq in Hp. apply bool_decide_eq_true in Hs, Ha.
  destruct d, d'; cbn in *; congruence.
Qed.

Lemma set_rendered_id s : set_rendered (rendered s) s = s.
Proof. by destruct s. Qed.

Lemma is_Some_fmap_addr {A} (o : option (Obj A)) :
  bool_decide (is_Some (addr <$> o)) = bool_decide (is_Some o).
Proof. by destruct o. Qed.

Lemma commit_quiet s : quiet s → commit s = set_rendered (deps_of s) s.
Proof.
  intros [H1 H4]. unfold commit, segment_done_effect, connected_effect.
  cbn. rewrite is_Some_fmap_addr, H1.
  destruct (deps1_changed _ _); cbn; rewrite H4; by destruct (deps4_changed _ _).
Qed.

Lemma settle_S n s :
  settle (S n) s =
    if deps1_changed (rendered s) (deps_of s) || deps4_changed (rendered s) (deps_of s)
    then settle n (commit s) else s.
Proof. reflexivity. Qed.

Lemma settle_stable n s : rendered s = deps_of s → settle n s = s.
Proof.
  intros H. destruct n as [| n]; [done |]. rewrite settle_S, H.
  by destruct (deps_changed_refl (deps_of s)) as [-> ->].
Qed.

Lemma settle_quiet n s : quiet s → settle (S (S n)) s = set_rendered (deps_of s) s.
Proof.
  intros Hq. rewrite settle_S.
  destruct (deps1_changed (rendered s) (deps_of s)
            || deps4_changed (rendered s) (deps_of s)) eqn:Hch.
  - rewrite commit_quiet by done. by apply settle_stable.
  - apply deps_unchanged_eq in Hch. rewrite <- Hch. by rewrite set_rendered_id.
Qed.

Lemma phase_sendQuery q h :
  ShapeSocket.phase (ShapeSocket.sendQuery q h) = "parsing_query"
  ∨ ShapeSocket.sendQuery q h = h.
Proof.
  unfold ShapeSocket.sendQuery. destruct (ShapeSocket.wsRef h) as [ws |]; [| by right].
  destruct (ShapeSocket.is_open ws h); [by left | by right].
Qed.

Lemma phase_triggerSegmentation o h :
  ShapeSocket.phase (ShapeSocket.triggerSegmentation o h) = "segmenting"
  ∨ ShapeSocket.triggerSegmentation o h = h.
Proof.
  unfold ShapeSocket.triggerSegmentation.
  destruct (ShapeSocket.wsRef h) as [ws |]; [| by right].
  destruct (ShapeSocket.is_open ws h); [by left | by right].
Qed.

(** One commit leaves the page in a state where no effect fires, or one
    that has been rendered. *)
Lemma commit_quiet_or_rendered s :
  quiet (commit s) ∨ rendered (commit s) = deps_of (commit s).
Proof.
  unfold commit.
  set (d := deps_of s). set (s0 := set_rendered d s).
  unfold segment_done_effect.
  destruct (deps1_changed (rendered s) d
            && ((dep_phase d =? "segment_done")%string
                && bool_decide (is_Some (dep_segmentResult d))
                && freshSegmentationRef s0)) eqn:Hfire1.
  - (* the segment_done effect fires *)
    apply andb_prop in Hfire1 as [-> Hc]. rewrite Hc.
    apply andb_prop in Hc as [Hc _]. apply andb_prop in Hc as [Hph _].
    apply String.eqb_eq in Hph.
    match goal with |- context [connected_effect d ?x] => set (s1 := x) end.
    assert (connected_effect d s1 = s1) as ->
      by (unfold connected_effect; by rewrite Hph).
    assert ((if deps4_changed (rendered s) d then s1 else s1) = s1) as ->
      by (by destruct (deps4_changed _ _)).
    left. unfold quiet, s1. cbn -[ShapeSocket.sendQuery].
    split; [by rewrite andb_false_r |].
    destruct (phase_sendQuery (auto_prompt (pendingPromptRef s)) (socket s))
      as [-> | ->]; [done |].
    change (ShapeSocket.phase (socket s) = "segment_done") in Hph. by rewrite Hph.
  - (* it does not *)
    assert ((if deps1_changed (rendered s) d
             then if (dep_phase d =? "segment_done")%string
                      && bool_decide (is_Some (dep_segmentResult d))
                      && freshSegmentationRef s0
                  then hook (ShapeSocket.sendQuery (auto_prompt (pendingPromptRef
                          (set_freshSegmentationRef false s0))))
                         (set_pendingPromptRef None (set_freshSegmentationRef false s0))
                  else s0
             else s0) = s0) as ->.
    { destruct (deps1_changed _ _); [| done]. rewrite andb_true_l in Hfire1.
      by rewrite Hfire1. }
    unfold connected_effect.
    destruct (deps4_changed (rendered s) d
              && ((dep_phase d =? "connected")%string
                  && nonempty (dep_activeSession d)
                  && needsSegmentationRef s0)) eqn:Hfire4.
    + (* the connected effect fires *)
      apply andb_prop in Hfire4 as [-> Hc]. rewrite Hc.
      apply andb_prop in Hc as [Hc _]. apply andb_prop in Hc as [Hph _].
      apply String.eqb_eq in Hph.
      left. unfold quiet. cbn -[ShapeSocket.triggerSegmentation].
      split; [| by rewrite andb_false_r].
      destruct (phase_triggerSegmentation None (socket s)) as [-> | ->]; [done |].
      change (ShapeSocket.phase (socket s) = "connected") in Hph. by rewrite Hph.
    + right.
      destruct (deps4_changed _ _); [| done]. rewrite andb_true_l in Hfire4.
      by rewrite Hfire4.
Qed.

(** Four rounds are enough: after [settle 4] no dependency differs from
    the one rendered, from whatever state. *)
Lemma settle_quiescent s : rendered (settle 4 s) = deps_of (settle 4 s).
Proof.
  rewrite settle_S. destruct (_ || _) eqn:Hch.
  - destruct (commit_quiet_or_rendered s) as [Hq | Hr].
    + by rewrite settle_quiet.
    + by rewrite settle_stable.
  - by apply deps_unchanged_eq.
Qed.

Variables (BACKEND uid : string).
Hypothesis uid_set : uid ≠ "".

Abbreviation step := (step BACKEND uid).
Abbreviation run := (run BACKEND uid).

(** Every event leaves the page rendered: the rounds of [step] always
    suffice. *)
Lemma step_quiescent s ev : rendered (step s ev) = deps_of (step s ev).
Proof. apply settle_quiescent. Qed.

Lemma uid_nonempty : String.eqb uid "" = false.
Proof. by apply String.eqb_neq. Qed.

(** With both one-shot flags clear no effect fires. *)
Lemma flags_clear_quiet s :
  needsSegmentationRef s = false → freshSegmentationRef s = false → quiet s.
Proof. intros Hn Hf. unfold quiet. by rewrite Hn, Hf, !andb_false_r. Qed.

Lemma sent_deliver ws ev h :
  ShapeSocket.sent (ShapeSocket.deliver ws ev h) = ShapeSocket.sent h.
Proof.
  unfold ShapeSocket.deliver.
  destruct ev as [| now [| []] | |], (ShapeSocket.ready ws h) as [[]|]; try reflexivity.
  - unfold ShapeSocket.onmessage.
    destruct (ShapeSocket.expectingRef h) as [[]|], (val data); reflexivity.
  - unfold ShapeSocket.onclose. by destruct (code =? 4001)%Z.
  - unfold ShapeSocket.onclose. by destruct (code =? 4001)%Z.
  - unfold ShapeSocket.onclose. by destruct (code =? 4001)%Z.
Qed.

Lemma sent_disconnect h : ShapeSocket.sent (ShapeSocket.disconnect h) = ShapeSocket.sent h.
Proof. unfold ShapeSocket.disconnect. by destruct (ShapeSocket.wsRef h). Qed.

Lemma sent_connect B u sid h :
  ShapeSocket.sent (ShapeSocket.connect B u sid h) = ShapeSocket.sent h.
Proof. unfold ShapeSocket.connect. by destruct (ShapeSocket.wsRef h). Qed.

Lemma sent_sendQuery q h :
  ShapeSocket.sent (ShapeSocket.sendQuery q h) = ShapeSocket.sent h
  ∨ ∃ ws, ShapeSocket.sent (ShapeSocket.sendQuery q h) = ShapeSocket.sent h ++ [(ws, Query q)].
Proof.
  unfold ShapeSocket.sendQuery.
  destruct (ShapeSocket.wsRef h) as [ws |]; [| by left].
  destruct (ShapeSocket.is_open ws h); [right; by exists ws | by left].
Qed.

(** What a handler other than [handleCreateInteraction] does to the flags
    and to the frames sent. *)
Lemma handle_flags_clear ev s :
  is_create ev = false →
  needsSegmentationRef (handle BACKEND uid ev s) = needsSegmentationRef s
  ∧ freshSegmentationRef (handle BACKEND uid ev s) = freshSegmentationRef s
  ∧ (ShapeSocket.sent (socket (handle BACKEND uid ev s)) = ShapeSocket.sent (socket s)
     ∨ ∃ ws chatInput, ev = SendMessage chatInput
         ∧ ShapeSocket.sent (socket (handle BACKEND uid ev s)) =
             ShapeSocket.sent (socket s) ++ [(ws, Query (trim chatInput))]).
Proof.
  intros Hev. destruct ev as [sid mp | sid | segs | chatInput | ws ev]; [done | ..].
  - cbn [handle]. unfold handleSelectSession.
    case_bool_decide; [by auto |].
    destruct (String.eqb uid ""); cbn -[ShapeSocket.connect ShapeSocket.disconnect];
      rewrite ?sent_connect; cbn -[ShapeSocket.disconnect]; rewrite sent_disconnect; auto.
  - cbn [handle]. destruct segs; cbn; auto.
  - cbn [handle]. unfold handleSendMessage.
    destruct (_ || _); [by auto |].
    cbn -[ShapeSocket.sendQuery].
    destruct (sent_sendQuery (trim chatInput) (socket s)) as [-> | [ws ->]]; [by auto |].
    repeat split. right. by exists ws, chatInput.
  - cbn [handle]. cbn -[ShapeSocket.deliver]. rewrite sent_deliver. auto.
Qed.

Lemma step_flags_clear ev s :
  is_create ev = false →
  needsSegmentationRef s = false → freshSegmentationRef s = false →
  needsSegmentationRef (step s ev) = false
  ∧ freshSegmentationRef (step s ev) = false
  ∧ socket (step s ev) = socket (handle BACKEND uid ev s).
Proof.
  intros Hev Hn Hf.
  destruct (handle_flags_clear ev s Hev) as (Hn' & Hf' & _).
  unfold Dashboard.step. rewrite settle_quiet
    by (apply flags_clear_quiet; congruence).
  cbn. by rewrite Hn', Hf', Hn, Hf.
Qed.

Lemma no_automatic_send evs s :
  forallb (fun ev => negb (is_create ev)) evs = true →
  needsSegmentationRef s = false → freshSegmentationRef s = false →
  ∃ new,
    ShapeSocket.sent (socket (run evs s)) = ShapeSocket.sent (socket s) ++ new
    ∧ Forall (fun m => ∃ chatInput,
                SendMessage chatInput ∈ evs ∧ m.2 = Query (trim chatInput)) new.
Proof.
  revert s. induction evs as [| ev evs IH]; intros s Hevs Hn Hf.
  - exists []. by rewrite app_nil_r.
  - cbn in Hevs. apply andb_prop in Hevs as [Hev Hevs]. apply negb_true_iff in Hev.
    destruct (step_flags_clear ev s Hev Hn Hf) as (Hn' & Hf' & Hsock).
    destruct (IH (step s ev) Hevs Hn' Hf') as (new & Hnew & Hall).
    change (run (ev :: evs) s) with (run evs (step s ev)).
    rewrite Hnew, Hsock.
    destruct (handle_flags_clear ev s Hev) as (_ & _ & [-> | (ws & chatInput & -> & ->)]).
    + exists new. split; [done |].
      eapply Forall_impl; [exact Hall |]. intros m (c & Hc & Hm). exists c.
      split; [by constructor | done].
    + exists ((ws, Query (trim chatInput)) :: new). split; [by rewrite <- app_assoc |].
      constructor.
      * exists chatInput. split; [by constructor | done].
      * eapply Forall_impl; [exact Hall |]. intros m (c & Hc & Hm). exists c.
        split; [by constructor | done].
Qed.

(** *** A freshly created session *)

Variables (sid modalPrompt : string).
Hypothesis sid_set : sid ≠ "".

Lemma sid_nonempty : String.eqb sid "" = false.
Proof. by apply String.eqb_neq. Qed.

(** The newest socket of the store. *)
Lemma ready_newest h pre w :
  ShapeSocket.sockets h = pre ++ [w] →
  ShapeSocket.ready (length pre) h = Some (ShapeSocket.readyState w).
Proof.
  intros Hs. unfold ShapeSocket.ready. rewrite Hs.
  by rewrite lookup_app_r, Nat.sub_diag by lia.
Qed.

Lemma is_open_newest h pre u :
  ShapeSocket.sockets h
    = pre ++ [ {| ShapeSocket.url := u; ShapeSocket.readyState := ShapeSocket.OPEN |} ] →
  ShapeSocket.is_open (length pre) h = true.
Proof.
  intros Hs. rewrite is_open_ready, (ready_newest h pre _ Hs).
  by apply bool_decide_eq_true.
Qed.

Lemma alter_newest {A} (f : A → A) (pre : list A) (w : A) :
  alter f (length pre) (pre ++ [w]) = pre ++ [f w].
Proof. induction pre as [| x pre IH]; cbn; [done | by rewrite IH]. Qed.

Lemma deliver_open_newest h pre u :
  ShapeSocket.sockets h
    = pre ++ [ {| ShapeSocket.url := u;
                  ShapeSocket.readyState := ShapeSocket.CONNECTING |} ] →
  ShapeSocket.deliver (length pre) ShapeSocket.EvOpen h
  = h |> ShapeSocket.set_sockets
           (pre ++ [ {| ShapeSocket.url := u;
                        ShapeSocket.readyState := ShapeSocket.OPEN |} ])
      |> ShapeSocket.setIsConnected true.
Proof.
  intros Hs. unfold ShapeSocket.deliver. rewrite (ready_newest h pre _ Hs).
  cbn [ShapeSocket.readyState]. unfold ShapeSocket.set_readyState.
  by rewrite Hs, alter_newest.
Qed.

Lemma deliver_message_newest h pre u now data :
  ShapeSocket.sockets h
    = pre ++ [ {| ShapeSocket.url := u; ShapeSocket.readyState := ShapeSocket.OPEN |} ] →
  ShapeSocket.deliver (length pre) (ShapeSocket.EvMessage now data) h
  = ShapeSocket.onmessage now data h.
Proof.
  intros Hs. unfold ShapeSocket.deliver. by rewrite (ready_newest h pre _ Hs).
Qed.

Lemma triggerSegmentation_newest h pre u :
  ShapeSocket.wsRef h = Some (length pre) →
  ShapeSocket.sockets h
    = pre ++ [ {| ShapeSocket.url := u; ShapeSocket.readyState := ShapeSocket.OPEN |} ] →
  ShapeSocket.triggerSegmentation None h
  = h |> ShapeSocket.set_expectingRef (Some ShapeSocket.segment)
      |> ShapeSocket.setProgressLog []
      |> ShapeSocket.setProgressText "Starting segmentation..."
      |> ShapeSocket.setPhase "segmenting"
      |> ShapeSocket.ws_send (length pre) (UploadAndSegment 1 16 true).
Proof.
  intros Hw Hs. unfold ShapeSocket.triggerSegmentation.
  by rewrite Hw, (is_open_newest h pre u Hs).
Qed.

Lemma sendQuery_newest q h pre u :
  ShapeSocket.wsRef h = Some (length pre) →
  ShapeSocket.sockets h
    = pre ++ [ {| ShapeSocket.url := u; ShapeSocket.readyState := ShapeSocket.OPEN |} ] →
  ShapeSocket.sendQuery q h
  = h |> ShapeSocket.set_expectingRef (Some ShapeSocket.query)
      |> ShapeSocket.setProgressText "Understanding your question..."
      |> ShapeSocket.setPhase "parsing_query"
      |> ShapeSocket.ws_send (length pre) (Query q).
Proof.
  intros Hw Hs. unfold ShapeSocket.sendQuery.
  by rewrite Hw, (is_open_newest h pre u Hs).
Qed.

Abbreviation page := (segmenting_page BACKEND uid sid modalPrompt).

Lemma fresh_session_connected s0 now :
  ∃ pre,
    length pre = length (ShapeSocket.sockets (socket s0))
    ∧ run [ CreateInteraction sid modalPrompt;
            Ws (length pre) ShapeSocket.EvOpen;
            Ws (length pre) (ShapeSocket.EvMessage now (Decoded Connected)) ] s0
      = page pre
          (ShapeSocket.segmentResult (socket s0))
          (ShapeSocket.queryResult (socket s0))
          (ShapeSocket.queryResultVersion (socket s0))
          (ShapeSocket.sent (socket s0))
          "segmenting" [] "Starting segmentation...".
Proof.
  destruct s0 as [act0 pend0 needs0 fresh0
                    [ws0 ph0 log0 txt0 seg0 qr0 qv0 err0 conn0 exp0 socks0 snt0] rend0].
  set (pre := match ws0 with
              | Some w => alter ShapeSocket.close_ws w socks0
              | None => socks0
              end).
  exists pre. split; [unfold pre; destruct ws0; by rewrite ?length_alter |].
  set (U := getWsUrl BACKEND uid sid).
  set (P := if String.eqb modalPrompt "" then None else Some modalPrompt).
  unfold Dashboard.run. cbn [foldl].
  (* the session is created and the socket constructed *)
  set (created := mkState (Some sid) P true fresh0
    (ShapeSocket.mkState (Some (length pre)) "connecting" [] "" seg0 qr0 qv0 None
       conn0 exp0
       (pre ++ [ {| ShapeSocket.url := U;
                    ShapeSocket.readyState := ShapeSocket.CONNECTING |} ]) snt0)
    {| dep_phase := "connecting"; dep_segmentResult := addr <$> seg0;
       dep_activeSession := Some sid |}).
  assert (step _ (CreateInteraction sid modalPrompt) = created) as ->.
  { unfold Dashboard.step. cbn [handle]. unfold handleCreateInteraction.
    rewrite uid_nonempty, settle_quiet by (split; by destruct ws0).
    unfold created, pre. by destruct ws0. }
  (* the socket opens *)
  set (opened := mkState (Some sid) P true fresh0
    (ShapeSocket.mkState (Some (length pre)) "connecting" [] "" seg0 qr0 qv0 None
       true exp0
       (pre ++ [ {| ShapeSocket.url := U;
                    ShapeSocket.readyState := ShapeSocket.OPEN |} ]) snt0)
    {| dep_phase := "connecting"; dep_segmentResult := addr <$> seg0;
       dep_activeSession := Some sid |}).
  assert (step created (Ws (length pre) ShapeSocket.EvOpen) = opened) as ->.
  { unfold Dashboard.step. cbn [handle]. unfold hook.
    rewrite (deliver_open_newest (socket created) pre U eq_refl).
    by rewrite settle_quiet by (split; reflexivity). }
  (* the acknowledgment arrives and the connected effect fires *)
  set (acked := mkState (Some sid) P true fresh0
    (ShapeSocket.mkState (Some (length pre)) "connected" [] "" seg0 qr0 qv0 None
       true exp0
       (pre ++ [ {| ShapeSocket.url := U;
                    ShapeSocket.readyState := ShapeSocket.OPEN |} ]) snt0)
    {| dep_phase := "connecting"; dep_segmentResult := addr <$> seg0;
       dep_activeSession := Some sid |}).
  unfold Dashboard.step.
  assert (handle BACKEND uid
            (Ws (length pre) (ShapeSocket.EvMessage now (Decoded Connected))) opened
          = acked) as ->.
  { cbn [handle]. unfold hook.
    by rewrite (deliver_message_newest (socket opened) pre U _ _ eq_refl). }
  rewrite settle_S.
  replace (deps1_changed (rendered acked) (deps_of acked)
           || deps4_changed (rendered acked) (deps_of acked)) with true
    by reflexivity.
  assert (commit acked
          = page pre seg0 qr0 qv0 snt0 "segmenting" []
              "Starting segmentation..."
            |> set_rendered {| dep_phase := "connected";
                               dep_segmentResult := addr <$> seg0;
                               dep_activeSession := Some sid |}) as ->.
  { unfold commit, segment_done_effect, connected_effect.
    cbn -[ShapeSocket.triggerSegmentation]. rewrite sid_nonempty.
    cbn -[ShapeSocket.triggerSegmentation]. unfold hook.
    by erewrite (triggerSegmentation_newest _ pre U) by reflexivity. }
  by rewrite settle_quiet by (split; reflexivity).
Qed.

Lemma fresh_session_progress pre seg qr qv snt ph log txt
    (p : ShapeSocket.ProgressEntry) :
  (seg = None ∨ ShapeSocket.step p ≠ "segment_done") →
  step (page pre seg qr qv snt ph log txt) (progress_on (length pre) p)
  = page pre seg qr qv snt (ShapeSocket.step p) (log ++ [p])
      (ShapeSocket.progress_text (ShapeSocket.step p) (ShapeSocket.detail p)
         (ShapeSocket.explanation p)).
Proof.
  intros Hp. unfold Dashboard.step, progress_on. cbn [handle].
  unfold hook.
  rewrite (deliver_message_newest
             (socket (page pre seg qr qv snt ph log txt)) pre _ _ _ eq_refl).
  rewrite settle_quiet.
  - by destruct p.
  - unfold quiet. cbn. split; [| by rewrite !andb_false_r].
    destruct Hp as [-> | Hne]; [by rewrite !andb_false_r |].
    by apply String.eqb_neq in Hne as ->.
Qed.

Lemma fresh_session_progresses pre seg qr qv snt ps : ∀ ph log txt,
  (seg = None ∨ ph ≠ "segment_done") →
  (seg = None ∨ Forall (fun p => ShapeSocket.step p ≠ "segment_done") ps) →
  ∃ ph' log' txt',
    run (progress_on (length pre) <$> ps) (page pre seg qr qv snt ph log txt)
    = page pre seg qr qv snt ph' log' txt'
    ∧ (seg = None ∨ ph' ≠ "segment_done").
Proof.
  induction ps as [| p ps IH]; intros ph log txt Hph Hps; [by eauto 6 |].
  assert (seg = None ∨ ShapeSocket.step p ≠ "segment_done") as Hp.
  { destruct Hps as [-> | Hps]; [by left | right].
    by apply Forall_cons in Hps as [? _]. }
  unfold Dashboard.run. rewrite fmap_cons. cbn [foldl].
  rewrite fresh_session_progress by done.
  apply IH; [done |].
  destruct Hps as [-> | Hps]; [by left | right].
  by apply Forall_cons in Hps as [_ ?].
Qed.

(** [auto_prompt] of what [handleCreateInteraction] stored. *)
Lemma auto_prompt_pending :
  auto_prompt (if String.eqb modalPrompt "" then None else Some modalPrompt) =
    if String.eqb (trim modalPrompt) "" then "describe this geometry"
    else trim modalPrompt.
Proof. destruct (String.eqb_spec modalPrompt "") as [-> | _]; reflexivity. Qed.

Lemma fresh_session_result pre seg qr qv snt ph log txt now a (r : SegmentResult) :
  (seg = None ∨ ph ≠ "segment_done") →
  let s' := step (page pre seg qr qv snt ph log txt)
              (Ws (length pre)
                 (ShapeSocket.EvMessage now (Decoded (Result (mkObj a (SegData r)))))) in
  ShapeSocket.sent (socket s')
    = snt ++ [ (length pre, UploadAndSegment 1 16 true);
               (length pre,
                Query (auto_prompt
                         (if String.eqb modalPrompt "" then None
                          else Some modalPrompt))) ]
  ∧ ShapeSocket.phase (socket s') = "parsing_query"
  ∧ ShapeSocket.segmentResult (socket s') = Some (mkObj a r)
  ∧ needsSegmentationRef s' = false
  ∧ freshSegmentationRef s' = false.
Proof.
  intros Hph. cbn zeta. unfold Dashboard.step.
  set (U := getWsUrl BACKEND uid sid).
  set (P := if String.eqb modalPrompt "" then None else Some modalPrompt).
  (* the result is stored and the phase becomes segment_done *)
  set (h := mkState (Some sid) P false true
    (ShapeSocket.mkState (Some (length pre)) "segment_done" log ""
       (Some (mkObj a r)) qr qv None true None
       (pre ++ [ {| ShapeSocket.url := U;
                    ShapeSocket.readyState := ShapeSocket.OPEN |} ])
       (snt ++ [ (length pre, UploadAndSegment 1 16 true) ]))
    {| dep_phase := ph; dep_segmentResult := addr <$> seg;
       dep_activeSession := Some sid |}).
  assert (handle BACKEND uid
            (Ws (length pre)
               (ShapeSocket.EvMessage now (Decoded (Result (mkObj a (SegData r))))))
            (page pre seg qr qv snt ph log txt) = h) as ->.
  { cbn [handle]. unfold hook.
    by rewrite (deliver_message_newest
                  (socket (page pre seg qr qv snt ph log txt))
                  pre _ _ _ eq_refl). }
  (* the segment_done effect fires and sends the query *)
  set (s1 := mkState (Some sid) None false false
    (ShapeSocket.mkState (Some (length pre)) "parsing_query" log
       "Understanding your question..."
       (Some (mkObj a r)) qr qv None true (Some ShapeSocket.query)
       (pre ++ [ {| ShapeSocket.url := U;
                    ShapeSocket.readyState := ShapeSocket.OPEN |} ])
       ((snt ++ [ (length pre, UploadAndSegment 1 16 true) ])
          ++ [ (length pre, Query (auto_prompt P)) ]))
    {| dep_phase := "segment_done"; dep_segmentResult := Some a;
       dep_activeSession := Some sid |}).
  assert (deps1_changed (rendered h) (deps_of h) = true) as H1.
  { unfold deps1_changed. cbn. destruct Hph as [-> | Hne].
    - apply orb_true_r.
    - by apply String.eqb_neq in Hne as ->. }
  assert (commit h = s1) as Hcommit.
  { unfold commit. rewrite H1. unfold segment_done_effect, connected_effect.
    cbn -[ShapeSocket.sendQuery]. unfold hook.
    erewrite (sendQuery_newest _ _ pre U) by reflexivity.
    by destruct (deps4_changed _ _). }
  rewrite settle_S, H1, Hcommit. cbn [orb].
  rewrite settle_quiet by (split; reflexivity). cbn.
  by rewrite <- app_assoc.
Qed.

Lemma segmenting_not_done : "segmenting" ≠ "segment_done".
Proof. discriminate. Qed.

Lemma run_app evs evs' s : run (evs ++ evs') s = run evs' (run evs s).
Proof. apply foldl_app. Qed.

(** Once both flags are clear, events of the sockets send nothing. *)
Lemma socket_events_send_nothing evs s :
  Forall (fun ev => ∃ ws e, ev = Ws ws e) evs →
  needsSegmentationRef s = false → freshSegmentationRef s = false →
  ShapeSocket.sent (socket (run evs s)) = ShapeSocket.sent (socket s)
  ∧ needsSegmentationRef (run evs s) = false
  ∧ freshSegmentationRef (run evs s) = false.
Proof.
  intros Hevs. revert s. induction Hevs as [| ev evs (ws & e & ->) _ IH]; intros s Hn Hf.
  - done.
  - destruct (step_flags_clear (Ws ws e) s eq_refl Hn Hf) as (Hn' & Hf' & Hsock).
    change (run (Ws ws e :: evs) s) with (run evs (step s (Ws ws e))).
    destruct (IH _ Hn' Hf') as (-> & -> & ->). rewrite Hsock.
    destruct (handle_flags_clear (Ws ws e) s eq_refl) as (_ & _ & [-> | (? & ? & [=] & _)]).
    done.
Qed.

(** A progress message named [segment_done] while the page still holds an
    earlier segment result: the segment_done effect fires on it. *)
Lemma fresh_session_early pre seg qr qv snt ph log txt (p : ShapeSocket.ProgressEntry) :
  seg ≠ None → ph ≠ "segment_done" → ShapeSocket.step p = "segment_done" →
  let s' := step (page pre seg qr qv snt ph log txt) (progress_on (length pre) p) in
  ShapeSocket.sent (socket s')
    = snt ++ [ (length pre, UploadAndSegment 1 16 true);
               (length pre,
                Query (auto_prompt
                         (if String.eqb modalPrompt "" then None
                          else Some modalPrompt))) ]
  ∧ needsSegmentationRef s' = false
  ∧ freshSegmentationRef s' = false.
Proof.
  intros Hseg Hph Hp. cbn zeta. unfold Dashboard.step, progress_on.
  destruct seg as [seg |]; [clear Hseg | done].
  set (U := getWsUrl BACKEND uid sid).
  set (P := if String.eqb modalPrompt "" then None else Some modalPrompt).
  set (txt' := ShapeSocket.progress_text (ShapeSocket.step p) (ShapeSocket.detail p)
                 (ShapeSocket.explanation p)).
  set (h := mkState (Some sid) P false true
    (ShapeSocket.mkState (Some (length pre)) "segment_done" (log ++ [p]) txt'
       (Some seg) qr qv None true (Some ShapeSocket.segment)
       (pre ++ [ {| ShapeSocket.url := U;
                    ShapeSocket.readyState := ShapeSocket.OPEN |} ])
       (snt ++ [ (length pre, UploadAndSegment 1 16 true) ]))
    {| dep_phase := ph; dep_segmentResult := Some (addr seg);
       dep_activeSession := Some sid |}).
  assert (handle BACKEND uid
            (Ws (length pre)
               (ShapeSocket.EvMessage (ShapeSocket.timestamp p)
                  (Decoded (Progress (ShapeSocket.step p) (ShapeSocket.detail p)
                              (ShapeSocket.explanation p)))))
            (page pre (Some seg) qr qv snt ph log txt) = h) as ->.
  { cbn [handle]. unfold hook.
    rewrite (deliver_message_newest
               (socket (page pre (Some seg) qr qv snt ph log txt)) pre _ _ _ eq_refl).
    unfold h, txt'. rewrite <- Hp. by destruct p. }
  set (s1 := mkState (Some sid) None false false
    (ShapeSocket.mkState (Some (length pre)) "parsing_query" (log ++ [p])
       "Understanding your question..."
       (Some seg) qr qv None true (Some ShapeSocket.query)
       (pre ++ [ {| ShapeSocket.url := U;
                    ShapeSocket.readyState := ShapeSocket.OPEN |} ])
       ((snt ++ [ (length pre, UploadAndSegment 1 16 true) ])
          ++ [ (length pre, Query (auto_prompt P)) ]))
    {| dep_phase := "segment_done"; dep_segmentResult := Some (addr seg);
       dep_activeSession := Some sid |}).
  assert (deps1_changed (rendered h) (deps_of h) = true) as H1.
  { unfold deps1_changed. cbn. by apply String.eqb_neq in Hph as ->. }
  assert (commit h = s1) as Hcommit.
  { unfold commit. rewrite H1. unfold segment_done_effect, connected_effect.
    cbn -[ShapeSocket.sendQuery]. unfold hook.
    erewrite (sendQuery_newest _ _ pre U) by reflexivity.
    by destruct (deps4_changed _ _). }
  rewrite settle_S, H1, Hcommit. cbn [orb].
  rewrite settle_quiet by (split; reflexivity). cbn.
  by rewrite <- app_assoc.
Qed.

(** Whatever the progress messages are, the page is afterwards still
    waiting for the result, or the query has gone out and both flags are
    clear. *)
Lemma fresh_session_any_progress pre seg qr qv snt ps : ∀ ph log txt,
  (seg = None ∨ ph ≠ "segment_done") →
  let s' := run (progress_on (length pre) <$> ps) (page pre seg qr qv snt ph log txt) in
  (∃ ph' log' txt',
     s' = page pre seg qr qv snt ph' log' txt'
     ∧ (seg = None ∨ ph' ≠ "segment_done"))
  ∨ (ShapeSocket.sent (socket s')
       = snt ++ [ (length pre, UploadAndSegment 1 16 true);
                  (length pre,
                   Query (auto_prompt
                            (if String.eqb modalPrompt "" then None
                             else Some modalPrompt))) ]
     ∧ needsSegmentationRef s' = false
     ∧ freshSegmentationRef s' = false).
Proof.
  induction ps as [| p ps IH]; intros ph log txt Hph; cbn zeta.
  - left. by eauto 6.
  - rewrite fmap_cons.
    change (run (?ev :: ?evs) ?s) with (run evs (step s ev)).
    destruct (String.eqb_spec (ShapeSocket.step p) "segment_done") as [Hstep | Hstep];
      [destruct (decide (seg = None)) as [Hseg | Hseg] |].
    + rewrite fresh_session_progress by (by left). apply IH. by left.
    + destruct Hph as [? | Hph]; [done |].
      destruct (fresh_session_early pre seg qr qv snt ph log txt p Hseg Hph Hstep)
        as (Hsent & Hn & Hf).
      right.
      destruct (socket_events_send_nothing (progress_on (length pre) <$> ps)
                  (step (page pre seg qr qv snt ph log txt)
                     (progress_on (length pre) p))) as (-> & -> & ->);
        [| done | done | done].
      apply Forall_fmap, Forall_true. intros q. unfold progress_on. cbn. eauto.
    + rewrite fresh_session_progress by (by right). apply IH. by right.
Qed.

(** C3 (auto-query once), as the code has it.  A freshly created session:
    on a page in any state, the session is created with the prompt typed
    in the modal, its socket opens and is acknowledged, any progress
    messages arrive, and then the segmentation result.  The frames sent in
    the course of this are the segmentation command followed by exactly
    one query, whose text is the prompt with leading and trailing white
    space trimmed when that is non-empty, and ["describe this geometry"]
    otherwise; both one-shot flags are clear afterwards.  The query goes
    out on the result: up to the last progress message only the
    segmentation command has been sent (provided the page holds no earlier
    segment result, or no progress message is named [segment_done]).  A
    restored session, and any other course of events that creates no
    session and starts with both one-shot flags clear: every frame sent is
    a query the user typed in the chat box, so no query is sent
    automatically. *)
Theorem auto_query_once s0 now now' (ps : list ShapeSocket.ProgressEntry) a
    (r : SegmentResult) :
  let ws := length (ShapeSocket.sockets (socket s0)) in
  let upto_progress :=
    [ CreateInteraction sid modalPrompt;
      Ws ws ShapeSocket.EvOpen;
      Ws ws (ShapeSocket.EvMessage now (Decoded Connected)) ]
    ++ (progress_on ws <$> ps) in
  let fresh :=
    run (upto_progress
         ++ [ Ws ws (ShapeSocket.EvMessage now'
                       (Decoded (Result (mkObj a (SegData r))))) ]) s0 in
  ShapeSocket.sent (socket fresh) =
    ShapeSocket.sent (socket s0)
    ++ [ (ws, UploadAndSegment 1 16 true);
         (ws, Query (if String.eqb (trim modalPrompt) ""
                     then "describe this geometry" else trim modalPrompt)) ]
  ∧ needsSegmentationRef fresh = false
  ∧ freshSegmentationRef fresh = false
  ∧ (ShapeSocket.segmentResult (socket s0) = None
     ∨ Forall (fun p => ShapeSocket.step p ≠ "segment_done") ps →
     ShapeSocket.sent (socket (run upto_progress s0)) =
       ShapeSocket.sent (socket s0) ++ [ (ws, UploadAndSegment 1 16 true) ])
  ∧ ∀ s evs,
      needsSegmentationRef s = false → freshSegmentationRef s = false →
      forallb (fun ev => negb (is_create ev)) evs = true →
      ∃ new,
        ShapeSocket.sent (socket (run evs s)) = ShapeSocket.sent (socket s) ++ new
        ∧ Forall (fun m => ∃ chatInput,
                    SendMessage chatInput ∈ evs ∧ m.2 = Query (trim chatInput)) new.
Proof.
  cbn zeta.
  destruct (fresh_session_connected s0 now) as (pre & <- & Hconn).
  rewrite !run_app, Hconn.
  set (seg := ShapeSocket.segmentResult (socket s0)).
  set (qr := ShapeSocket.queryResult (socket s0)).
  set (qv := ShapeSocket.queryResultVersion (socket s0)).
  set (snt := ShapeSocket.sent (socket s0)).
  assert (∀ s evs,
    needsSegmentationRef s = false → freshSegmentationRef s = false →
    forallb (fun ev => negb (is_create ev)) evs = true →
    ∃ new,
      ShapeSocket.sent (socket (run evs s)) = ShapeSocket.sent (socket s) ++ new
      ∧ Forall (fun m => ∃ chatInput,
                  SendMessage chatInput ∈ evs ∧ m.2 = Query (trim chatInput)) new)
    as Hrestored by (intros; by apply no_automatic_send).
  assert (seg = None
          ∨ Forall (fun p => ShapeSocket.step p ≠ "segment_done") ps →
          ShapeSocket.sent
            (socket (run (progress_on (length pre) <$> ps)
                       (page pre seg qr qv snt "segmenting" []
                          "Starting segmentation...")))
          = snt ++ [ (length pre, UploadAndSegment 1 16 true) ]) as Htiming.
  { intros Hps.
    by destruct (fresh_session_progresses pre seg qr qv snt ps
                   "segmenting" [] "Starting segmentation..."
                   (or_intror segmenting_not_done) Hps)
      as (ph & log & txt & -> & _). }
  rewrite <- auto_prompt_pending.
  destruct (fresh_session_any_progress pre seg qr qv snt ps
              "segmenting" [] "Starting segmentation..."
              (or_intror segmenting_not_done))
    as [(ph & log & txt & -> & Hph) | (Hsent & Hn & Hf)].
  - change (run [?ev] ?s) with (step s ev).
    destruct (fresh_session_result pre seg qr qv snt ph log txt now' a r Hph)
      as (Hsent & _ & _ & Hn & Hf).
    rewrite Hsent.
    split_and!; [done | exact Hn | exact Hf | by intros _ | exact Hrestored].
  - destruct (socket_events_send_nothing
                [ Ws (length pre)
                    (ShapeSocket.EvMessage now'
                       (Decoded (Result (mkObj a (SegData r))))) ]
                (run (progress_on (length pre) <$> ps)
                   (page pre seg qr qv snt "segmenting" []
                      "Starting segmentation...")))
      as (-> & -> & ->); [| done | done |].
    + repeat constructor. eauto.
    + rewrite Hsent.
      split_and!; [done | done | done | | exact Hrestored].
      intros Hps. rewrite <- Hsent. exact (Htiming Hps).
Qed.

End AutoQuery.

(* ===================================================================== *)
(** * The scene on an opacity change *)
(* ===================================================================== *)

Section SceneRebuild.
Import Api MeshViewer.

(** Props with the same objects and the same opacity run no effect. *)
Lemma rerender_same_deps (p p' : Props) (v : Viewer) :
  same_ref (segmentResult p) (segmentResult p') = true →
  addr (highlightIds p) = addr (highlightIds p') →
  Qeq_bool (opacity p) (opacity p') = true →
  rerender p p' v = v.
Proof.
  intros Hseg Hhl Hop.
  unfold rerender, commit, opacity_deps_changed, render_deps_changed.
  rewrite Hseg, Hhl, Nat.eqb_refl, Hop.
  assert (same_ref (surfaceMesh v) (surfaceMesh v) = true) as ->
    by (destruct (surfaceMesh v); [apply Nat.eqb_refl | done]).
  reflexivity.
Qed.

(** With a scene on display, a change of the [opacity] prop alone - same
    mesh, same segment result, same highlight array - runs the render
    effect's cleanup and then the render effect: the scene on display is
    deleted and a new one is built.  The opacity effect runs in between
    and finds the actor ref already cleared. *)
Lemma opacity_change_rebuilds (p p' : Props) (v : Viewer) mesh ctx :
  containerRef v = true →
  surfaceMesh v = Some mesh →
  vertices (val mesh) ≠ [] → faces (val mesh) ≠ [] →
  cleanup v = true →
  vtkContextRef v = Some ctx →
  same_ref (segmentResult p) (segmentResult p') = true →
  addr (highlightIds p) = addr (highlightIds p') →
  Qeq_bool (opacity p) (opacity p') = false →
  let v' := rerender p p' v in
  scenes v' = alter delete ctx (scenes v) ++ [build_scene (val mesh) p']
  ∧ vtkContextRef v' = Some (length (scenes v))
  ∧ surfaceActorRef v' = Some (length (scenes v)).
Proof.
  intros Hc Hm Hv Hf Hcl Hctx Hseg Hhl Hop. cbn zeta.
  unfold rerender, opacity_deps_changed, render_deps_changed.
  rewrite Hseg, Hhl, Nat.eqb_refl, Hop, !orb_true_r.
  unfold commit. rewrite Hcl. cbn [andb negb].
  unfold render_cleanup. cbn. rewrite Hctx. cbn.
  unfold render_effect. cbn. rewrite Hm, Hc.
  destruct (vertices (val mesh)) as [| x xs]; [done |].
  destruct (faces (val mesh)) as [| y ys]; [done |].
  cbn. rewrite length_alter.
  destruct (rotatingRef v); cbn; auto.
Qed.

(** C4, at a concrete input.  The viewer displays a three-triangle mesh
    coloured by a two-segment result, with the slider at 40%; the slider
    is moved to 45% and nothing else changes.  The scene that was on
    display is deleted, its surface actor still at 40%: the new opacity
    was never applied to it.  A second scene is constructed, with its own
    geometry and colour buffers, and the refs now point to it. *)
Theorem opacity_change_rebuilds_scene :
  let v := Examples.displayed in
  let v' := rerender Examples.props_40 Examples.props_45 v in
  length (scenes v) = 1
  ∧ surfaceActorRef v = Some 0
  ∧ length (scenes v') = 2
  ∧ surfaceActorRef v' = Some 1
  ∧ (deleted <$> scenes v' !! 0) = Some true
  ∧ (surfaceOpacity <$> scenes v' !! 0) = Some (2 # 5)%Q
  ∧ scenes v' !! 1 =
      Some (build_scene (val Examples.fan_mesh) Examples.props_45).
Proof. vm_compute. repeat split. Qed.

End SceneRebuild.

(* ===================================================================== *)
(** * The connection of the hook over its life *)
(* ===================================================================== *)

Section Connections.
Import Api ShapeSocket.

Implicit Types (s : State) (ws : nat) (w : WebSocket).

Lemma live_close_ws w : live (close_ws w) = false.
Proof. by destruct w as [u []]. Qed.

Lemma tidy_ws_close_drop ws s :
  tidy s → wsRef s = Some ws →
  ∀ i w, sockets (ws_close ws s) !! i = Some w → live w = false.
Proof.
  intros [Hone _] Hw i w. unfold ws_close. cbn.
  destruct (decide (ws = i)) as [<- | Hne].
  - rewrite list_lookup_alter_eq. destruct (sockets s !! ws) as [w0 |]; [| done].
    intros [= <-]. apply live_close_ws.
  - rewrite list_lookup_alter_ne by done. intros Hi.
    destruct (live w) eqn:Hl; [| done].
    specialize (Hone i w Hi Hl). congruence.
Qed.

Lemma tidy_none_dead s :
  tidy s → wsRef s = None → ∀ i w, sockets s !! i = Some w → live w = false.
Proof.
  intros [Hone _] Hw i w Hi. destruct (live w) eqn:Hl; [| done].
  specialize (Hone i w Hi Hl). congruence.
Qed.

Lemma tidy_disconnect s : tidy s → tidy (disconnect s).
Proof.
  intros Ht. unfold disconnect. destruct (wsRef s) as [ws |] eqn:Hw.
  - split; [| intros ? [=]]. intros i w Hi Hl. cbn in Hi.
    by rewrite (tidy_ws_close_drop ws s Ht Hw i w Hi) in Hl.
  - split; [| cbn; rewrite Hw; intros ? [=]]. intros i w Hi Hl. cbn in Hi.
    by rewrite (tidy_none_dead s Ht Hw i w Hi) in Hl.
Qed.

Lemma tidy_unmount s : tidy s → tidy (unmount s).
Proof.
  intros Ht. unfold unmount. destruct (wsRef s) as [ws |] eqn:Hw; [| done].
  split; [| intros ? [=]]. intros i w Hi Hl. cbn in Hi.
  by rewrite (tidy_ws_close_drop ws s Ht Hw i w Hi) in Hl.
Qed.

Lemma tidy_connect BACKEND uid sid s : tidy s → tidy (connect BACKEND uid sid s).
Proof.
  intros Ht. unfold connect.
  assert (∀ i w, sockets (match wsRef s with Some ws => ws_close ws s | None => s end) !! i
                 = Some w → live w = false) as Hdead.
  { destruct (wsRef s) as [ws |] eqn:Hw.
    - by apply tidy_ws_close_drop.
    - by apply tidy_none_dead. }
  set (s1 := match wsRef s with Some ws => ws_close ws s | None => s end) in *.
  cbn. split.
  - intros i w Hi Hl. cbn in Hi.
    destruct (decide (i < length (sockets s1))) as [Hlt | Hge].
    + rewrite lookup_app_l in Hi by done. by rewrite (Hdead i w Hi) in Hl.
    + apply lookup_lt_Some in Hi. rewrite length_app in Hi. cbn in Hi.
      cbn. f_equal. lia.
  - intros ws [= <-]. cbn. rewrite length_app. cbn. lia.
Qed.

Lemma tidy_ext s s' :
  wsRef s' = wsRef s → sockets s' = sockets s → tidy s → tidy s'.
Proof. unfold tidy. intros -> ->. done. Qed.

Lemma tidy_triggerSegmentation opts s : tidy s → tidy (triggerSegmentation opts s).
Proof.
  unfold triggerSegmentation. destruct (wsRef s) as [ws |] eqn:Hw; [| done].
  destruct (is_open ws s); [| done]. by apply tidy_ext.
Qed.

Lemma tidy_sendQuery q s : tidy s → tidy (sendQuery q s).
Proof.
  unfold sendQuery. destruct (wsRef s) as [ws |] eqn:Hw; [| done].
  destruct (is_open ws s); [| done]. by apply tidy_ext.
Qed.

Lemma wsRef_onmessage now data s : wsRef (onmessage now data s) = wsRef s.
Proof.
  destruct data as [| []]; try reflexivity.
  unfold onmessage. destruct (expectingRef s) as [[]|], (val data); reflexivity.
Qed.

Lemma sockets_onmessage now data s : sockets (onmessage now data s) = sockets s.
Proof.
  destruct data as [| []]; try reflexivity.
  unfold onmessage. destruct (expectingRef s) as [[]|], (val data); reflexivity.
Qed.

Lemma wsRef_onclose code s : wsRef (onclose code s) = wsRef s.
Proof. unfold onclose. by destruct (code =? 4001)%Z. Qed.

Lemma sockets_onclose code s : sockets (onclose code s) = sockets s.
Proof. unfold onclose. by destruct (code =? 4001)%Z. Qed.

Lemma tidy_set_readyState ws r r0 s :
  tidy s → ready ws s = Some r0 →
  (live {| url := ""; readyState := r |} = true →
   live {| url := ""; readyState := r0 |} = true) →
  tidy (set_readyState ws r s).
Proof.
  intros [Hone Hin] Hr Hlive. split.
  - intros i w Hi Hl. cbn in Hi. change (wsRef s = Some i).
    destruct (decide (ws = i)) as [<- | Hne].
    + rewrite list_lookup_alter_eq in Hi. unfold ready in Hr.
      destruct (sockets s !! ws) as [w0 |] eqn:Hw0; [| done].
      cbn in Hi, Hr. injection Hi as <-. injection Hr as <-.
      apply (Hone ws w0 Hw0). destruct w0 as [u r0]. apply Hlive, Hl.
    + rewrite list_lookup_alter_ne in Hi by done. by apply (Hone i w).
  - intros i Hi. cbn. rewrite length_alter. by apply Hin.
Qed.

Lemma tidy_deliver ws ev s : tidy s → tidy (deliver ws ev s).
Proof.
  intros Ht. unfold deliver.
  destruct ev as [| now data | | code], (ready ws s) as [[]|] eqn:Hr; try done.
  - apply (tidy_ext (set_readyState ws OPEN s)); [done | done |].
    by apply (tidy_set_readyState ws OPEN CONNECTING).
  - eapply tidy_ext; [apply wsRef_onmessage | apply sockets_onmessage | done].
  - eapply tidy_ext; [apply wsRef_onclose | apply sockets_onclose |].
    by apply (tidy_set_readyState ws CLOSED CONNECTING).
  - eapply tidy_ext; [apply wsRef_onclose | apply sockets_onclose |].
    by apply (tidy_set_readyState ws CLOSED OPEN).
  - eapply tidy_ext; [apply wsRef_onclose | apply sockets_onclose |].
    by apply (tidy_set_readyState ws CLOSED CLOSING).
Qed.

Lemma tidy_perform BACKEND op s : tidy s → tidy (perform BACKEND s op).
Proof.
  intros Ht. destruct op; cbn [perform].
  - by apply tidy_connect.
  - by apply tidy_disconnect.
  - by apply tidy_triggerSegmentation.
  - by apply tidy_sendQuery.
  - by apply (tidy_ext s).
  - by apply (tidy_ext s).
  - by apply tidy_deliver.
Qed.

Lemma tidy_initial : tidy initial.
Proof. split; [intros ws w [=] | intros ws [=]]. Qed.

Lemma tidy_run BACKEND ops s : tidy s → tidy (run BACKEND ops s).
Proof.
  revert s. induction ops as [| op ops IH]; intros s Ht; [done |].
  apply IH. by apply tidy_perform.
Qed.

(** X1 (one live connection).  Whatever the component and the browser do
    to a mounted hook - any sequence of [connect], [disconnect], commands,
    setter calls and socket events - a socket that is connecting or open
    is the one [wsRef] holds, which is a socket of the store: a [connect]
    closes the socket it replaces.  After [disconnect], and after the
    cleanup that runs on unmount, no socket is connecting or open. *)
Theorem single_live_connection BACKEND (ops : list Op) :
  let s := run BACKEND ops initial in
  (∀ ws w, sockets s !! ws = Some w → live w = true → wsRef s = Some ws)
  ∧ (∀ ws, wsRef s = Some ws → is_Some (sockets s !! ws))
  ∧ (∀ w, w ∈ sockets (disconnect s) → live w = false)
  ∧ (∀ w, w ∈ sockets (unmount s) → live w = false).
Proof.
  cbn zeta. pose proof (tidy_run BACKEND ops initial tidy_initial) as Ht.
  split; [apply Ht |]. split.
  { intros ws Hw. apply lookup_lt_is_Some. by apply Ht. }
  split.
  - intros w [i Hi]%list_elem_of_lookup.
    pose proof (tidy_disconnect _ Ht) as Hd.
    apply (tidy_none_dead _ Hd (wsRef_disconnect _) i w Hi).
  - intros w [i Hi]%list_elem_of_lookup.
    pose proof (tidy_unmount _ Ht) as Hd.
    apply (tidy_none_dead _ Hd) with i; [| done].
    unfold unmount. destruct (wsRef (run BACKEND ops initial)) eqn:E; cbn; congruence.
Qed.


(** X2 (idempotent teardown).  A second [disconnect] changes nothing, and
    neither does the unmount cleanup after a [disconnect]; [disconnect]
    leaves the error cell, both results, the progress log and the frames
    sent as they were, and without a socket it does not touch the store. *)
Theorem disconnect_idempotent s :
  disconnect (disconnect s) = disconnect s
  ∧ unmount (disconnect s) = disconnect s
  ∧ error (disconnect s) = error s
  ∧ segmentResult (disconnect s) = segmentResult s
  ∧ queryResult (disconnect s) = queryResult s
  ∧ progressLog (disconnect s) = progressLog s
  ∧ sent (disconnect s) = sent s
  ∧ (wsRef s = None → sockets (disconnect s) = sockets s).
Proof.
  unfold disconnect, unmount.
  destruct (wsRef s) as [ws |] eqn:Hw; cbn; rewrite ?Hw; repeat split; done.
Qed.

(** What the two commands do, by the state of the socket. *)
Lemma commands_not_open s :
  (∀ ws, wsRef s = Some ws → is_open ws s = false) →
  (∀ opts, triggerSegmentation opts s = s) ∧ (∀ q, sendQuery q s = s).
Proof.
  intros Hclosed. unfold triggerSegmentation, sendQuery.
  destruct (wsRef s) as [ws |]; [| done].
  by rewrite (Hclosed ws eq_refl).
Qed.

Lemma triggerSegmentation_open ws opts s :
  wsRef s = Some ws → is_open ws s = true →
  triggerSegmentation opts s
  = s |> set_expectingRef (Some segment)
      |> setProgressLog []
      |> setProgressText "Starting segmentation..."
      |> setPhase "segmenting"
      |> ws_send ws (UploadAndSegment
                       (default 1%Q (opts ≫= target_step))
                       (default 16%Z (opts ≫= downsample_nodes))
                       (default true (opts ≫= embed))).
Proof. intros Hw Hopen. unfold triggerSegmentation. by rewrite Hw, Hopen. Qed.

Lemma sendQuery_open ws q s :
  wsRef s = Some ws → is_open ws s = true →
  sendQuery q s
  = s |> set_expectingRef (Some query)
      |> setProgressText "Understanding your question..."
      |> setPhase "parsing_query"
      |> ws_send ws (Query q).
Proof. intros Hw Hopen. unfold sendQuery. by rewrite Hw, Hopen. Qed.

(** X3 (commands need an open socket).  When the hook holds no socket, or
    one that is not open, [triggerSegmentation] and [sendQuery] return the
    state unchanged: nothing is sent and no cell is written.  On an open
    socket each sends exactly one frame on that socket - the segmentation
    command with 1, 16 and true for the options not given - sets the
    expectation flag and the phase, and only [triggerSegmentation] clears
    the progress log. *)
Theorem commands_need_open_socket s :
  ((∀ ws, wsRef s = Some ws → is_open ws s = false) →
   (∀ opts, triggerSegmentation opts s = s) ∧ (∀ q, sendQuery q s = s))
  ∧ (∀ ws, wsRef s = Some ws → is_open ws s = true →
     (∀ opts,
        let s' := triggerSegmentation opts s in
        sent s' = sent s ++ [ (ws, UploadAndSegment
                                     (default 1%Q (opts ≫= target_step))
                                     (default 16%Z (opts ≫= downsample_nodes))
                                     (default true (opts ≫= embed))) ]
        ∧ expectingRef s' = Some segment
        ∧ phase s' = "segmenting"
        ∧ progressLog s' = []
        ∧ sockets s' = sockets s)
     ∧ (∀ q,
        let s' := sendQuery q s in
        sent s' = sent s ++ [ (ws, Query q) ]
        ∧ expectingRef s' = Some query
        ∧ phase s' = "parsing_query"
        ∧ progressLog s' = progressLog s
        ∧ sockets s' = sockets s)).
Proof.
  split; [apply commands_not_open |].
  intros ws Hw Hopen. split.
  - intros opts. cbn zeta. by rewrite (triggerSegmentation_open ws opts s Hw Hopen).
  - intros q. cbn zeta. by rewrite (sendQuery_open ws q s Hw Hopen).
Qed.

Lemma queryResult_onmessage now data s :
  (queryResultVersion (onmessage now data s) = queryResultVersion s
   ∧ queryResult (onmessage now data s) = queryResult s)
  ∨ (queryResultVersion (onmessage now data s) = (queryResultVersion s + 1)%Z
     ∧ ∃ r, data = Decoded (Result r) ∧ queryResult (onmessage now data s) = Some r).
Proof.
  destruct data as [| [| | r | |]]; try (by left).
  unfold onmessage.
  destruct (expectingRef s) as [[]|], (val r); cbn; eauto.
Qed.

Lemma queryResult_perform BACKEND op s :
  (queryResultVersion (perform BACKEND s op) = queryResultVersion s
   ∧ queryResult (perform BACKEND s op) = queryResult s)
  ∨ (queryResultVersion (perform BACKEND s op) = (queryResultVersion s + 1)%Z
     ∧ ∃ ws now r, op = Browser ws (EvMessage now (Decoded (Result r)))
         ∧ queryResult (perform BACKEND s op) = Some r).
Proof.
  destruct op as [uid sid | | opts | q | p | r | ws ev]; cbn [perform].
  - left. unfold connect. by destruct (wsRef s).
  - left. unfold disconnect. by destruct (wsRef s).
  - left. unfold triggerSegmentation. destruct (wsRef s) as [ws |]; [| done].
    by destruct (is_open ws s).
  - left. unfold sendQuery. destruct (wsRef s) as [ws |]; [| done].
    by destruct (is_open ws s).
  - by left.
  - by left.
  - unfold deliver.
    destruct ev as [| now data | | code], (ready ws s) as [[]|]; try (by left).
    + destruct (queryResult_onmessage now data s) as [H | (Hv & r & -> & Hr)];
        [by left | right]. split; [done |]. by exists ws, now, r.
    + left. unfold onclose. by destruct (code =? 4001)%Z.
    + left. unfold onclose. by destruct (code =? 4001)%Z.
    + left. unfold onclose. by destruct (code =? 4001)%Z.
Qed.

Lemma queryResultVersion_run BACKEND (ops : list Op) s :
  (queryResultVersion s ≤ queryResultVersion (run BACKEND ops s))%Z.
Proof.
  revert s. induction ops as [| op ops IH]; intros s; [cbn; lia |].
  change (run BACKEND (op :: ops) s) with (run BACKEND ops (perform BACKEND s op)).
  specialize (IH (perform BACKEND s op)).
  destruct (queryResult_perform BACKEND op s) as [[Hv _] | [Hv _]]; lia.
Qed.

(** X4 (the query result is versioned).  Over any sequence of operations
    [queryResultVersion] never decreases, and if it is the same at the end
    as at the start then so is [queryResult]; a single operation that
    changes [queryResult] raises the version by exactly one and sets the
    phase to [query_done].  An effect keyed on the version therefore sees
    every new query result. *)
Theorem query_result_versioned BACKEND (ops : list Op) s :
  let s' := run BACKEND ops s in
  (queryResultVersion s ≤ queryResultVersion s')%Z
  ∧ (queryResultVersion s' = queryResultVersion s → queryResult s' = queryResult s)
  ∧ (∀ op,
       queryResult (perform BACKEND s op) ≠ queryResult s →
       queryResultVersion (perform BACKEND s op) = (queryResultVersion s + 1)%Z
       ∧ phase (perform BACKEND s op) = "query_done").
Proof.
  cbn zeta. split; [apply queryResultVersion_run | split].
  - revert s. induction ops as [| op ops IH]; intros s; [done |].
    change (run BACKEND (op :: ops) s) with (run BACKEND ops (perform BACKEND s op)).
    intros Hsame.
    pose proof (queryResultVersion_run BACKEND ops (perform BACKEND s op)) as Hle.
    destruct (queryResult_perform BACKEND op s) as [[Hv Hq] | [Hv _]]; [| lia].
    rewrite <- Hq. apply IH. congruence.
  - intros op Hne.
    destruct (queryResult_perform BACKEND op s) as [[_ Hq] | (Hv & ws & now & r & -> & Hr)];
      [done |].
    split; [done |]. cbn [perform] in *. unfold deliver in *.
    destruct (ready ws s) as [[]|]; try done.
    unfold onmessage in *.
    destruct (expectingRef s) as [[]|], (val r); cbn in *; try done; lia.
Qed.




(** X6 (failed connection).  When a connecting or open socket fires
    [error] and then [close], the hook ends in phase [error] and not
    connected, the socket is closed, nothing was sent, and the error shown
    is the generic connection message unless the close code is 4001, whose
    message replaces it. *)
Theorem failure_then_close ws (code : Z) s :
  ready ws s = Some CONNECTING ∨ ready ws s = Some OPEN →
  let s' := s |> deliver ws EvError |> deliver ws (EvClose code) in
  phase s' = "error"
  ∧ isConnected s' = false
  ∧ ready ws s' = Some CLOSED
  ∧ error s' = Some (if (code =? 4001)%Z
                     then "Authentication failed. Please sign in again."
                     else "WebSocket connection failed.")
  ∧ sent s' = sent s.
Proof.
  intros Hr. cbn zeta.
  assert (deliver ws EvError s = onerror s) as ->
    by (unfold deliver; destruct Hr as [-> | ->]; done).
  assert (ready ws (onerror s) = ready ws s) as Hr' by done.
  assert (deliver ws (EvClose code) (onerror s)
          = onerror s |> set_readyState ws CLOSED |> onclose code) as ->
    by (unfold deliver; rewrite Hr'; destruct Hr as [-> | ->]; done).
  unfold onclose. destruct (code =? 4001)%Z; cbn; unfold ready; cbn;
    rewrite list_lookup_alter_eq; unfold ready in Hr;
    destruct (sockets s !! ws) as [w |]; cbn in *; repeat split; try done;
    destruct Hr; done.
Qed.

(** X7 (events of a replaced socket).  The handlers do not check which
    socket fired.  When the socket the hook replaced finishes closing
    while the current socket is already open, its [close] event marks the
    hook as not connected although the current socket stays open and
    stays the hook's socket; with code 4001 it also moves the phase to
    [error], with any other code phase and error keep their values. *)
Theorem replaced_socket_close_reaches_hook ws old (code : Z) s :
  wsRef s = Some ws → old ≠ ws →
  is_open ws s = true → ready old s = Some CLOSING →
  let s' := deliver old (EvClose code) s in
  isConnected s' = false
  ∧ is_open ws s' = true
  ∧ wsRef s' = Some ws
  ∧ (code = 4001%Z →
       phase s' = "error"
       ∧ error s' = Some "Authentication failed. Please sign in again.")
  ∧ (code ≠ 4001%Z → phase s' = phase s ∧ error s' = error s).
Proof.
  intros Hw Hne Hopen Hold. cbn zeta. unfold deliver. rewrite Hold.
  assert (is_open ws (set_readyState old CLOSED s) = true) as Hopen'.
  { unfold is_open, set_readyState in *. cbn.
    by rewrite list_lookup_alter_ne by done. }
  unfold onclose. destruct (Z.eqb_spec code 4001) as [-> | Hc]; cbn;
    repeat split; try done.
Qed.

End Connections.

Section Transitions.
Import Api ShapeSocket.

Implicit Types (s : State) (ws : nat).

Lemma onclose_cells (code : Z) s :
  (code = 4001%Z ∧ phase (onclose code s) = "error"
   ∧ error (onclose code s) = Some "Authentication failed. Please sign in again.")
  ∨ (code ≠ 4001%Z ∧ phase (onclose code s) = phase s
     ∧ error (onclose code s) = error s).
Proof.
  unfold onclose. destruct (Z.eqb_spec code 4001) as [-> | Hne]; [by left | by right].
Qed.

(** X26 (the transitions of the hook).  What one operation of the hook
    can do to its cells.  The phase changes only as follows: [connect] gives
    connecting, [disconnect] idle; a command gives segmenting or
    parsing_query and only on an open socket; a message is handled only on
    an open socket, where a connected acknowledgement gives connected from
    connecting or idle, a progress event gives its step, a result gives
    query_done or segment_done, an error event gives error, and an
    undecodable message or one of another type changes nothing; a socket
    error gives error; a close changes the phase only with code 4001, to
    error; an open event and setSegmentResult never change it.  The stored
    error changes only when [connect] clears it or, with the phase then
    error, to a message.  [isConnected] becomes true only by an open event
    on a connecting socket. *)
Theorem hook_transitions BACKEND (op : Op) s :
  let s' := perform BACKEND s op in
  (phase s' ≠ phase s →
     match op with
     | Connect _ _ => phase s' = "connecting"
     | Disconnect => phase s' = "idle"
     | TriggerSegmentation _ =>
         phase s' = "segmenting" ∧ ∃ ws, wsRef s = Some ws ∧ is_open ws s = true
     | SendQuery _ =>
         phase s' = "parsing_query" ∧ ∃ ws, wsRef s = Some ws ∧ is_open ws s = true
     | SetPhase p => phase s' = p
     | SetSegmentResult _ => False
     | Browser ws EvOpen => False
     | Browser ws (EvMessage _ data) =>
         ready ws s = Some OPEN
         ∧ match data with
           | Undecodable | Decoded (Other _) => False
           | Decoded Connected =>
               phase s' = "connected" ∧ (phase s = "connecting" ∨ phase s = "idle")
           | Decoded (Progress step _ _) => phase s' = step
           | Decoded (Result _) => phase s' = "query_done" ∨ phase s' = "segment_done"
           | Decoded (Error _) => phase s' = "error"
           end
     | Browser ws EvError => phase s' = "error"
     | Browser ws (EvClose code) => code = 4001%Z ∧ phase s' = "error"
     end)
  ∧ (error s' ≠ error s →
       (error s' = None ∧ ∃ uid sessionId, op = Connect uid sessionId)
       ∨ (phase s' = "error" ∧ is_Some (error s')))
  ∧ (isConnected s' = true →
       isConnected s = true
       ∨ ∃ ws, op = Browser ws EvOpen ∧ ready ws s = Some CONNECTING).
Proof.
  cbn zeta. split_and!.
  - destruct op as [uid sid | | opts | q | p | r | ws ev]; cbn [perform].
    + intros _. unfold connect. by destruct (wsRef s).
    + intros _. unfold disconnect. by destruct (wsRef s).
    + unfold triggerSegmentation. destruct (wsRef s) as [ws |]; [| done].
      destruct (is_open ws s) eqn:Hopen; [| done]. intros _. split; [done |]. eauto.
    + unfold sendQuery. destruct (wsRef s) as [ws |]; [| done].
      destruct (is_open ws s) eqn:Hopen; [| done]. intros _. split; [done |]. eauto.
    + done.
    + done.
    + unfold deliver.
      destruct ev as [| now data | | code], (ready ws s) as [[]|]; try done.
      * intros Hne. split; [done |].
        destruct data as [| [| step detail explanation | r | message | type]];
          try done.
        -- rewrite onmessage_connected_phase in *.
           destruct (String.eqb_spec (phase s) "connecting") as [H1 | H1];
             [split; [done | by left] |].
           destruct (String.eqb_spec (phase s) "idle") as [H2 | H2];
             [split; [done | by right] |].
           done.
        -- apply onmessage_result_phase.
      * intros Hne. destruct (onclose_cells code (set_readyState ws CLOSED s))
          as [(-> & Hp & _) | (_ & Hp & _)]; [done |]. by rewrite Hp in Hne.
      * intros Hne. destruct (onclose_cells code (set_readyState ws CLOSED s))
          as [(-> & Hp & _) | (_ & Hp & _)]; [done |]. by rewrite Hp in Hne.
      * intros Hne. destruct (onclose_cells code (set_readyState ws CLOSED s))
          as [(-> & Hp & _) | (_ & Hp & _)]; [done |]. by rewrite Hp in Hne.
  - destruct op as [uid sid | | opts | q | p | r | ws ev]; cbn [perform].
    + intros _. left. split; [| eauto]. unfold connect. by destruct (wsRef s).
    + unfold disconnect. by destruct (wsRef s).
    + unfold triggerSegmentation. destruct (wsRef s) as [ws |]; [| done].
      by destruct (is_open ws s).
    + unfold sendQuery. destruct (wsRef s) as [ws |]; [| done].
      by destruct (is_open ws s).
    + done.
    + done.
    + unfold deliver.
      destruct ev as [| now data | | code], (ready ws s) as [[]|]; try done;
        try (intros _; right; split; [done | eauto]).
      * destruct data as [| [| step detail explanation | r | message | type]];
          try done.
        -- unfold onmessage. by destruct (expectingRef s) as [[]|], (val r).
        -- intros _. right. split; [done | eauto].
      * intros Hne. destruct (onclose_cells code (set_readyState ws CLOSED s))
          as [(_ & Hp & He) | (_ & _ & He)]; [| by rewrite He in Hne].
        right. rewrite Hp, He. eauto.
      * intros Hne. destruct (onclose_cells code (set_readyState ws CLOSED s))
          as [(_ & Hp & He) | (_ & _ & He)]; [| by rewrite He in Hne].
        right. rewrite Hp, He. eauto.
      * intros Hne. destruct (onclose_cells code (set_readyState ws CLOSED s))
          as [(_ & Hp & He) | (_ & _ & He)]; [| by rewrite He in Hne].
        right. rewrite Hp, He. eauto.
  - destruct op as [uid sid | | opts | q | p | r | ws ev]; cbn [perform].
    + unfold connect. destruct (wsRef s); cbn; auto.
    + unfold disconnect. by destruct (wsRef s).
    + unfold triggerSegmentation. destruct (wsRef s) as [ws |]; [| auto].
      destruct (is_open ws s); cbn; auto.
    + unfold sendQuery. destruct (wsRef s) as [ws |]; [| auto].
      destruct (is_open ws s); cbn; auto.
    + cbn. auto.
    + cbn. auto.
    + unfold deliver.
      destruct ev as [| now data | | code], (ready ws s) as [[]|] eqn:Hr; auto;
        try done.
      * intros _. right. eauto.
      * destruct data as [| [| step detail explanation | r | message | type]];
          cbn; auto.
        unfold onmessage. destruct (expectingRef s) as [[]|], (val r); cbn; auto.
      * unfold onclose. by destruct (code =? 4001)%Z.
      * unfold onclose. by destruct (code =? 4001)%Z.
      * unfold onclose. by destruct (code =? 4001)%Z.
Qed.

End Transitions.

(* ===================================================================== *)
(** * The progress text *)
(* ===================================================================== *)

Section ProgressText.
Import Api ShapeSocket.






End ProgressText.

(* ===================================================================== *)
(** * Addresses, accounts and session lists *)
(* ===================================================================== *)

Section Transport.
Import Api.

Lemma substring_all (s : string) : String.substring 0 (String.length s) s = s.
Proof. induction s as [| c s IH]; [done |]. cbn. by rewrite IH. Qed.

Lemma WS_BASE_http (rest : string) : WS_BASE ("http" +:+ rest) = "ws" +:+ rest.
Proof.
  unfold WS_BASE. cbv [String.append]. cbn.
  rewrite ?Nat.sub_0_r, substring_all. by destruct rest.
Qed.

(** X9 (WebSocket URL).  A backend address [http://...] gives the socket
    address [ws://...] and [https://...] gives [wss://...], followed by
    [/ws/<uid>/<sessionId>]; an address that does not start with [http]
    is used as it is. *)
Theorem ws_url_scheme (rest uid sessionId : string) :
  WS_BASE ("http://" +:+ rest) = "ws://" +:+ rest
  ∧ WS_BASE ("https://" +:+ rest) = "wss://" +:+ rest
  ∧ getWsUrl ("http://" +:+ rest) uid sessionId
    = "ws://" +:+ rest +:+ "/ws/" +:+ uid +:+ "/" +:+ sessionId
  ∧ getWsUrl ("https://" +:+ rest) uid sessionId
    = "wss://" +:+ rest +:+ "/ws/" +:+ uid +:+ "/" +:+ sessionId
  ∧ (∀ BACKEND, String.prefix "http" BACKEND = false →
       WS_BASE BACKEND = BACKEND
       ∧ getWsUrl BACKEND uid sessionId
         = BACKEND +:+ "/ws/" +:+ uid +:+ "/" +:+ sessionId).
Proof.
  pose proof (WS_BASE_http ("://" +:+ rest)) as H1.
  pose proof (WS_BASE_http ("s://" +:+ rest)) as H2.
  split_and!.
  - exact H1.
  - exact H2.
  - unfold getWsUrl.
    change ("http://" +:+ rest) with ("http" +:+ "://" +:+ rest). by rewrite H1.
  - unfold getWsUrl.
    change ("https://" +:+ rest) with ("http" +:+ "s://" +:+ rest). by rewrite H2.
  - intros BACKEND Hpre. unfold getWsUrl, WS_BASE. by rewrite Hpre.
Qed.

End Transport.

Section Accounts.
Import Api Auth.

Implicit Types (s : State).

(** X12 (adding a session).  [addSession] keeps a duplicate-free session
    list duplicate-free: an id already listed leaves the state unchanged, a
    new id is put in front, nothing else is added or dropped, and adding
    the same id again changes nothing. *)
Theorem addSession_no_duplicates sid s :
  NoDup (sessions s) →
  let s' := addSession sid s in
  NoDup (sessions s')
  ∧ sid ∈ sessions s'
  ∧ (∀ x, x ∈ sessions s' ↔ x = sid ∨ x ∈ sessions s)
  ∧ (sid ∉ sessions s → sessions s' = sid :: sessions s)
  ∧ (sid ∈ sessions s → s' = s)
  ∧ addSession sid s' = s'.
Proof.
  intros Hnd. cbn zeta. destruct s as [u e l ld st rt].
  unfold addSession, setSessionsWith. cbn in *.
  destruct (decide (sid ∈ l)) as [Hin | Hnin].
  - rewrite !bool_decide_eq_true_2 by done. cbn.
    rewrite ?bool_decide_eq_true_2 by done.
    split_and!; try done. intros x. split; [auto |]. by intros [-> | ?].
  - rewrite !bool_decide_eq_false_2 by done. cbn.
    rewrite ?bool_decide_eq_true_2 by constructor.
    split_and!; try done.
    + by constructor.
    + constructor.
    + intros x. apply elem_of_cons.
Qed.

(** What [normalizeSessionId] throws, and when a list is normalised. *)
Lemma normalizeSessionId_throws entry message :
  normalizeSessionId entry = Js.Throw message →
  message = Js.cannot_convert
  ∧ ∃ fields, entry = SessionObject fields ∧ is_Some (fields !! "toString").
Proof.
  destruct entry as [id | fields]; [done |]. cbn. unfold String_object.
  destruct (fields !! "session_id") as [[] |]; try done;
    case_bool_decide; try done; intros [= <-]; eauto.
Qed.

Lemma map_normalizeSessionId_throws entries message :
  Js.map normalizeSessionId entries = Js.Throw message →
  message = Js.cannot_convert
  ∧ ∃ fields, SessionObject fields ∈ entries ∧ is_Some (fields !! "toString").
Proof.
  induction entries as [| entry entries IH]; [done |]. cbn.
  destruct (normalizeSessionId entry) as [id | m] eqn:Hentry.
  - destruct (Js.map normalizeSessionId entries) as [ids | m]; [done |].
    intros [= <-]. destruct (IH eq_refl) as (-> & fields & Hin & Hkey).
    split; [done |]. exists fields. split; [by constructor | done].
  - intros [= <-]. destruct (normalizeSessionId_throws _ _ Hentry) as (-> & fields & -> & Hkey).
    split; [done |]. exists fields. split; [by constructor | done].
Qed.

Lemma map_normalizeSessionId_normal entries :
  (∀ entry, entry ∈ entries → ∃ id, normalizeSessionId entry = Js.Normal id) →
  ∃ ids, Js.map normalizeSessionId entries = Js.Normal ids
    ∧ length ids = length entries.
Proof.
  induction entries as [| entry entries IH]; intros Hall; [by exists [] |].
  destruct (Hall entry) as [id Hid]; [by constructor |].
  destruct IH as (ids & Hids & Hlen); [intros; apply Hall; by constructor |].
  exists (id :: ids). cbn. rewrite Hid, Hids. split; [done |]. cbn. by rewrite Hlen.
Qed.

(** X11 (credentials are kept unless the session is invalid).  With a
    uid and an e-mail in the storage, the provider's mount effect always
    ends loading and never navigates.  A 401 or 404 answer removes both
    items and leaves nobody signed in.  Any other failure - another
    status, a rejected request, a body that does not parse - keeps the
    storage and signs in with the stored uid and e-mail.  An accepted
    answer signs in with the uid and e-mail it carries and the normalised
    session ids; but when an element of its session list makes
    [normalizeSessionId] throw, the exception reaches the same handler as
    a failed request, and the provider signs in with the stored uid and
    e-mail and no sessions. *)
Theorem credentials_kept_unless_invalid (storage : gmap string string) u e
    (fetched : Promise (Response Me)) :
  storage !! "uid" = Some u → u ≠ "" →
  storage !! "email" = Some e → e ≠ "" →
  let s' := mount_effect fetched (initial storage) in
  loading s' = false
  ∧ routes s' = []
  ∧ (∀ res, fetched = Fulfilled res → status res = 401%Z ∨ status res = 404%Z →
       uid s' = None ∧ email s' = None ∧ sessions s' = []
       ∧ localStorage s' = delete "email" (delete "uid" storage))
  ∧ (∀ res, fetched = Fulfilled res →
       status res ≠ 401%Z → status res ≠ 404%Z → ok res = false →
       uid s' = Some u ∧ email s' = Some e ∧ sessions s' = []
       ∧ localStorage s' = storage)
  ∧ (∀ message, fetched = Rejected message → message ≠ "Invalid session" →
       uid s' = Some u ∧ email s' = Some e ∧ sessions s' = []
       ∧ localStorage s' = storage)
  ∧ (∀ res message, fetched = Fulfilled res → ok res = true →
       json res = Rejected message → message ≠ "Invalid session" →
       uid s' = Some u ∧ email s' = Some e ∧ sessions s' = []
       ∧ localStorage s' = storage)
  ∧ (∀ res data ids, fetched = Fulfilled res → ok res = true →
       json res = Fulfilled data →
       Js.map normalizeSessionId (default [] (Api.sessions data)) = Js.Normal ids →
       uid s' = Some (Api.uid data) ∧ email s' = Some (Api.email data)
       ∧ sessions s' = ids
       ∧ localStorage s' = storage)
  ∧ (∀ res data message, fetched = Fulfilled res → ok res = true →
       json res = Fulfilled data →
       Js.map normalizeSessionId (default [] (Api.sessions data)) = Js.Throw message →
       uid s' = Some u ∧ email s' = Some e ∧ sessions s' = []
       ∧ localStorage s' = storage).
Proof.
  intros Hu Hune He Hene. cbn zeta. unfold mount_effect. cbn [localStorage initial].
  rewrite Hu, He.
  rewrite (proj2 (String.eqb_neq u "") Hune), (proj2 (String.eqb_neq e "") Hene).
  cbn [orb].
  assert (∀ res : Response Me, ok res = true →
            (status res =? 404)%Z || (status res =? 401)%Z = false) as Hok_status.
  { intros res Hok. unfold ok in Hok. apply andb_prop in Hok as [H1 H2].
    apply Z.leb_le in H1, H2. apply orb_false_intro; apply Z.eqb_neq; lia. }
  split_and!.
  - unfold getMe_settled, getMe_catch.
    destruct (getMe fetched) as [data | message].
    + by destruct (Js.map _ _) as [ids | m]; [| destruct (String.eqb m _)].
    + by destruct (String.eqb message "Invalid session").
  - unfold getMe_settled, getMe_catch.
    destruct (getMe fetched) as [data | message].
    + by destruct (Js.map _ _) as [ids | m]; [| destruct (String.eqb m _)].
    + by destruct (String.eqb message "Invalid session").
  - intros res -> Hstatus. unfold getMe.
    assert ((status res =? 404)%Z || (status res =? 401)%Z = true) as ->
      by (destruct Hstatus as [-> | ->]; done).
    done.
  - intros res -> H401 H404 Hok. unfold getMe.
    rewrite (proj2 (Z.eqb_neq _ _) H401), (proj2 (Z.eqb_neq _ _) H404), Hok. done.
  - intros message -> Hmsg. unfold getMe, getMe_settled, getMe_catch.
    by rewrite (proj2 (String.eqb_neq _ _) Hmsg).
  - intros res message -> Hok Hjson Hmsg. unfold getMe.
    rewrite (Hok_status res Hok), Hok. cbn [negb]. rewrite Hjson.
    unfold getMe_settled, getMe_catch.
    by rewrite (proj2 (String.eqb_neq _ _) Hmsg).
  - intros res data ids -> Hok Hjson Hids. unfold getMe.
    rewrite (Hok_status res Hok), Hok. cbn [negb]. rewrite Hjson.
    unfold getMe_settled.
    by rewrite Hids.
  - intros res data message -> Hok Hjson Hthrow. unfold getMe.
    rewrite (Hok_status res Hok), Hok. cbn [negb]. rewrite Hjson.
    unfold getMe_settled.
    rewrite Hthrow.
    destruct (map_normalizeSessionId_throws _ _ Hthrow) as (-> & _).
    done.
Qed.

(** X13 (logout).  [logout] clears uid, email and sessions, pushes the
    route ["/"], and removes the two stored items and no other; a second
    [logout] only pushes the route again; and a provider mounted over the
    storage left behind makes no request and stays signed out. *)
Theorem logout_signs_out (fetched : Promise (Response Me)) s :
  let s' := logout s in
  uid s' = None ∧ email s' = None ∧ sessions s' = []
  ∧ routes s' = routes s ++ ["/"]
  ∧ localStorage s' !! "uid" = None ∧ localStorage s' !! "email" = None
  ∧ (∀ key, key ≠ "uid" → key ≠ "email" →
       localStorage s' !! key = localStorage s !! key)
  ∧ logout s' = router_push "/" s'
  ∧ mount_effect fetched (initial (localStorage s'))
    = setLoading false (initial (localStorage s')).
Proof.
  cbn zeta. unfold logout. cbn.
  split_and!; try done.
  - rewrite lookup_delete_ne by done. apply lookup_delete_eq.
  - apply lookup_delete_eq.
  - intros key H1 H2. by rewrite !lookup_delete_ne by done.
  - unfold router_push. cbn. f_equal.
    rewrite (delete_id (delete "email" _)).
    + apply delete_id. apply lookup_delete_eq.
    + rewrite lookup_delete_ne by done. apply lookup_delete_eq.
  - unfold mount_effect. cbn.
    rewrite (lookup_delete_ne _ "email" "uid") by done.
    by rewrite lookup_delete_eq.
Qed.

(** X10 (session lists of either shape).  [getMe] may answer with
    session ids or with session objects.  A list of ids is normalised to
    itself and a list of objects with a string [session_id] to their ids,
    whatever else the objects hold.  An object without a string
    [session_id] prints as ["[object Object]"] - unless it has a key
    [toString] of its own, in which case the conversion throws.  A
    normalised id is normalised to itself.  Normalising a list throws
    only because of such an object, and succeeds, with one id per
    element, when every element can be normalised. *)
Theorem session_ids_normalised (ids : list string)
    (infos : list (string * gmap string JsVal)) (fields : gmap string JsVal) :
  Js.map normalizeSessionId (SessionString <$> ids) = Js.Normal ids
  ∧ Js.map normalizeSessionId
      ((fun info => SessionObject (<["session_id" := JStr info.1]> info.2)) <$> infos)
    = Js.Normal (fst <$> infos)
  ∧ ((∀ id, fields !! "session_id" ≠ Some (JStr id)) →
     (fields !! "toString" = None →
      normalizeSessionId (SessionObject fields) = Js.Normal "[object Object]")
     ∧ (is_Some (fields !! "toString") →
        ∃ message, normalizeSessionId (SessionObject fields) = Js.Throw message))
  ∧ (∀ entry id, normalizeSessionId entry = Js.Normal id →
       normalizeSessionId (SessionString id) = Js.Normal id)
  ∧ (∀ entries message, Js.map normalizeSessionId entries = Js.Throw message →
       ∃ fields', SessionObject fields' ∈ entries ∧ is_Some (fields' !! "toString")
         ∧ ∀ id, fields' !! "session_id" ≠ Some (JStr id))
  ∧ (∀ entries,
       (∀ entry, entry ∈ entries → ∃ id, normalizeSessionId entry = Js.Normal id) →
       ∃ ids', Js.map normalizeSessionId entries = Js.Normal ids'
         ∧ length ids' = length entries).
Proof.
  split_and!.
  - induction ids as [| id ids IH]; [done |]. cbn in *. by rewrite IH.
  - induction infos as [| [id fs] infos IH]; [done |]. cbn in *.
    rewrite lookup_insert_eq. by rewrite IH.
  - intros Hnone. cbn. unfold String_object. split.
    + intros Hkey. rewrite Hkey.
      destruct (fields !! "session_id") as [[] |] eqn:Hid; try done.
      by destruct (Hnone s).
    + intros Hkey. exists Js.cannot_convert. rewrite bool_decide_eq_true_2 by done.
      destruct (fields !! "session_id") as [[] |] eqn:Hid; try done.
      by destruct (Hnone s).
  - done.
  - intros entries message Hthrow.
    induction entries as [| entry entries IH]; [done |]. cbn in Hthrow.
    destruct (normalizeSessionId entry) as [id | m] eqn:Hentry.
    + destruct (Js.map normalizeSessionId entries) as [ids0 | m]; [done |].
      destruct (IH Hthrow) as (fields' & Hin & Hkey & Hid).
      exists fields'. split_and!; [by constructor | done | done].
    + destruct (normalizeSessionId_throws _ _ Hentry) as (_ & fields' & -> & Hkey).
      exists fields'. split_and!; [by constructor | done |].
      intros id Hid. cbn in Hentry. by rewrite Hid in Hentry.
  - apply map_normalizeSessionId_normal.
Qed.

End Accounts.

Section SigningIn.
Import Api SignIn.

Lemma nonempty_Some (t : string) : t ≠ "" → Dashboard.nonempty (Some t) = true.
Proof. intros Ht. cbn. by rewrite (proj2 (String.eqb_neq t "") Ht). Qed.

(** X27 (signing in settles).  The provider always stops loading.  If
    the dashboard then sends the user to the login page, the storage holds
    no credentials (given that an accepted answer of [getMe] carries a
    non-empty uid), so the login page does not send the user straight back.
    With stored credentials the login page routes as the home page does,
    whatever a request would answer.  Without them, an accepted login with
    a non-empty uid and e-mail stores both and routes to the dashboard, and
    the home page then routes there as well; a failed login leaves the
    storage as it was. *)
Theorem no_redirect_loop (storage : gmap string string)
    (fetched : Promise (Response Me)) :
  let a := Auth.mount_effect fetched (Auth.initial storage) in
  Auth.loading a = false
  ∧ ((∀ data, getMe fetched = Fulfilled data → uid data ≠ "") →
     dashboard_redirects a = true →
     stored_credentials (Auth.localStorage a) = false)
  ∧ (stored_credentials storage = true →
     ∀ logged, login_effect logged storage
               = {| status := "Checking…"; localStorage := storage;
                    routes := routes (home_effect storage) |})
  ∧ (stored_credentials storage = false →
     ∀ logged data, login logged = Fulfilled data →
       uid data ≠ "" → email data ≠ "" →
       let l := login_effect logged storage in
       routes l = ["/dashboard"]
       ∧ localStorage l !! "uid" = Some (uid data)
       ∧ localStorage l !! "email" = Some (email data)
       ∧ stored_credentials (localStorage l) = true
       ∧ routes (home_effect (localStorage l)) = ["/dashboard"])
  ∧ (∀ logged message, login logged = Rejected message →
       localStorage (login_effect logged storage) = storage).
Proof.
  cbn zeta. split_and!.
  - unfold Auth.mount_effect, Auth.getMe_settled. cbn [Auth.localStorage Auth.initial].
    destruct (storage !! "uid") as [u |], (storage !! "email") as [e |]; try done.
    destruct (String.eqb u "" || String.eqb e ""); [done |].
    destruct (getMe fetched) as [data | message]; [done |].
    by destruct (String.eqb message "Invalid session").
  - intros Huid. unfold dashboard_redirects, stored_credentials, Auth.mount_effect.
    cbn [Auth.localStorage Auth.initial].
    destruct (storage !! "uid") as [u |] eqn:Hu; [| by cbn; rewrite Hu].
    destruct (storage !! "email") as [e |] eqn:He;
      [| by cbn; rewrite He, andb_false_r].
    destruct (String.eqb_spec u "") as [-> | Hune]; [by cbn; rewrite Hu |].
    destruct (String.eqb_spec e "") as [-> | Hene];
      [by cbn; rewrite He, andb_false_r |].
    cbn [orb]. unfold Auth.getMe_settled, Auth.getMe_catch.
    destruct (getMe fetched) as [data | message] eqn:Hme.
    + specialize (Huid data eq_refl).
      destruct (Js.map _ _) as [ids | m].
      * cbn. by rewrite (proj2 (String.eqb_neq _ "") Huid).
      * destruct (String.eqb m "Invalid session"); cbn.
        -- intros _. by rewrite lookup_delete_ne, lookup_delete_eq.
        -- by rewrite (proj2 (String.eqb_neq _ "") Hune).
    + destruct (String.eqb message "Invalid session"); cbn.
      * intros _. by rewrite lookup_delete_ne, lookup_delete_eq.
      * by rewrite (proj2 (String.eqb_neq _ "") Hune).
  - intros Hstored logged. unfold login_effect, home_effect. cbn. by rewrite Hstored.
  - intros Hstored logged data Hlogin Hu He. cbn zeta. unfold login_effect.
    rewrite Hstored, Hlogin. cbn [routes localStorage].
    assert (<["email" := email data]> (<["uid" := uid data]> storage) !! "uid"
            = Some (uid data)) as Huid
      by (by rewrite lookup_insert_ne, lookup_insert_eq).
    assert (<["email" := email data]> (<["uid" := uid data]> storage) !! "email"
            = Some (email data)) as Hemail by apply lookup_insert_eq.
    assert (stored_credentials (<["email" := email data]> (<["uid" := uid data]> storage))
            = true) as Hnow
      by (unfold stored_credentials; by rewrite Huid, Hemail, !nonempty_Some).
    split_and!; try done.
    unfold home_effect. cbn. by rewrite Hnow.
  - intros logged message Hlogin. unfold login_effect.
    rewrite Hlogin. by destruct (stored_credentials storage).
Qed.

End SigningIn.

(* ===================================================================== *)
(** * Cell arrays and the locality of the colouring *)
(* ===================================================================== *)

Section CellArrays.
Import Api MeshConstants MeshViewer.

Implicit Types (faces fs : list (list Z)) (f : list Z) (a pre : list Z).

(** The four writes of one face fill the next four elements. *)
Lemma polys_fill fs : ∀ k pre,
  length pre = k * 4 →
  foldl (fun a '(i, f) =>
           u32_set (u32_set (u32_set (u32_set a (i * 4) 3)
             (i * 4 + 1) (default 0%Z (f !! 0%nat)))
             (i * 4 + 2) (default 0%Z (f !! 1%nat)))
             (i * 4 + 3) (default 0%Z (f !! 2%nat)))
        (pre ++ replicate (length fs * 4) 0%Z)
        (imap (fun i f => (k + i, f)) fs)
  = pre ++ flat_map (fun f => 3%Z :: triangle f) fs.
Proof.
  induction fs as [| f fs IH]; intros k pre Hlen.
  - reflexivity.
  - rewrite imap_cons. cbn [foldl length flat_map].
    replace (k + 0) with k by lia.
    change (S (length fs) * 4) with (4 + length fs * 4).
    cbn [replicate Nat.add]. unfold u32_set.
    rewrite (insert_app_r_alt pre _ (k * 4)) by lia.
    replace (k * 4 - length pre) with 0 by lia. cbn [insert list_insert].
    rewrite (insert_app_r_alt pre _ (k * 4 + 1)) by lia.
    replace (k * 4 + 1 - length pre) with 1 by lia. cbn [insert list_insert].
    rewrite (insert_app_r_alt pre _ (k * 4 + 2)) by lia.
    replace (k * 4 + 2 - length pre) with 2 by lia. cbn [insert list_insert].
    rewrite (insert_app_r_alt pre _ (k * 4 + 3)) by lia.
    replace (k * 4 + 3 - length pre) with 3 by lia. cbn [insert list_insert].
    rewrite (imap_ext _ (fun i f => (S k + i, f))) by (intros; cbn; f_equal; lia).
    assert (length (pre ++ 3%Z :: triangle f) = S k * 4) as Hlen'
      by (rewrite length_app; cbn; lia).
    specialize (IH (S k) (pre ++ 3%Z :: triangle f) Hlen').
    rewrite <- !app_assoc in IH. exact IH.
Qed.

Lemma face_polys_flat faces :
  face_polys faces = flat_map (fun f => 3%Z :: triangle f) faces.
Proof. apply (polys_fill faces 0 []). reflexivity. Qed.

Lemma cells_triangles fs : ∀ fuel,
  length fs ≤ fuel →
  cells fuel (flat_map (fun f => 3%Z :: triangle f) fs) = Some (triangle <$> fs).
Proof.
  induction fs as [| f fs IH]; intros fuel Hfuel.
  - by destruct fuel.
  - destruct fuel as [| fuel]; [cbn in Hfuel; lia |].
    cbn [flat_map app triangle cells]. cbn in Hfuel.
    change (Z.to_nat 3) with 3. cbn [length Nat.ltb Nat.leb take drop].
    rewrite IH by lia. done.
Qed.

(** X14 (triangle cells).  [polys] has four elements per face and reads
    back as one three-point cell per face, in the order of the faces: the
    element at [4i] is 3 and the next three are the vertex indices of face
    [i], which for indices below 2^32 are stored unchanged. *)
Theorem face_polys_cells faces :
  length (face_polys faces) = length faces * 4
  ∧ cells (length (face_polys faces)) (face_polys faces) = Some (triangle <$> faces)
  ∧ (∀ i f, faces !! i = Some f →
       face_polys faces !! (i * 4) = Some 3%Z
       ∧ (∀ k, k < 3 → face_polys faces !! (i * 4 + 1 + k) = triangle f !! k))
  ∧ (∀ v0 v1 v2, (0 ≤ v0 < 2^32 ∧ 0 ≤ v1 < 2^32 ∧ 0 ≤ v2 < 2^32)%Z →
       triangle [v0; v1; v2] = [v0; v1; v2]).
Proof.
  assert (length (face_polys faces) = length faces * 4) as Hlen.
  { rewrite face_polys_flat. induction faces as [| f fs IH]; [done |].
    cbn [flat_map length app]. cbn [length] in IH. rewrite length_app, IH. cbn. lia. }
  split_and!.
  - done.
  - rewrite Hlen, face_polys_flat. apply cells_triangles. lia.
  - rewrite face_polys_flat. clear Hlen.
    induction faces as [| f0 fs IH]; intros i f Hi; [done |].
    destruct i as [| i].
    + injection Hi as ->. split; [done |].
      intros [| [| [| k]]] Hk; try done. lia.
    + cbn in Hi. destruct (IH i f Hi) as (H3 & Hk). split.
      * exact H3.
      * intros k Hlt. apply (Hk k Hlt).
  - intros v0 v1 v2 (H0 & H1 & H2). unfold triangle. cbn.
    by rewrite !Z.mod_small by done.
Qed.


(** Reading back an array of cells written one after the other. *)
Lemma cells_written (cs : list (list Z)) : ∀ fuel,
  length cs ≤ fuel →
  cells fuel (flat_map (fun c => Z.of_nat (length c) :: c) cs) = Some cs.
Proof.
  induction cs as [| c cs IH]; intros fuel Hfuel.
  - by destruct fuel.
  - destruct fuel as [| fuel]; [cbn in Hfuel; lia |].
    cbn [flat_map app cells]. cbn in Hfuel.
    rewrite Nat2Z.id, length_app.
    replace (length c + _ <? length c) with false by (symmetry; apply Nat.ltb_ge; lia).
    rewrite take_app_length, drop_app_length, IH by lia. done.
Qed.

Lemma length_cells_written (cs : list (list Z)) :
  length cs ≤ length (flat_map (fun c => Z.of_nat (length c) :: c) cs).
Proof.
  induction cs as [| c cs IH]; [done |].
  cbn [flat_map length app]. rewrite length_app. lia.
Qed.

(** What the centerline holds after any number of segments. *)
Lemma centerline_segment_points hl cl seg :
  clPoints cl ≤ clPoints (centerline_segment hl cl seg).
Proof.
  unfold centerline_segment. destruct (_ <? 2); [done |].
  destruct (segment_color hl seg) as [[r g] b]. cbn. lia.
Qed.

Lemma centerline_points hl (segs : list Segment) : ∀ cl,
  clPoints cl ≤ clPoints (foldl (centerline_segment hl) cl segs).
Proof.
  induction segs as [| seg segs IH]; intros cl; [done |].
  cbn [foldl]. etrans; [apply (centerline_segment_points hl cl seg) | apply IH].
Qed.


Local Abbreviation written cs := (flat_map (fun c => Z.of_nat (length c) :: c) cs).

Lemma length_node_colors {A} (nodes : list A) (c : list Z) :
  length (flat_map (fun _ => c) nodes) = length nodes * length c.
Proof.
  induction nodes as [| x nodes IH]; [done |].
  cbn [flat_map length]. rewrite length_app, IH. lia.
Qed.

Lemma centerline_segment_cells hl cl seg (cs : list (list Z)) :
  length (clColors cl) = clPoints cl * 3 →
  offset cl = Z.of_nat (clPoints cl) →
  clLines cl = written cs →
  Forall (Forall (fun i => (0 ≤ i < Z.of_nat (clPoints cl))%Z)) cs →
  Forall (fun c => 2 ≤ length c) cs →
  edges_in_range seg →
  (Z.of_nat (clPoints (centerline_segment hl cl seg)) < 2^32)%Z →
  let cl' := centerline_segment hl cl seg in
  length (clColors cl') = clPoints cl' * 3
  ∧ offset cl' = Z.of_nat (clPoints cl')
  ∧ ∃ cs', clLines cl' = written cs'
      ∧ Forall (Forall (fun i => (0 ≤ i < Z.of_nat (clPoints cl'))%Z)) cs'
      ∧ Forall (fun c => 2 ≤ length c) cs'.
Proof.
  intros Hcol Hoff Hlines Hcs Hlen Hedges Hbound. cbn zeta.
  revert Hbound. unfold centerline_segment.
  destruct (Nat.ltb_spec (length (downsampled_nodes seg)) 2) as [Hshort | Hlong].
  { intros _. split_and!; [done | done |]. by exists cs. }
  destruct (segment_color hl seg) as [[r g] b].
  set (n := length (downsampled_nodes seg)) in *.
  cbn [clPoints clLines clColors offset]. intros Hbound.
  assert (Forall (Forall (fun i => (0 ≤ i < Z.of_nat (clPoints cl + n))%Z)) cs) as Hcs'.
  { eapply Forall_impl; [exact Hcs |]. intros c Hc.
    eapply Forall_impl; [exact Hc |]. cbn. lia. }
  split_and!.
  - rewrite length_app, length_node_colors, Hcol. cbn. lia.
  - rewrite Hoff. lia.
  - destruct (Nat.ltb_spec 0 (length (downsampled_edges seg))) as [Hsome | Hnone].
    + exists (cs ++ ((fun e : list Z =>
                        [ match e !! 0%nat with
                          | Some x => ((x + offset cl) mod 2^32)%Z | None => 0%Z end;
                          match e !! 1%nat with
                          | Some x => ((x + offset cl) mod 2^32)%Z | None => 0%Z end ])
                     <$> downsampled_edges seg)).
      split_and!.
      * rewrite Hlines, flat_map_app. f_equal.
        clear. induction (downsampled_edges seg) as [| e es IH]; [done |].
        cbn. by rewrite IH.
      * apply Forall_app. split; [done |].
        apply Forall_fmap. eapply Forall_impl; [exact Hedges |].
        intros e (a & b0 & Ha0 & Hb0 & Ha & Hb). cbn. rewrite Ha0, Hb0.
        rewrite Hoff, !Z.mod_small by lia.
        repeat constructor; lia.
      * apply Forall_app. split; [done |].
        apply Forall_fmap. apply Forall_forall. intros e _. cbn. lia.
    + exists (cs ++ [ (fun i => ((Z.of_nat i + offset cl) mod 2^32)%Z) <$> seq 0 n ]).
      split_and!.
      * rewrite Hlines, flat_map_app. f_equal. cbn.
        rewrite app_nil_r, length_fmap, length_seq, Z.mod_small by lia. done.
      * apply Forall_app. split; [done |].
        constructor; [| constructor].
        apply Forall_fmap, Forall_forall. intros i Hi%elem_of_seq. cbn.
        rewrite Hoff, Z.mod_small by lia. lia.
      * apply Forall_app. split; [done |].
        constructor; [| constructor]. rewrite length_fmap, length_seq. done.
Qed.

Lemma centerline_fold_cells hl (segs : list Segment) : ∀ cl (cs : list (list Z)),
  length (clColors cl) = clPoints cl * 3 →
  offset cl = Z.of_nat (clPoints cl) →
  clLines cl = written cs →
  Forall (Forall (fun i => (0 ≤ i < Z.of_nat (clPoints cl))%Z)) cs →
  Forall (fun c => 2 ≤ length c) cs →
  Forall edges_in_range segs →
  (Z.of_nat (clPoints (foldl (centerline_segment hl) cl segs)) < 2^32)%Z →
  let cl' := foldl (centerline_segment hl) cl segs in
  length (clColors cl') = clPoints cl' * 3
  ∧ offset cl' = Z.of_nat (clPoints cl')
  ∧ ∃ cs', clLines cl' = written cs'
      ∧ Forall (Forall (fun i => (0 ≤ i < Z.of_nat (clPoints cl'))%Z)) cs'
      ∧ Forall (fun c => 2 ≤ length c) cs'.
Proof.
  induction segs as [| seg segs IH]; intros cl cs Hcol Hoff Hlines Hcs Hlen Hedges Hbound.
  - cbn. split_and!; [done | done |]. by exists cs.
  - cbn [foldl] in *. apply Forall_cons in Hedges as [Hseg Hsegs].
    pose proof (centerline_points hl segs (centerline_segment hl cl seg)) as Hmono.
    destruct (centerline_segment_cells hl cl seg cs Hcol Hoff Hlines Hcs Hlen Hseg)
      as (Hcol' & Hoff' & cs' & Hlines' & Hcs' & Hlen'); [lia |].
    by apply (IH _ cs').
Qed.

(** X15 (centerline cells).  When every edge of the result joins two
    nodes of its own segment and the overlay has fewer than 2^32 points,
    the overlay has three colour components per point, its running offset
    is its number of points, and its line array reads back as cells of at
    least two points whose indices all lie below the number of points. *)
Theorem centerline_cells (r : SegmentResult) hl cl :
  centerline (Some r) hl = Some cl →
  Forall edges_in_range (segments r) →
  (Z.of_nat (clPoints cl) < 2^32)%Z →
  0 < clPoints cl
  ∧ length (clColors cl) = clPoints cl * 3
  ∧ offset cl = Z.of_nat (clPoints cl)
  ∧ ∃ cs, cells (length (clLines cl)) (clLines cl) = Some cs
      ∧ Forall (Forall (fun i => (0 ≤ i < Z.of_nat (clPoints cl))%Z)) cs
      ∧ Forall (fun c => 2 ≤ length c) cs.
Proof.
  unfold centerline.
  set (cl0 := {| clPoints := 0; clLines := []; clColors := []; offset := 0 |}).
  destruct (Nat.ltb_spec 0 (clPoints (foldl (centerline_segment hl) cl0 (segments r))))
    as [Hpos | Hzero]; [| done].
  intros [= <-] Hedges Hbound.
  destruct (centerline_fold_cells hl (segments r) cl0 []) as (Hcol & Hoff & cs & Hlines & Hcs & Hlen);
    try done.
  split_and!; [done | done | done |].
  exists cs. split_and!; [| done | done].
  rewrite Hlines. apply cells_written, length_cells_written.
Qed.

End CellArrays.

Section ColouringLocality.
Import Api MeshConstants MeshViewer.

Implicit Types (a : list Z) (F numFaces : nat) (seg : Segment) (hl : list Z).

Lemma segment_color_palette hl seg :
  segment_color hl seg ∈
    [ HIGHLIGHT_COLOR; (90, 178, 242)%Z; (242, 140, 90)%Z; (110, 210, 110)%Z;
      (230, 100, 140)%Z; DEFAULT_MESH_COLOR; member_color ].
Proof.
  unfold segment_color, Js.get.
  destruct (includes hl (segment_id seg)); [by constructor |].
  rewrite SEGMENT_COLORS_lookup.
  repeat case_decide; try case_bool_decide;
    apply (bool_decide_unpack _); vm_compute; exact I.
Qed.

Lemma paint_segments_local numFaces hl (segs : list Segment) F : ∀ a a',
  length a = numFaces * 3 → length a' = numFaces * 3 → F < numFaces →
  get_rgb a F = get_rgb a' F →
  Forall face_indices segs →
  (∀ seg, seg ∈ segs → lists_face seg F → segment_id seg ∉ hl) →
  get_rgb (foldl (paint_segment numFaces hl) a segs) F
  = get_rgb (foldl (paint_segment numFaces []) a' segs) F.
Proof.
  induction segs as [| seg segs IH]; intros a a' Hlen Hlen' HF Hsame Hwf Hnot; [done |].
  apply Forall_cons in Hwf as [Hseg Hwf].
  cbn [foldl]. apply IH; try done.
  - by rewrite length_paint_segment.
  - by rewrite length_paint_segment.
  - destruct (lists_face_dec seg F) as [Hin | Hout].
    + rewrite !(get_paint_segment_covered numFaces _ _ seg F) by done.
      f_equal. unfold segment_color, includes.
      rewrite !bool_decide_eq_false_2; [done | apply not_elem_of_nil |].
      apply (Hnot seg); [by constructor | done].
    + by rewrite !get_paint_segment_uncovered by done.
  - intros seg' Hseg'. apply Hnot. by constructor.
Qed.

Lemma paint_segments_palette numFaces hl (segs : list Segment) F (palette : list Color) : ∀ a,
  length a = numFaces * 3 → F < numFaces →
  Forall face_indices segs →
  (∀ seg, segment_color hl seg ∈ palette) →
  (∃ c, get_rgb a F = Some c ∧ c ∈ palette) →
  ∃ c, get_rgb (foldl (paint_segment numFaces hl) a segs) F = Some c ∧ c ∈ palette.
Proof.
  induction segs as [| seg segs IH]; intros a Hlen HF Hwf Hpal Ha; [done |].
  apply Forall_cons in Hwf as [Hseg Hwf].
  cbn [foldl]. apply IH; try done.
  - by rewrite length_paint_segment.
  - destruct (lists_face_dec seg F) as [Hin | Hout].
    + rewrite (get_paint_segment_covered numFaces _ _ seg F) by done. eauto.
    + by rewrite get_paint_segment_uncovered by done.
Qed.

(** X16 (colouring is local).  When every number in the face lists of a
    result is a face index, the colouring of a face depends on the
    segments listing it only: a face of the mesh has the default colour
    when there is no segment result or when no segment lists it; the
    highlight set changes the colour of a face only if it contains the id
    of a segment listing the face; and the colour stored for a face is
    the highlight colour, one of the four table colours, the default
    colour or - for a segment whose type names a member of
    [Object.prototype] - black. *)
Theorem colouring_is_local numFaces (r : SegmentResult) hl F :
  F < numFaces →
  Forall face_indices (segments r) →
  get_rgb (face_colors numFaces None hl) F = Some DEFAULT_MESH_COLOR
  ∧ ((∀ seg, seg ∈ segments r → ¬ lists_face seg F) →
     get_rgb (face_colors numFaces (Some r) hl) F = Some DEFAULT_MESH_COLOR)
  ∧ ((∀ seg, seg ∈ segments r → lists_face seg F → segment_id seg ∉ hl) →
     get_rgb (face_colors numFaces (Some r) hl) F
     = get_rgb (face_colors numFaces (Some r) []) F)
  ∧ (∃ c, get_rgb (face_colors numFaces (Some r) hl) F = Some c
       ∧ c ∈ [ HIGHLIGHT_COLOR; (90, 178, 242)%Z; (242, 140, 90)%Z;
               (110, 210, 110)%Z; (230, 100, 140)%Z; DEFAULT_MESH_COLOR;
               (0, 0, 0)%Z ]).
Proof.
  intros HF Hwf. unfold face_colors. split_and!.
  - by apply get_default_face_colors.
  - intros Hnone.
    rewrite get_paint_segments_uncovered;
      [by apply get_default_face_colors | apply length_default_face_colors | done |].
    apply Forall_forall. intros seg Hseg. split; [| by apply Hnone].
    by apply (proj1 (Forall_forall _ _) Hwf).
  - intros Hnot. apply paint_segments_local; try done;
      apply length_default_face_colors.
  - apply paint_segments_palette; try done.
    + apply length_default_face_colors.
    + apply segment_color_palette.
    + exists DEFAULT_MESH_COLOR. split; [by apply get_default_face_colors |].
      apply (bool_decide_unpack _). vm_compute. exact I.
Qed.

(** X28 (last write wins among face indices).  When two segments of a
    result both list face [F], the later one being the last segment of
    the result that lists it, the colour stored for [F] is the colour of
    the later segment - provided the numbers listed by that segment and by
    the segments after it are face indices.  What the earlier segments
    list does not matter. *)
Theorem last_listing_segment_decides numFaces (r : SegmentResult) hl
    pre s1 mid s2 post F :
  segments r = pre ++ s1 :: mid ++ s2 :: post →
  F < numFaces →
  lists_face s1 F → lists_face s2 F →
  face_indices s2 →
  Forall (fun seg => face_indices seg ∧ ¬ lists_face seg F) post →
  get_rgb (face_colors numFaces (Some r) hl) F = Some (segment_color hl s2).
Proof.
  intros Hsegs HF _ Hin2 Hwf2 Hpost.
  apply (last_covering_segment_wins numFaces r hl (pre ++ s1 :: mid) s2 post);
    [| done ..].
  by rewrite Hsegs, <- app_assoc.
Qed.

End ColouringLocality.

(* ===================================================================== *)
(** * The viewer over its life *)
(* ===================================================================== *)

Section ViewerLifecycle.
Import Api MeshViewer.

Implicit Types (v : Viewer) (p : Props) (c : Component) (sc : Scene).

(** What an update of one scene does to the scene at [j]. *)
Lemma lookup_alter_scene (f : Scene → Scene) i j (l : list Scene) sc' :
  alter f i l !! j = Some sc' →
  ∃ sc, l !! j = Some sc ∧ ((i ≠ j ∧ sc' = sc) ∨ (i = j ∧ sc' = f sc)).
Proof.
  destruct (decide (i = j)) as [<- | Hne].
  - rewrite list_lookup_alter_eq. destruct (l !! i) as [sc |]; [| done].
    intros [= <-]. eauto.
  - rewrite list_lookup_alter_ne by done. eauto.
Qed.

Lemma is_Some_None_false {A} : is_Some (@None A) → False.
Proof. by intros [? ?]. Qed.

Ltac no_frame :=
  try done;
  try (by intros ?%is_Some_None_false);
  try (by intros _ ?%is_Some_None_false).

Lemma consistent_render_cleanup v :
  consistent v → consistent (render_cleanup v) ∧ vtkContextRef (render_cleanup v) = None.
Proof.
  destruct v as [cont mesh ctx actor ren win rot raf scs frs cl].
  unfold consistent, render_cleanup, stopRotation. cbn.
  intros (_ & _ & _ & Hone & Hctx & _ & _).
  destruct ctx as [h |]; cbn; (split; [| done]); split_and!; no_frame.
  - intros i sc' Hi Hd. apply lookup_alter_scene in Hi as (sc & Hi & [[Hne ->] | [-> ->]]).
    + specialize (Hone i sc Hi Hd). congruence.
    + done.
Qed.

Lemma consistent_opacity_effect p v : consistent v → consistent (opacity_effect p v).
Proof.
  destruct v as [cont mesh ctx actor ren win rot raf scs frs cl].
  unfold consistent, opacity_effect. cbn.
  intros (-> & -> & -> & Hone & Hctx & Hp1 & Hp2).
  destruct ctx as [h |]; [| done]. cbn. split_and!; no_frame.
  - intros i sc' Hi Hd.
    apply lookup_alter_scene in Hi as (sc1 & Hi & Hsc').
    apply lookup_alter_scene in Hi as (sc & Hi & Hsc1).
    apply (Hone i sc Hi).
    destruct Hsc' as [[_ ->] | [_ ->]], Hsc1 as [[_ ->] | [_ ->]]; done.
  - intros i [= <-]. destruct (Hctx h eq_refl) as (Hcl & sc & Hsc & Hd).
    split; [done |]. rewrite !list_lookup_alter_eq, Hsc. cbn. eauto.
Qed.

Lemma vtkContextRef_opacity_effect p v :
  vtkContextRef (opacity_effect p v) = vtkContextRef v
  ∧ cleanup (opacity_effect p v) = cleanup v.
Proof. unfold opacity_effect. by destruct (surfaceActorRef v), (renderWindowRef v). Qed.

Lemma consistent_set_cleanup_false v :
  consistent v → vtkContextRef v = None → consistent (set_cleanup false v).
Proof.
  destruct v as [cont mesh ctx actor ren win rot raf scs frs cl].
  unfold consistent. cbn. intros (-> & -> & -> & Hone & Hctx & Hp1 & Hp2) ->.
  split_and!; no_frame.
Qed.

Lemma consistent_render_effect p v :
  consistent v → vtkContextRef v = None → consistent (render_effect p v).
Proof.
  intros Hc Hnone. unfold render_effect.
  destruct (surfaceMesh v) as [mesh |] eqn:Hm; [| by apply consistent_set_cleanup_false].
  destruct (_ || _); [by apply consistent_set_cleanup_false |].
  rewrite Hnone.
  destruct v as [cont mesh0 ctx actor ren win rot raf scs frs cl].
  unfold consistent in *. cbn in *. subst ctx.
  destruct Hc as (-> & -> & -> & Hone & Hctx & Hp1 & Hp2).
  assert (∀ i sc, (scs ++ [build_scene (val mesh) p]) !! i = Some sc →
                  deleted sc = false → Some (length scs) = Some i) as Hone'.
  { intros i sc Hi Hd. f_equal.
    destruct (decide (i < length scs)) as [Hlt | Hge].
    - rewrite lookup_app_l in Hi by done. by specialize (Hone i sc Hi Hd).
    - apply lookup_lt_Some in Hi. rewrite length_app in Hi. cbn in Hi. lia. }
  assert (∃ sc, (scs ++ [build_scene (val mesh) p]) !! length scs = Some sc
                ∧ deleted sc = false) as Hnew.
  { exists (build_scene (val mesh) p).
    by rewrite lookup_app_r, Nat.sub_diag by lia. }
  destruct rot; cbn; [destruct raf; cbn |]; split_and!; no_frame; eauto;
    try (by intros i [= <-]).
Qed.

Lemma consistent_commit oc rc p v : consistent v → consistent (commit oc rc p v).
Proof.
  intros Hc. unfold commit.
  destruct rc; cbn [andb].
  - apply consistent_render_effect.
    + destruct (cleanup v); destruct oc;
        try apply consistent_opacity_effect; try done;
        by apply consistent_render_cleanup.
    + assert (vtkContextRef (if cleanup v then render_cleanup v else v) = None) as Hn.
      { destruct (cleanup v) eqn:Hcl; [by apply consistent_render_cleanup |].
        destruct (vtkContextRef v) as [h |] eqn:Hh; [| done].
        destruct Hc as (_ & _ & _ & _ & Hctx & _). destruct (Hctx h Hh). congruence. }
      destruct oc; [| done]. by rewrite (proj1 (vtkContextRef_opacity_effect _ _)).
  - destruct oc; [by apply consistent_opacity_effect | done].
Qed.

Lemma consistent_toggleRotation v : consistent v → consistent (toggleRotation v).
Proof.
  destruct v as [cont mesh ctx actor ren win rot raf scs frs cl].
  unfold consistent, toggleRotation, startRotation, stopRotation. cbn.
  intros (-> & -> & -> & Hone & Hctx & Hp1 & Hp2).
  destruct rot; cbn; [| destruct raf; cbn]; split_and!; no_frame; eauto.
Qed.

Lemma consistent_frame v : consistent v → consistent (frame v).
Proof.
  destruct v as [cont mesh ctx actor ren win rot raf scs frs cl].
  unfold consistent, frame, animate, requestAnimationFrame. cbn.
  intros (-> & -> & -> & Hone & Hctx & Hp1 & Hp2).
  destruct raf as [k |]; [| done]. cbn.
  rewrite (Hp1 (ltac:(eauto))). cbn.
  destruct ctx as [h |]; cbn; split_and!; no_frame; eauto.
  - intros i sc' Hi Hd. apply lookup_alter_scene in Hi as (sc & Hi & Hsc').
    apply (Hone i sc Hi). by destruct Hsc' as [[_ ->] | [_ ->]].
  - intros i [= <-]. destruct (Hctx h eq_refl) as (Hcl & sc & Hsc & Hd).
    split; [done |]. rewrite list_lookup_alter_eq, Hsc. cbn. eauto.
Qed.

Lemma consistent_unmount v :
  consistent v → consistent (unmount v) ∧ vtkContextRef (unmount v) = None.
Proof.
  intros Hc. unfold unmount. destruct (cleanup v) eqn:Hcl.
  - destruct (consistent_render_cleanup v Hc) as [Hc' Hn].
    split; [by apply consistent_set_cleanup_false | done].
  - destruct (vtkContextRef v) as [h |] eqn:Hh; [| done].
    destruct Hc as (_ & _ & _ & _ & Hctx & _). destruct (Hctx h Hh). congruence.
Qed.

Lemma consistent_ext v v' :
  vtkContextRef v' = vtkContextRef v → surfaceActorRef v' = surfaceActorRef v →
  rendererRef v' = rendererRef v → renderWindowRef v' = renderWindowRef v →
  rotatingRef v' = rotatingRef v → rafIdRef v' = rafIdRef v →
  scenes v' = scenes v → cleanup v' = cleanup v →
  consistent v → consistent v'.
Proof. unfold consistent. by intros -> -> -> -> -> -> -> ->. Qed.


(** The effects leave the mesh, the container and the rotation switch as
    they are. *)
Lemma render_cleanup_keeps v :
  surfaceMesh (render_cleanup v) = surfaceMesh v
  ∧ containerRef (render_cleanup v) = containerRef v
  ∧ rotatingRef (render_cleanup v) = rotatingRef v.
Proof. unfold render_cleanup. cbn. by destruct (vtkContextRef v). Qed.

Lemma opacity_effect_keeps p v :
  surfaceMesh (opacity_effect p v) = surfaceMesh v
  ∧ containerRef (opacity_effect p v) = containerRef v
  ∧ rotatingRef (opacity_effect p v) = rotatingRef v.
Proof. unfold opacity_effect. by destruct (surfaceActorRef v), (renderWindowRef v). Qed.

Lemma render_effect_keeps p v :
  surfaceMesh (render_effect p v) = surfaceMesh v
  ∧ containerRef (render_effect p v) = containerRef v
  ∧ rotatingRef (render_effect p v) = rotatingRef v.
Proof.
  destruct v as [cont mesh ctx actor ren win rot raf scs frs cl].
  unfold render_effect, startRotation. cbn.
  destruct mesh as [mesh |]; [| done].
  destruct (_ || _); [done |]. by destruct ctx, rot, raf.
Qed.

Lemma commit_keeps oc rc p v :
  surfaceMesh (commit oc rc p v) = surfaceMesh v
  ∧ containerRef (commit oc rc p v) = containerRef v
  ∧ rotatingRef (commit oc rc p v) = rotatingRef v.
Proof.
  unfold commit.
  set (v1 := if rc && cleanup v then render_cleanup v else v).
  assert (surfaceMesh v1 = surfaceMesh v ∧ containerRef v1 = containerRef v
          ∧ rotatingRef v1 = rotatingRef v) as (E1 & E2 & E3)
    by (unfold v1; destruct (rc && cleanup v); [apply render_cleanup_keeps | done]).
  set (v2 := if oc then opacity_effect p v1 else v1).
  assert (surfaceMesh v2 = surfaceMesh v ∧ containerRef v2 = containerRef v
          ∧ rotatingRef v2 = rotatingRef v) as (F1 & F2 & F3).
  { unfold v2. destruct oc; [| done].
    destruct (opacity_effect_keeps p v1) as (-> & -> & ->). done. }
  destruct rc; [| done].
  destruct (render_effect_keeps p v2) as (-> & -> & ->). done.
Qed.

Lemma wellformed_mount uid sessionId p : wellformed (mount uid sessionId p).
Proof.
  unfold wellformed, mount, consistent, fetch_effect. cbn.
  split_and!; no_frame.
  by destruct (_ || _).
Qed.

Lemma fetch_settled_mesh outcome f mesh :
  (∀ m, mesh = Some m → vertices (val m) ≠ [] ∧ faces (val m) ≠ []) →
  ∀ m, (fetch_settled outcome f mesh).2 = Some m →
       vertices (val m) ≠ [] ∧ faces (val m) ≠ [].
Proof.
  intros Hmesh m. unfold fetch_settled.
  destruct outcome as [data | message]; [| apply Hmesh].
  destruct (vertices (val data)) as [| x xs] eqn:Hv; [apply Hmesh |].
  destruct (faces (val data)) as [| y ys] eqn:Hf; [apply Hmesh |].
  cbn. intros [= <-]. by rewrite Hv, Hf.
Qed.

Lemma toggleRotation_keeps v :
  surfaceMesh (toggleRotation v) = surfaceMesh v
  ∧ containerRef (toggleRotation v) = containerRef v.
Proof. by destruct v as [? ? ? ? ? ? [] [] ? ? ?]. Qed.

Lemma frame_keeps v :
  surfaceMesh (frame v) = surfaceMesh v ∧ containerRef (frame v) = containerRef v.
Proof. unfold frame, animate. by destruct v as [? ? ? ? [] [] [] [] ? ? ?]. Qed.

Lemma unmount_keeps v :
  surfaceMesh (unmount v) = surfaceMesh v ∧ containerRef (unmount v) = containerRef v.
Proof. unfold unmount, render_cleanup. by destruct v as [? ? [] ? ? ? ? ? ? ? []]. Qed.

Lemma wellformed_perform op c : wellformed c → wellformed (perform c op).
Proof.
  intros (Hc & Hmesh & Hcont).
  destruct op as [p' | uid sessionId | fetched | | |]; cbn [perform].
  - unfold rerender.
    destruct (commit_keeps (opacity_deps_changed (props c) p')
                (render_deps_changed (surfaceMesh (viewer c)) (surfaceMesh (viewer c))
                   (props c) p') p' (viewer c)) as (Hm & Hk & _).
    unfold wellformed. cbn [viewer fetch]. rewrite Hm, Hk.
    split_and!; [by apply consistent_commit | done | done].
  - unfold wellformed. cbn. split_and!; [| done | done].
    by apply (consistent_ext (viewer c)).
  - destruct (fetch_settled (getSurfaceMesh fetched) (fetch c) (surfaceMesh (viewer c)))
      as [f mesh] eqn:Hset.
    match goal with
    | |- wellformed (mkComponent _ _ (commit ?oc ?rc ?p ?v)) =>
        destruct (commit_keeps oc rc p v) as (Hm & Hk & _);
        unfold wellformed; cbn [viewer fetch]; rewrite Hm, Hk
    end.
    split_and!.
    + apply consistent_commit. by apply (consistent_ext (viewer c)).
    + cbn. intros m Hmm.
      apply (fetch_settled_mesh (getSurfaceMesh fetched) (fetch c) _ Hmesh).
      by rewrite Hset.
    + done.
  - destruct (toggleRotation_keeps (viewer c)) as (Hm & Hk).
    unfold wellformed. cbn [viewer fetch]. rewrite Hm, Hk.
    split_and!; [by apply consistent_toggleRotation | done | done].
  - destruct (frame_keeps (viewer c)) as (Hm & Hk).
    unfold wellformed. cbn [viewer fetch]. rewrite Hm, Hk.
    split_and!; [by apply consistent_frame | done | done].
  - destruct (unmount_keeps (viewer c)) as (Hm & Hk).
    unfold wellformed. cbn [viewer fetch]. rewrite Hm, Hk.
    split_and!; [by apply consistent_unmount | done | done].
Qed.

Lemma wellformed_run ops c : wellformed c → wellformed (run ops c).
Proof.
  revert c. induction ops as [| op ops IH]; intros c Hc; [done |].
  apply IH. by apply wellformed_perform.
Qed.


(** A deleted scene is not touched again. *)
Lemma live_scene_not_deleted v i sc :
  consistent v → scenes v !! i = Some sc → deleted sc = true → vtkContextRef v ≠ Some i.
Proof.
  intros (_ & _ & _ & _ & Hctx & _) Hi Hd Hh.
  destruct (Hctx i Hh) as (_ & sc' & Hsc' & Hd'). congruence.
Qed.

Lemma deleted_kept_render_cleanup v i sc :
  consistent v → scenes v !! i = Some sc → deleted sc = true →
  scenes (render_cleanup v) !! i = Some sc.
Proof.
  intros Hc Hi Hd. pose proof (live_scene_not_deleted v i sc Hc Hi Hd) as Hne.
  destruct v as [cont mesh ctx actor ren win rot raf scs frs cl].
  unfold render_cleanup. cbn in *. destruct ctx as [h |]; cbn; [| done].
  by rewrite list_lookup_alter_ne by congruence.
Qed.

Lemma deleted_kept_opacity_effect p v i sc :
  consistent v → scenes v !! i = Some sc → deleted sc = true →
  scenes (opacity_effect p v) !! i = Some sc.
Proof.
  intros Hc Hi Hd. pose proof (live_scene_not_deleted v i sc Hc Hi Hd) as Hne.
  destruct Hc as (Ha & _ & Hwin & _).
  destruct v as [cont mesh ctx actor ren win rot raf scs frs cl].
  unfold opacity_effect. cbn in *. subst actor win.
  destruct ctx as [h |]; cbn; [| done].
  by rewrite !list_lookup_alter_ne by congruence.
Qed.

Lemma scenes_render_effect p v :
  vtkContextRef v = None →
  scenes (render_effect p v) = scenes v
  ∨ ∃ mesh, surfaceMesh v = Some mesh ∧ containerRef v = true
      ∧ vertices (val mesh) ≠ [] ∧ faces (val mesh) ≠ []
      ∧ scenes (render_effect p v) = scenes v ++ [build_scene (val mesh) p]
      ∧ vtkContextRef (render_effect p v) = Some (length (scenes v)).
Proof.
  destruct v as [cont mesh ctx actor ren win rot raf scs frs cl]. cbn. intros ->.
  unfold render_effect. cbn.
  destruct mesh as [mesh |]; [| by left].
  destruct cont; [| by left]. cbn.
  destruct (vertices (val mesh)) as [| x xs] eqn:Hv; [by left |].
  destruct (faces (val mesh)) as [| y ys] eqn:Hf; [by left |].
  cbn. right. exists mesh. rewrite Hv, Hf.
  destruct rot; [destruct raf |]; cbn; split_and!; done.
Qed.

Lemma deleted_kept_commit oc rc p v i sc :
  consistent v →
  scenes v !! i = Some sc → deleted sc = true →
  scenes (commit oc rc p v) !! i = Some sc.
Proof.
  intros Hc Hi Hd. unfold commit.
  set (v1 := if rc && cleanup v then render_cleanup v else v).
  assert (consistent v1 ∧ scenes v1 !! i = Some sc
          ∧ (rc = true → vtkContextRef v1 = None)) as (Hc1 & Hi1 & Hn1).
  { unfold v1. destruct rc; cbn [andb]; [| done].
    destruct (cleanup v) eqn:Hcl.
    - destruct (consistent_render_cleanup v Hc).
      split_and!; [done | by apply deleted_kept_render_cleanup | done].
    - split_and!; [done | done |]. intros _.
      destruct (vtkContextRef v) as [h |] eqn:Hh; [| done].
      destruct Hc as (_ & _ & _ & _ & Hctx & _). destruct (Hctx h Hh). congruence. }
  set (v2 := if oc then opacity_effect p v1 else v1).
  assert (consistent v2 ∧ scenes v2 !! i = Some sc
          ∧ (rc = true → vtkContextRef v2 = None)) as (Hc2 & Hi2 & Hn2).
  { unfold v2. destruct oc; [| done].
    split_and!; [by apply consistent_opacity_effect
                | by apply deleted_kept_opacity_effect |].
    by rewrite (proj1 (vtkContextRef_opacity_effect _ _)). }
  destruct rc; [| done].
  destruct (scenes_render_effect p v2 (Hn2 eq_refl)) as [-> | (m & _ & _ & _ & _ & -> & _)];
    [done |].
  rewrite lookup_app_l; [done | by eapply lookup_lt_Some].
Qed.

Lemma deleted_kept_perform op c i sc :
  wellformed c →
  scenes (viewer c) !! i = Some sc → deleted sc = true →
  scenes (viewer (perform c op)) !! i = Some sc.
Proof.
  intros (Hc & _ & _) Hi Hd.
  destruct op as [p' | uid sessionId | fetched | | |]; cbn [perform viewer].
  - by apply deleted_kept_commit.
  - done.
  - destruct (fetch_settled _ _ _) as [f mesh]. cbn [viewer].
    apply deleted_kept_commit; [| done | done].
    by apply (consistent_ext (viewer c)).
  - by destruct (viewer c) as [? ? ? ? ? ? [] [] ? ? ?].
  - destruct (viewer c) as [cont mesh ctx actor ren win rot raf scs frs cl].
    unfold consistent in Hc. cbn in *.
    destruct Hc as (-> & -> & -> & Hone & Hctx & _ & _).
    assert (ctx ≠ Some i) as Hne.
    { intros ->. destruct (Hctx i eq_refl) as (_ & sc' & Hsc' & Hd'). congruence. }
    unfold frame, animate. destruct raf, rot, ctx; cbn;
      rewrite ?list_lookup_alter_ne by congruence; done.
  - destruct (viewer c) as [cont mesh ctx actor ren win rot raf scs frs cl].
    unfold consistent in Hc. cbn in *.
    destruct Hc as (-> & -> & -> & Hone & Hctx & _ & _).
    assert (ctx ≠ Some i) as Hne.
    { intros ->. destruct (Hctx i eq_refl) as (_ & sc' & Hsc' & Hd'). congruence. }
    unfold unmount, render_cleanup. destruct cl, ctx; cbn;
      rewrite ?list_lookup_alter_ne by congruence; done.
Qed.

(** X17 (one scene at a time).  Whatever happens to a mounted viewer -
    new props, a session change, settled fetches, rotation toggles,
    animation frames, unmounting - a scene that has not been deleted is
    the one all four refs point to, so there is at most one; a deleted
    scene is never written to again; and unmounting deletes the scene that
    is left. *)
Theorem one_live_scene uid sessionId p (ops : list Op) :
  let c := run ops (mount uid sessionId p) in
  let v := viewer c in
  (∀ i sc, scenes v !! i = Some sc → deleted sc = false →
     vtkContextRef v = Some i ∧ surfaceActorRef v = Some i
     ∧ rendererRef v = Some i ∧ renderWindowRef v = Some i)
  ∧ (∀ i j sci scj, scenes v !! i = Some sci → scenes v !! j = Some scj →
       deleted sci = false → deleted scj = false → i = j)
  ∧ (∀ op i sc, scenes v !! i = Some sc → deleted sc = true →
       scenes (viewer (perform c op)) !! i = Some sc)
  ∧ (∀ sc, sc ∈ scenes (unmount v) → deleted sc = true).
Proof.
  cbn zeta.
  pose proof (wellformed_run ops _ (wellformed_mount uid sessionId p)) as Hw.
  set (c := run ops (mount uid sessionId p)) in *.
  pose proof Hw as ((Ha & Hr & Hwin & Hone & Hctx & _ & _) & _ & _).
  split_and!.
  - intros i sc Hi Hd. rewrite Ha, Hr, Hwin. split_and!; by apply (Hone i sc).
  - intros i j sci scj Hi Hj Hdi Hdj.
    pose proof (Hone i sci Hi Hdi). pose proof (Hone j scj Hj Hdj). congruence.
  - intros op i sc. by apply deleted_kept_perform.
  - intros sc [i Hi]%list_elem_of_lookup.
    destruct (consistent_unmount (viewer c) (proj1 Hw)) as [(_ & _ & _ & Hone' & _) Hn].
    destruct (deleted sc) eqn:Hd; [done |].
    specialize (Hone' i sc Hi Hd). congruence.
Qed.

(** X18 (rotation loop).  For a viewer reached in any way, a frame is
    requested only while the rotation is on, and while it is on and a
    scene is displayed a frame is always requested.  [toggleRotation]
    flips [isRotating], leaves a frame requested exactly when the rotation
    is then on, leaves the scenes alone, and applied twice restores
    [isRotating]; with the rotation off the browser has no frame to
    run. *)
Theorem rotation_frames uid sessionId p (ops : list Op) :
  let v := viewer (run ops (mount uid sessionId p)) in
  (is_Some (rafIdRef v) → isRotating v = true)
  ∧ (isRotating v = true → is_Some (vtkContextRef v) → is_Some (rafIdRef v))
  ∧ isRotating (toggleRotation v) = negb (isRotating v)
  ∧ (is_Some (rafIdRef (toggleRotation v)) ↔ isRotating (toggleRotation v) = true)
  ∧ isRotating (toggleRotation (toggleRotation v)) = isRotating v
  ∧ scenes (toggleRotation v) = scenes v
  ∧ (isRotating v = false → frame v = v).
Proof.
  cbn zeta.
  pose proof (wellformed_run ops _ (wellformed_mount uid sessionId p)) as Hw.
  set (v := viewer (run ops (mount uid sessionId p))) in *.
  destruct Hw as ((_ & _ & _ & _ & _ & Hp1 & Hp2) & _ & _).
  fold v in Hp1, Hp2. unfold isRotating.
  split_and!; try done.
  - by destruct v as [? ? ? ? ? ? [] [] ? ? ?].
  - destruct v as [? ? ? ? ? ? [] [] ? ? ?]; cbn; split; no_frame; eauto.
  - by destruct v as [? ? ? ? ? ? [] [] ? ? ?].
  - by destruct v as [? ? ? ? ? ? [] [] ? ? ?].
  - intros Hoff. unfold frame. destruct (rafIdRef v) eqn:Hraf; [| done].
    rewrite Hp1 in Hoff by eauto. done.
Qed.

Lemma shows_container_true f mesh :
  shows_container f mesh = true → loading f = false ∧ is_Some mesh.
Proof.
  unfold shows_container, view.
  destruct (loading f); [done |].
  destruct (error f) as [e |]; [destruct (negb _) |]; destruct mesh; try done; eauto.
Qed.


Lemma render_effect_builds p v mesh :
  vtkContextRef v = None → surfaceMesh v = Some mesh → containerRef v = true →
  vertices (val mesh) ≠ [] → faces (val mesh) ≠ [] →
  scenes (render_effect p v) = scenes v ++ [build_scene (val mesh) p]
  ∧ vtkContextRef (render_effect p v) = Some (length (scenes v)).
Proof.
  destruct v as [cont mesh0 ctx actor ren win rot raf scs frs cl]. cbn.
  intros -> -> -> Hv Hf. unfold render_effect, startRotation. cbn.
  destruct (vertices (val mesh)) as [| x xs] eqn:Ev; [done |].
  destruct (faces (val mesh)) as [| y ys] eqn:Ef; [done |]. cbn.
  destruct rot; [destruct raf |]; cbn; by rewrite ?Ev, ?Ef.
Qed.

Lemma length_scenes_render_cleanup v :
  length (scenes (render_cleanup v)) = length (scenes v).
Proof.
  unfold render_cleanup. cbn. destruct (vtkContextRef v); cbn; by rewrite ?length_alter.
Qed.

Lemma opacity_effect_no_actor p v : surfaceActorRef v = None → opacity_effect p v = v.
Proof. unfold opacity_effect. by intros ->. Qed.

(** X20 (a changed dependency repaints).  While the container is
    mounted, new props that differ in a dependency of the render effect -
    the identity of the segment result or of the highlight array, or the
    opacity - leave the viewer with a newly built scene as the one on
    display, built from the mesh held and the new props: its colour buffer
    is the colouring of the new segment result and highlight set. *)
Theorem dependency_change_rebuilds uid sessionId p (ops : list Op) (p' : Props) :
  let c := run ops (mount uid sessionId p) in
  containerRef (viewer c) = true →
  render_deps_changed (surfaceMesh (viewer c)) (surfaceMesh (viewer c)) (props c) p'
    = true →
  let v' := viewer (perform c (SetProps p')) in
  ∃ mesh,
    surfaceMesh (viewer c) = Some mesh
    ∧ vtkContextRef v' = Some (length (scenes (viewer c)))
    ∧ scenes v' !! length (scenes (viewer c)) = Some (build_scene (val mesh) p')
    ∧ (SegmentColors <$> scenes v' !! length (scenes (viewer c)))
      = Some (face_colors (length (faces (val mesh))) (val <$> segmentResult p')
                (val (highlightIds p'))).
Proof.
  cbn zeta.
  pose proof (wellformed_run ops _ (wellformed_mount uid sessionId p)) as Hw.
  set (c := run ops (mount uid sessionId p)) in *.
  destruct Hw as (Hc & Hmesh & Hcont).
  intros Hmounted Hchanged.
  destruct (shows_container_true _ _ (eq_trans (eq_sym Hcont) Hmounted))
    as (_ & mesh & Hm).
  destruct (Hmesh mesh Hm) as (Hv & Hf).
  exists mesh. split; [done |].
  cbn [perform viewer]. unfold rerender. rewrite Hchanged.
  set (v := viewer c) in *. unfold commit. cbn [andb].
  set (v1 := if cleanup v then render_cleanup v else v).
  assert (consistent v1 ∧ vtkContextRef v1 = None
          ∧ length (scenes v1) = length (scenes v)
          ∧ surfaceMesh v1 = Some mesh ∧ containerRef v1 = true)
    as (Hc1 & Hn1 & Hl1 & Hm1 & Hk1).
  { unfold v1. destruct (cleanup v) eqn:Hcl.
    - destruct (consistent_render_cleanup v Hc) as [? ?].
      destruct (render_cleanup_keeps v) as (-> & -> & _).
      by rewrite length_scenes_render_cleanup.
    - split_and!; try done.
      destruct (vtkContextRef v) as [h |] eqn:Hh; [| done].
      destruct Hc as (_ & _ & _ & _ & Hctx & _). destruct (Hctx h Hh). congruence. }
  assert ((if opacity_deps_changed (props c) p' then opacity_effect p' v1 else v1) = v1)
    as ->.
  { destruct (opacity_deps_changed _ _); [| done]. apply opacity_effect_no_actor.
    destruct Hc1 as (-> & _). done. }
  destruct (render_effect_builds p' v1 mesh Hn1 Hm1 Hk1 Hv Hf) as (Hs & Hh).
  rewrite Hs, Hh, Hl1.
  split; [done |].
  rewrite <- Hl1, lookup_app_r, Nat.sub_diag by lia. done.
Qed.

End ViewerLifecycle.

(* ===================================================================== *)
(** * The commands of the page *)
(* ===================================================================== *)

Section PageCommands.
Import Api Dashboard.

Implicit Types (s : State) (h : ShapeSocket.State).

Lemma hook_id s : hook (fun h => h) s = s.
Proof. by destruct s. Qed.

(** X21 (sending a chat message).  [handleSendMessage] returns at once,
    with nothing written, when the input is blank after trimming, when no
    session is active or while the phase is a processing one.  Past this
    guard the trimmed input joins the transcript as a user message and
    the input is cleared, whether or not the socket is open.  With the
    socket open one query frame with the trimmed input is sent on it and
    the phase becomes [parsing_query], so that any further message is
    turned away by the guard until the phase changes; with the socket not
    open nothing is sent and the hook is left as it was, although the
    message is in the transcript. *)
Theorem send_message_guard (c : Chat) s :
  let r := submitMessage c s in
  (trim (chatInput c) = "" ∨ nonempty (activeSession s) = false
   ∨ isProcessing (ShapeSocket.phase (socket s)) = true →
   r = (c, s))
  ∧ (trim (chatInput c) ≠ "" → nonempty (activeSession s) = true →
     isProcessing (ShapeSocket.phase (socket s)) = false →
     chatInput r.1 = ""
     ∧ messages r.1
       = messages c ++ [ {| role := "user"; text := trim (chatInput c) |} ]
     ∧ ((∀ ws, ShapeSocket.wsRef (socket s) = Some ws →
           ShapeSocket.is_open ws (socket s) = false) →
        r.2 = s)
     ∧ (∀ ws, ShapeSocket.wsRef (socket s) = Some ws →
          ShapeSocket.is_open ws (socket s) = true →
          ShapeSocket.sent (socket r.2)
          = ShapeSocket.sent (socket s) ++ [ (ws, Query (trim (chatInput c))) ]
          ∧ ShapeSocket.phase (socket r.2) = "parsing_query"
          ∧ ShapeSocket.expectingRef (socket r.2) = Some ShapeSocket.query
          ∧ ∀ next, submitMessage next r.2 = (next, r.2)))
  ∧ r.2 = handleSendMessage (chatInput c) s.
Proof.
  cbn zeta. unfold submitMessage, handleSendMessage. split_and!.
  - intros [Hblank | [Hnone | Hbusy]].
    + by rewrite Hblank.
    + rewrite Hnone. by rewrite orb_true_r.
    + rewrite Hbusy. by rewrite orb_true_r.
  - intros Htext Hact Hidle.
    rewrite (proj2 (String.eqb_neq _ _) Htext), Hact, Hidle. cbn [orb negb fst snd].
    split_and!; try done.
    + intros Hclosed. unfold hook.
      rewrite (proj2 (commands_not_open (socket s) Hclosed)).
      by destruct s.
    + intros ws Hw Hopen. cbn [socket hook].
      rewrite (sendQuery_open ws (trim (chatInput c)) (socket s) Hw Hopen).
      split_and!; try done.
      intros next. cbn. by rewrite orb_true_r.
  - by destruct (_ || _).
Qed.

(** The page once the stored segments [r] have been put into the hook. *)
Lemma restored_deps (r : Obj SegmentResult) s :
  deps_of (restoreSegments (Some r) s)
  = {| dep_phase := "segment_done"; dep_segmentResult := Some (addr r);
       dep_activeSession := activeSession s |}.
Proof. reflexivity. Qed.

(** X22 (restoring segments).  The continuation of [handleSelectSession]
    that receives the stored segments, taken with the effects it sets
    off, on a page that has rendered.  Without a result - a 404, any other
    failed answer, a rejected request, a body that is [null] - the hook,
    the flags and the active session stay as they are.  With a result
    the hook stores it and the phase becomes [segment_done]; if
    [freshSegmentationRef] is clear, that is all: no frame is sent.  If
    the flag is still set and the phase was not [segment_done] before,
    the effect that follows a fresh segmentation fires on the restored
    result: it clears the flag and the pending prompt and calls
    [sendQuery] with the automatic prompt. *)
Theorem restore_needs_stored_result BACKEND uid
    (fetched : Promise (Response (option (Obj SegmentResult)))) s :
  rendered s = deps_of s →
  let s' := step BACKEND uid s (SegmentsLoaded (loaded_segments fetched)) in
  (loaded_segments fetched = None → s' = s)
  ∧ (∀ r, loaded_segments fetched = Some r →
       ∃ res, fetched = Fulfilled res ∧ ok res = true
         ∧ json res = Fulfilled (Some r))
  ∧ (∀ r, loaded_segments fetched = Some r → freshSegmentationRef s = false →
       socket s'
       = ShapeSocket.setPhase "segment_done"
           (ShapeSocket.setSegmentResult (Some r) (socket s))
       ∧ ShapeSocket.sent (socket s') = ShapeSocket.sent (socket s)
       ∧ freshSegmentationRef s' = false
       ∧ needsSegmentationRef s' = needsSegmentationRef s
       ∧ pendingPromptRef s' = pendingPromptRef s
       ∧ activeSession s' = activeSession s)
  ∧ (∀ r, loaded_segments fetched = Some r → freshSegmentationRef s = true →
       ShapeSocket.phase (socket s) ≠ "segment_done" →
       socket s'
       = ShapeSocket.sendQuery (auto_prompt (pendingPromptRef s))
           (ShapeSocket.setPhase "segment_done"
              (ShapeSocket.setSegmentResult (Some r) (socket s)))
       ∧ freshSegmentationRef s' = false
       ∧ pendingPromptRef s' = None
       ∧ needsSegmentationRef s' = needsSegmentationRef s
       ∧ activeSession s' = activeSession s).
Proof.
  intros Hrendered. cbn zeta. unfold step. cbn [handle]. split_and!.
  - intros ->. cbn [restoreSegments]. by apply settle_stable.
  - intros r. unfold loaded_segments, getSegments.
    destruct fetched as [res | message]; [| done].
    destruct (status res =? 404)%Z; [done |].
    destruct (ok res) eqn:Hok; [| done]. cbn [negb].
    destruct (json res) as [[r' |] | message] eqn:Hjson; try done.
    intros [= ->]. by exists res.
  - intros r -> Hfresh.
    rewrite (settle_quiet 2).
    + split_and!; try done.
    + unfold quiet. cbn. by rewrite Hfresh.
  - intros r -> Hfresh Hphase.
    set (h1 := restoreSegments (Some r) s).
    assert (deps1_changed (rendered h1) (deps_of h1) = true) as Hchanged.
    { unfold h1. rewrite restored_deps. cbn [rendered restoreSegments hook set_rendered].
      change (rendered (hook _ (hook _ s))) with (rendered s).
      rewrite Hrendered. unfold deps1_changed. cbn [dep_phase deps_of].
      by rewrite (proj2 (String.eqb_neq _ _) Hphase). }
    rewrite settle_S, Hchanged. cbn [orb].
    assert (commit h1
            = s |> set_rendered (deps_of h1)
                |> set_freshSegmentationRef false
                |> set_pendingPromptRef None
                |> hook (fun h =>
                     ShapeSocket.sendQuery (auto_prompt (pendingPromptRef s))
                       (ShapeSocket.setPhase "segment_done"
                          (ShapeSocket.setSegmentResult (Some r) h)))) as Hcommit.
    { unfold commit. rewrite Hchanged.
      unfold segment_done_effect, connected_effect, h1.
      rewrite restored_deps. cbn [dep_phase dep_segmentResult].
      cbn -[ShapeSocket.sendQuery deps4_changed]. rewrite Hfresh.
      cbn -[ShapeSocket.sendQuery deps4_changed].
      by destruct (deps4_changed _ _). }
    rewrite Hcommit. rewrite (settle_quiet 1).
    + split_and!; try done.
    + unfold quiet. cbn -[ShapeSocket.sendQuery].
      split; [by rewrite andb_false_r |].
      destruct (phase_sendQuery (auto_prompt (pendingPromptRef s))
                  (ShapeSocket.setPhase "segment_done"
                     (ShapeSocket.setSegmentResult (Some r) (socket s))))
        as [-> | ->]; done.
Qed.

Lemma phase_labels_lookup (phase : string) :
  phase_labels !! phase =
    if decide ("connecting" = phase) then Some "Connecting…"
    else if decide ("connected" = phase) then Some "Connected"
    else if decide ("segmenting" = phase) then Some "Segmenting mesh…"
    else if decide ("segmented" = phase) then Some "Segments found"
    else if decide ("downsampling" = phase) then Some "Downsampling…"
    else if decide ("downsampled" = phase) then Some "Downsampled"
    else if decide ("embedding" = phase) then Some "Computing embeddings…"
    else if decide ("embedded" = phase) then Some "Embeddings ready"
    else if decide ("stored" = phase) then Some "Saving results…"
    else if decide ("segment_done" = phase) then Some "Segmentation complete"
    else if decide ("parsing_query" = phase) then Some "Understanding question…"
    else if decide ("tool_call" = phase) then Some "Running analysis…"
    else if decide ("query_done" = phase) then Some "Done"
    else None.
Proof.
  unfold phase_labels. cbn [list_to_map foldr uncurry fst snd].
  rewrite !lookup_insert. repeat case_decide; try done.
Qed.

Ltac in_list := apply (bool_decide_unpack _); vm_compute; exact I.

(** X23 (processing phases).  Every phase the page treats as processing
    is a declared pipeline phase whose label is a non-empty text; the
    declared phases not treated as processing are [idle], [connected],
    [segment_done], [query_done] and [error]; the only declared phases
    whose label is the empty text are [idle] and [error].  A phase string
    outside the declared ones - the phase cell takes any step a
    [progress] message carries - is not processing; its label is the
    empty text, unless the string names a member of [Object.prototype]:
    then [phaseLabel] returns that member, which is no text at all. *)
Theorem processing_phases_labelled (phase : string) :
  (isProcessing phase = true →
     (∃ t, phaseLabel phase = Text t ∧ t ≠ "")
     ∧ phase ∈ ShapeSocket.PipelinePhase_values)
  ∧ (phase ∈ ShapeSocket.PipelinePhase_values → isProcessing phase = false →
     phase ∈ [ "idle"; "connected"; "segment_done"; "query_done"; "error" ])
  ∧ (phase ∉ ShapeSocket.PipelinePhase_values →
     isProcessing phase = false
     ∧ phaseLabel phase
       = if bool_decide (phase ∈ Js.Object_prototype) then Member phase else Text "")
  ∧ (phase ∈ ShapeSocket.PipelinePhase_values → phaseLabel phase = Text "" →
     phase = "idle" ∨ phase = "error")
  ∧ (phase ∈ Js.Object_prototype →
     phaseLabel phase = Member phase ∧ phase ∉ ShapeSocket.PipelinePhase_values).
Proof.
  split_and!.
  - intros Hp. unfold isProcessing in Hp. apply bool_decide_eq_true in Hp.
    repeat (apply elem_of_cons in Hp as [-> | Hp];
            [split; [eexists; split; [by vm_compute | done] | in_list] |]).
    by apply elem_of_nil in Hp.
  - intros Hin Hp. unfold ShapeSocket.PipelinePhase_values in Hin.
    repeat (apply elem_of_cons in Hin as [-> | Hin];
            [first [in_list | by vm_compute in Hp] |]).
    by apply elem_of_nil in Hin.
  - intros Hout. split.
    + unfold isProcessing. apply bool_decide_eq_false. intros Hin. apply Hout.
      repeat (apply elem_of_cons in Hin as [-> | Hin]; [in_list |]).
      by apply elem_of_nil in Hin.
    + unfold phaseLabel, Js.get. rewrite phase_labels_lookup.
      repeat (case_decide; [subst phase; exfalso; apply Hout; in_list |]).
      by case_bool_decide.
  - intros Hin Hlabel. unfold ShapeSocket.PipelinePhase_values in Hin.
    repeat (apply elem_of_cons in Hin as [-> | Hin];
            [first [by left | by right | by vm_compute in Hlabel] |]).
    by apply elem_of_nil in Hin.
  - intros Hkey. unfold Js.Object_prototype in Hkey.
    repeat (apply elem_of_cons in Hkey as [-> | Hkey];
            [split; [by vm_compute | in_list] |]).
    by apply elem_of_nil in Hkey.
Qed.

End PageCommands.

Section OneShotBudget.
Import Api Dashboard.

Implicit Types (s : State) (h : ShapeSocket.State) (d : Deps).

Lemma count_frames_app f l l' :
  count_frames f (l ++ l') = count_frames f l + count_frames f l'.
Proof. unfold count_frames. by rewrite List.filter_app, length_app. Qed.

Lemma sent_triggerSegmentation opts h :
  ShapeSocket.sent (ShapeSocket.triggerSegmentation opts h) = ShapeSocket.sent h
  ∨ ∃ ws m, is_segmentation m = true
      ∧ ShapeSocket.sent (ShapeSocket.triggerSegmentation opts h)
        = ShapeSocket.sent h ++ [(ws, m)].
Proof.
  unfold ShapeSocket.triggerSegmentation.
  destruct (ShapeSocket.wsRef h) as [ws |]; [| by left].
  destruct (ShapeSocket.is_open ws h); [right | by left].
  eexists ws, _. split; [| reflexivity]. done.
Qed.

Lemma count_segmentation_frame ws m :
  is_segmentation m = true →
  count_frames is_segmentation [(ws, m)] = 1 ∧ count_frames is_query [(ws, m)] = 0.
Proof. by destruct m. Qed.

(** The frames a state has sent and the commands its flags still allow. *)
Lemma segment_done_effect_budget d s :
  let s' := segment_done_effect d s in
  count_frames is_segmentation (ShapeSocket.sent (socket s'))
  = count_frames is_segmentation (ShapeSocket.sent (socket s))
  ∧ needsSegmentationRef s' = needsSegmentationRef s
  ∧ count_frames is_query (ShapeSocket.sent (socket s'))
    + Nat.b2n (freshSegmentationRef s')
    ≤ count_frames is_query (ShapeSocket.sent (socket s))
      + Nat.b2n (freshSegmentationRef s).
Proof.
  cbn zeta. unfold segment_done_effect.
  destruct (_ && _) eqn:Hfire; [| done].
  apply andb_prop in Hfire as [_ ->].
  cbn -[ShapeSocket.sendQuery].
  destruct (sent_sendQuery (auto_prompt (pendingPromptRef s)) (socket s))
    as [-> | [ws ->]]; [split_and!; [done | done | lia] |].
  rewrite !count_frames_app. cbn. split_and!; [lia | done | lia].
Qed.

Lemma connected_effect_budget d s :
  let s' := connected_effect d s in
  count_frames is_segmentation (ShapeSocket.sent (socket s'))
  + Nat.b2n (needsSegmentationRef s')
  ≤ count_frames is_segmentation (ShapeSocket.sent (socket s))
    + Nat.b2n (needsSegmentationRef s)
  ∧ count_frames is_query (ShapeSocket.sent (socket s'))
    + Nat.b2n (freshSegmentationRef s') + Nat.b2n (needsSegmentationRef s')
    ≤ count_frames is_query (ShapeSocket.sent (socket s))
      + Nat.b2n (freshSegmentationRef s) + Nat.b2n (needsSegmentationRef s).
Proof.
  cbn zeta. unfold connected_effect.
  destruct (_ && _) eqn:Hfire; [| done].
  apply andb_prop in Hfire as [_ ->].
  cbn -[ShapeSocket.triggerSegmentation].
  destruct (sent_triggerSegmentation None (socket s)) as [-> | (ws & m & Hm & ->)].
  - destruct (freshSegmentationRef s); cbn; lia.
  - rewrite !count_frames_app.
    destruct (count_segmentation_frame ws m Hm) as [-> ->].
    destruct (freshSegmentationRef s); cbn; lia.
Qed.

Lemma commit_budget s :
  count_frames is_segmentation (ShapeSocket.sent (socket (commit s)))
  + Nat.b2n (needsSegmentationRef (commit s))
  ≤ count_frames is_segmentation (ShapeSocket.sent (socket s))
    + Nat.b2n (needsSegmentationRef s)
  ∧ count_frames is_query (ShapeSocket.sent (socket (commit s)))
    + Nat.b2n (freshSegmentationRef (commit s))
    + Nat.b2n (needsSegmentationRef (commit s))
    ≤ count_frames is_query (ShapeSocket.sent (socket s))
      + Nat.b2n (freshSegmentationRef s) + Nat.b2n (needsSegmentationRef s).
Proof.
  unfold commit.
  set (d := deps_of s). set (s0 := set_rendered d s).
  set (s1 := if deps1_changed (rendered s) d then segment_done_effect d s0 else s0).
  assert (count_frames is_segmentation (ShapeSocket.sent (socket s1))
          = count_frames is_segmentation (ShapeSocket.sent (socket s))
          ∧ needsSegmentationRef s1 = needsSegmentationRef s
          ∧ count_frames is_query (ShapeSocket.sent (socket s1))
            + Nat.b2n (freshSegmentationRef s1)
            ≤ count_frames is_query (ShapeSocket.sent (socket s))
              + Nat.b2n (freshSegmentationRef s)) as (E1 & E2 & E3).
  { unfold s1. destruct (deps1_changed _ _); [| done].
    apply (segment_done_effect_budget d s0). }
  destruct (deps4_changed (rendered s) d).
  - pose proof (connected_effect_budget d s1) as F. cbn zeta in F.
    destruct F as (F1 & F2). rewrite E2 in *. lia.
  - rewrite E2. lia.
Qed.

Lemma settle_budget n : ∀ s,
  count_frames is_segmentation (ShapeSocket.sent (socket (settle n s)))
  + Nat.b2n (needsSegmentationRef (settle n s))
  ≤ count_frames is_segmentation (ShapeSocket.sent (socket s))
    + Nat.b2n (needsSegmentationRef s)
  ∧ count_frames is_query (ShapeSocket.sent (socket (settle n s)))
    + Nat.b2n (freshSegmentationRef (settle n s))
    + Nat.b2n (needsSegmentationRef (settle n s))
    ≤ count_frames is_query (ShapeSocket.sent (socket s))
      + Nat.b2n (freshSegmentationRef s) + Nat.b2n (needsSegmentationRef s).
Proof.
  induction n as [| n IH]; intros s; [done |].
  rewrite settle_S. destruct (_ || _); [| done].
  destruct (IH (commit s)) as (A1 & A2). destruct (commit_budget s) as (B1 & B2). lia.
Qed.

Lemma handle_budget BACKEND uid ev s :
  let s' := handle BACKEND uid ev s in
  count_frames is_segmentation (ShapeSocket.sent (socket s'))
  + Nat.b2n (needsSegmentationRef s')
  ≤ count_frames is_segmentation (ShapeSocket.sent (socket s))
    + Nat.b2n (needsSegmentationRef s) + Nat.b2n (is_create ev)
  ∧ count_frames is_query (ShapeSocket.sent (socket s'))
    + Nat.b2n (freshSegmentationRef s') + Nat.b2n (needsSegmentationRef s')
    ≤ count_frames is_query (ShapeSocket.sent (socket s))
      + Nat.b2n (freshSegmentationRef s) + Nat.b2n (needsSegmentationRef s)
      + Nat.b2n (is_create ev) + Nat.b2n (is_send ev).
Proof.
  cbn zeta. destruct (is_create ev) eqn:Hcreate.
  - destruct ev as [sid modalPrompt | | | |]; try done.
    cbn [handle]. unfold handleCreateInteraction.
    destruct (String.eqb uid ""); [cbn; lia |].
    cbn -[ShapeSocket.connect]. rewrite sent_connect.
    destruct (needsSegmentationRef s), (freshSegmentationRef s); cbn; lia.
  - destruct (handle_flags_clear BACKEND uid ev s Hcreate)
      as (-> & -> & [-> | (ws & chatInput & -> & ->)]).
    + cbn. lia.
    + rewrite !count_frames_app. cbn. lia.
Qed.

Lemma count_events_cons f ev evs :
  count_events f (ev :: evs) = Nat.b2n (f ev) + count_events f evs.
Proof. unfold count_events. cbn. by destruct (f ev). Qed.

(** X24 (one-shot budget).  Over any run of the page, the segmentation
    commands sent plus a pending [needsSegmentationRef] exceed their
    starting value by at most the number of sessions created in the run;
    the queries sent plus the two pending flags exceed theirs by at most
    the sessions created plus the chat messages submitted.  So a page that
    starts with nothing sent and no flag pending sends at most as many
    segmentation commands as sessions were created, and at most as many
    queries as sessions were created plus messages were submitted. *)
Theorem one_shot_budget BACKEND uid (evs : list Event) s :
  let s' := run BACKEND uid evs s in
  count_frames is_segmentation (ShapeSocket.sent (socket s'))
  + Nat.b2n (needsSegmentationRef s')
  ≤ count_frames is_segmentation (ShapeSocket.sent (socket s))
    + Nat.b2n (needsSegmentationRef s) + count_events is_create evs
  ∧ count_frames is_query (ShapeSocket.sent (socket s'))
    + Nat.b2n (freshSegmentationRef s') + Nat.b2n (needsSegmentationRef s')
    ≤ count_frames is_query (ShapeSocket.sent (socket s))
      + Nat.b2n (freshSegmentationRef s) + Nat.b2n (needsSegmentationRef s)
      + count_events is_create evs + count_events is_send evs.
Proof.
  cbn zeta. revert s. induction evs as [| ev evs IH]; intros s.
  - cbn. lia.
  - change (run BACKEND uid (ev :: evs) s) with (run BACKEND uid evs (step BACKEND uid s ev)).
    rewrite !count_events_cons.
    destruct (IH (step BACKEND uid s ev)) as (A1 & A2).
    unfold step in *.
    destruct (settle_budget 4 (handle BACKEND uid ev s)) as (B1 & B2).
    pose proof (handle_budget BACKEND uid ev s) as C. cbn zeta in C.
    destruct C as (C1 & C2). lia.
Qed.

(** What the functions of the hook do to the reference and to the URLs of
    the store. *)
Lemma urls_alter (f : ShapeSocket.WebSocket → ShapeSocket.WebSocket) ws
    (l : list ShapeSocket.WebSocket) :
  (∀ w, ShapeSocket.url (f w) = ShapeSocket.url w) →
  ShapeSocket.url <$> alter f ws l = ShapeSocket.url <$> l.
Proof.
  intros Hf. apply list_eq. intros i. rewrite !list_lookup_fmap.
  destruct (decide (ws = i)) as [<- | Hne].
  - rewrite list_lookup_alter_eq. destruct (l !! ws) as [w |]; cbn; [| done].
    by rewrite Hf.
  - by rewrite list_lookup_alter_ne.
Qed.

Lemma connect_newest BACKEND uid sid h :
  ShapeSocket.wsRef (ShapeSocket.connect BACKEND uid sid h)
  = Some (length (ShapeSocket.sockets h))
  ∧ ShapeSocket.url <$> ShapeSocket.sockets (ShapeSocket.connect BACKEND uid sid h)
    = (ShapeSocket.url <$> ShapeSocket.sockets h) ++ [getWsUrl BACKEND uid sid].
Proof.
  unfold ShapeSocket.connect. destruct (ShapeSocket.wsRef h) as [ws |]; cbn.
  - rewrite length_alter, fmap_app, urls_alter; [done |]. by intros [u []].
  - by rewrite fmap_app.
Qed.

Lemma follows_session_same BACKEND uid s s' :
  ShapeSocket.tidy (socket s') →
  ShapeSocket.wsRef (socket s') = ShapeSocket.wsRef (socket s) →
  ShapeSocket.url <$> ShapeSocket.sockets (socket s')
  = ShapeSocket.url <$> ShapeSocket.sockets (socket s) →
  activeSession s' = activeSession s →
  follows_session BACKEND uid s → follows_session BACKEND uid s'.
Proof.
  intros Ht Hw Hu Ha [_ Hs]. split; [done |]. rewrite Hw, Hu, Ha. exact Hs.
Qed.

Lemma hook_keeps_connection (f : ShapeSocket.State → ShapeSocket.State) h :
  f = ShapeSocket.disconnect ∨ (∃ q, f = ShapeSocket.sendQuery q)
  ∨ (∃ o, f = ShapeSocket.triggerSegmentation o)
  ∨ (∃ ws ev, f = ShapeSocket.deliver ws ev) →
  (ShapeSocket.wsRef (f h) = ShapeSocket.wsRef h ∨ ShapeSocket.wsRef (f h) = None)
  ∧ ShapeSocket.url <$> ShapeSocket.sockets (f h)
    = ShapeSocket.url <$> ShapeSocket.sockets h.
Proof.
  intros [-> | [[q ->] | [[o ->] | (ws & ev & ->)]]].
  - unfold ShapeSocket.disconnect. destruct (ShapeSocket.wsRef h) as [ws |] eqn:Hw; cbn.
    + split; [by right |]. apply urls_alter. by intros [u []].
    + split; [by left | done].
  - unfold ShapeSocket.sendQuery. destruct (ShapeSocket.wsRef h) as [ws |] eqn:Hw;
      [| by split; [left |]].
    destruct (ShapeSocket.is_open ws h); cbn; (split; [by left | done]).
  - unfold ShapeSocket.triggerSegmentation.
    destruct (ShapeSocket.wsRef h) as [ws |] eqn:Hw; [| by split; [left |]].
    destruct (ShapeSocket.is_open ws h); cbn; (split; [by left | done]).
  - unfold ShapeSocket.deliver.
    destruct ev as [| now data | | code], (ShapeSocket.ready ws h) as [[]|];
      try (by split; [left |]).
    + split; [by left |]. cbn. by apply urls_alter.
    + split; [left; apply wsRef_onmessage | by rewrite sockets_onmessage].
    + split; [left; by rewrite wsRef_onclose |]. rewrite sockets_onclose. cbn.
      by apply urls_alter.
    + split; [left; by rewrite wsRef_onclose |]. rewrite sockets_onclose. cbn.
      by apply urls_alter.
    + split; [left; by rewrite wsRef_onclose |]. rewrite sockets_onclose. cbn.
      by apply urls_alter.
Qed.

Lemma follows_session_hook BACKEND uid (f : ShapeSocket.State → ShapeSocket.State) s :
  f = ShapeSocket.disconnect ∨ (∃ q, f = ShapeSocket.sendQuery q)
  ∨ (∃ o, f = ShapeSocket.triggerSegmentation o)
  ∨ (∃ ws ev, f = ShapeSocket.deliver ws ev) →
  ShapeSocket.tidy (f (socket s)) →
  follows_session BACKEND uid s → follows_session BACKEND uid (hook f s).
Proof.
  intros Hf Ht [_ Hs]. split; [done |].
  destruct (hook_keeps_connection f (socket s) Hf) as [[Hw | Hw] Hu]; cbn [socket hook].
  - rewrite Hw, Hu. exact Hs.
  - rewrite Hw. by intros ws.
Qed.

Lemma follows_session_connect BACKEND uid sid s :
  ShapeSocket.tidy (socket s) →
  follows_session BACKEND uid
    (hook (ShapeSocket.connect BACKEND uid sid) (setActiveSession (Some sid) s)).
Proof.
  intros Ht. split; [by apply tidy_connect |].
  destruct (connect_newest BACKEND uid sid (socket s)) as [Hw Hu].
  cbn [socket hook setActiveSession activeSession]. rewrite Hw, Hu.
  intros ws [= <-]. exists sid. split; [done |].
  rewrite <- (length_fmap ShapeSocket.url).
  by rewrite lookup_app_r, Nat.sub_diag by lia.
Qed.

Lemma follows_session_handle BACKEND uid ev s :
  follows_session BACKEND uid s → follows_session BACKEND uid (handle BACKEND uid ev s).
Proof.
  intros Hs. pose proof (proj1 Hs) as Ht.
  destruct ev as [sid modalPrompt | sid | segments | chatInput | ws ev]; cbn [handle].
  - unfold handleCreateInteraction. destruct (String.eqb uid ""); [done |].
    by apply (follows_session_connect BACKEND uid sid
                (set_needsSegmentationRef true (set_pendingPromptRef _ s))).
  - unfold handleSelectSession. case_bool_decide; [done |].
    destruct (String.eqb uid "").
    + split; [| intros ws; cbn -[ShapeSocket.disconnect]; by rewrite wsRef_disconnect].
      apply (tidy_ext (ShapeSocket.disconnect (socket s))); [done | done |].
      by apply tidy_disconnect.
    + apply (follows_session_connect BACKEND uid sid
               (hook (ShapeSocket.setSegmentResult None)
                  (hook ShapeSocket.disconnect s))).
      apply (tidy_ext (ShapeSocket.disconnect (socket s))); [done | done |].
      by apply tidy_disconnect.
  - destruct segments as [r |]; [| done]. cbn [restoreSegments].
    by apply (follows_session_same BACKEND uid s).
  - unfold handleSendMessage. destruct (_ || _); [done |].
    apply follows_session_hook; [eauto | by apply tidy_sendQuery | done].
  - apply follows_session_hook; [right; right; right; eauto | by apply tidy_deliver | done].
Qed.

Lemma follows_session_commit BACKEND uid s :
  follows_session BACKEND uid s → follows_session BACKEND uid (commit s).
Proof.
  intros Hs. unfold commit.
  set (d := deps_of s). set (s0 := set_rendered d s).
  assert (follows_session BACKEND uid s0) as Hs0
    by (by apply (follows_session_same BACKEND uid s); [apply Hs | ..]).
  set (s1 := if deps1_changed (rendered s) d then segment_done_effect d s0 else s0).
  assert (follows_session BACKEND uid s1) as Hs1.
  { unfold s1. destruct (deps1_changed _ _); [| done].
    unfold segment_done_effect. destruct (_ && _); [| done].
    apply follows_session_hook; [eauto | apply tidy_sendQuery, Hs0 |].
    by apply (follows_session_same BACKEND uid s0); [apply Hs0 | ..]. }
  destruct (deps4_changed _ _); [| done].
  unfold connected_effect. destruct (_ && _); [| done].
  apply follows_session_hook;
    [right; right; left; eauto | apply tidy_triggerSegmentation, Hs1 |].
  by apply (follows_session_same BACKEND uid s1); [apply Hs1 | ..].
Qed.

Lemma follows_session_settle BACKEND uid n : ∀ s,
  follows_session BACKEND uid s → follows_session BACKEND uid (settle n s).
Proof.
  induction n as [| n IH]; intros s Hs; [done |].
  rewrite settle_S. destruct (_ || _); [| done]. by apply IH, follows_session_commit.
Qed.

Lemma follows_session_run BACKEND uid (evs : list Event) : ∀ s,
  follows_session BACKEND uid s → follows_session BACKEND uid (run BACKEND uid evs s).
Proof.
  induction evs as [| ev evs IH]; intros s Hs; [done |].
  apply IH. by apply follows_session_settle, follows_session_handle.
Qed.

(** X25 (the connection follows the session).  After any run of the page
    from its mounted state, a socket that is connecting or open is the
    hook's socket and was opened for the active session - its URL is
    [getWsUrl] of the user and that session - and there is at most one
    such socket. *)
Theorem page_connection_follows_session BACKEND uid (evs : list Event) :
  let s := run BACKEND uid evs initial in
  let h := socket s in
  (∀ ws w, ShapeSocket.sockets h !! ws = Some w → ShapeSocket.live w = true →
     ShapeSocket.wsRef h = Some ws
     ∧ ∃ sid, activeSession s = Some sid
         ∧ ShapeSocket.url w = getWsUrl BACKEND uid sid)
  ∧ (∀ ws ws' w w',
       ShapeSocket.sockets h !! ws = Some w → ShapeSocket.sockets h !! ws' = Some w' →
       ShapeSocket.live w = true → ShapeSocket.live w' = true → ws = ws').
Proof.
  cbn zeta.
  assert (follows_session BACKEND uid initial) as Hinit
    by (split; [apply tidy_initial | by intros ws]).
  destruct (follows_session_run BACKEND uid evs initial Hinit) as [[Hone Hin] Hurl].
  split.
  - intros ws w Hw Hl. pose proof (Hone ws w Hw Hl) as Href. split; [done |].
    destruct (Hurl ws Href) as (sid & Hact & Hu). exists sid. split; [done |].
    rewrite list_lookup_fmap, Hw in Hu. by injection Hu.
  - intros ws ws' w w' Hw Hw' Hl Hl'.
    pose proof (Hone ws w Hw Hl). pose proof (Hone ws' w' Hw' Hl'). congruence.
Qed.

End OneShotBudget.

(* ===================================================================== *)
(** * The theorems at concrete inputs *)
(* ===================================================================== *)

Section Instances.
Import Api Examples.

(** A late acknowledgment after a segmentation result, a question and
    two progress messages of its answer. *)
Lemma connected_ack_phase_monotone_witness :
  ShapeSocket.phase segment_done_state = "segment_done"
  ∧ ShapeSocket.phase
      (ShapeSocket.deliver 0 (ShapeSocket.EvMessage 5000 (Decoded Connected))
         (ShapeSocket.receive
            [ (0, ShapeSocket.progress_event
                    {| ShapeSocket.step := "parsing_query"; ShapeSocket.detail := ∅;
                       ShapeSocket.explanation := None;
                       ShapeSocket.timestamp := 4000 |});
              (0, ShapeSocket.progress_event
                    {| ShapeSocket.step := "tool_call"; ShapeSocket.detail := ∅;
                       ShapeSocket.explanation := None;
                       ShapeSocket.timestamp := 4500 |}) ]
            segment_done_state))
    = "tool_call".
Proof.
  split; [reflexivity |].
  pose proof (connected_ack_phase_monotone 5000 segment_done_state) as H.
  cbn zeta in H. destruct H as (_ & _ & _ & H).
  destruct (H [ (0, ShapeSocket.progress_event
                      {| ShapeSocket.step := "parsing_query"; ShapeSocket.detail := ∅;
                         ShapeSocket.explanation := None;
                         ShapeSocket.timestamp := 4000 |});
                (0, ShapeSocket.progress_event
                      {| ShapeSocket.step := "tool_call"; ShapeSocket.detail := ∅;
                         ShapeSocket.explanation := None;
                         ShapeSocket.timestamp := 4500 |}) ] 0
              (or_introl eq_refl) eq_refl) as [_ ->].
  reflexivity.
Defined.

(** C1, as stated, fails: the phase has reached [segment_done]; a
    [progress] message whose step is ["idle"] then arrives, and the
    acknowledgment after it moves the phase to [connected]. *)
Lemma connected_after_idle_step :
  let stale := ShapeSocket.progress_event
                 {| ShapeSocket.step := "idle"; ShapeSocket.detail := ∅;
                    ShapeSocket.explanation := None;
                    ShapeSocket.timestamp := 4000 |} in
  let s := ShapeSocket.receive [ (0, stale) ] segment_done_state in
  ShapeSocket.phase segment_done_state = "segment_done"
  ∧ ShapeSocket.phase s = "idle"
  ∧ ShapeSocket.phase
      (ShapeSocket.deliver 0 (ShapeSocket.EvMessage 5000 (Decoded Connected)) s)
    = "connected".
Proof. cbn zeta. split_and!; reflexivity. Qed.

(** A payload with an answer arrives while a segmentation is expected. *)
Lemma result_disambiguation_witness :
  ShapeSocket.expectingRef segmenting_state = Some ShapeSocket.segment
  ∧ has_answer (QryData an_answer) = true
  ∧ ShapeSocket.phase
      (ShapeSocket.onmessage 3000
         (Decoded (Result (mkObj 8 (QryData an_answer)))) segmenting_state)
    = "query_done".
Proof.
  split; [reflexivity |]. split; [reflexivity |].
  pose proof (result_disambiguation 3000 (mkObj 8 (QryData an_answer))
                segmenting_state) as H.
  cbn zeta in H. destruct H as (H & _).
  destruct (H eq_refl) as (Hphase & _). exact Hphase.
Defined.

(** [disconnect] on a hook whose socket is open. *)
Lemma disconnect_teardown_witness :
  ShapeSocket.wsRef connected_state = Some 0
  ∧ ShapeSocket.is_open 0 connected_state = true
  ∧ ShapeSocket.is_open 0 (ShapeSocket.disconnect connected_state) = false.
Proof.
  split; [reflexivity |]. split; [reflexivity |].
  pose proof (disconnect_teardown connected_state) as H.
  cbn zeta in H. destruct H as (_ & _ & _ & _ & H & _).
  destruct (H 0 eq_refl) as (Hclosed & _). exact Hclosed.
Defined.

(** The socket closes with code 4001. *)
Lemma close_handling_witness :
  ShapeSocket.error (ShapeSocket.onclose 4001 connected_state)
    = Some "Authentication failed. Please sign in again."
  ∧ ShapeSocket.phase (ShapeSocket.onclose 4001 connected_state) = "error".
Proof.
  destruct (close_handling 4001 connected_state) as (H & _).
  destruct (H eq_refl) as (He & Hp & _). split; [exact He | exact Hp].
Defined.

(** A new session whose prompt has white space around it. *)
Lemma auto_query_once_witness :
  "u1" ≠ "" ∧ "s1" ≠ ""
  ∧ ShapeSocket.sent
      (Dashboard.socket
         (Dashboard.run "http://localhost:8000" "u1"
            (fresh_session "  which part is curved? ") Dashboard.initial))
    = [ (0, UploadAndSegment 1 16 true);
        (0, Query "which part is curved?") ].
Proof.
  assert ("u1" ≠ "") as Hu by discriminate.
  assert ("s1" ≠ "") as Hs by discriminate.
  split; [exact Hu |]. split; [exact Hs |].
  pose proof (auto_query_once "http://localhost:8000" "u1" Hu
                "s1" "  which part is curved? " Hs Dashboard.initial 1000 3000
                [ {| ShapeSocket.step := "segmented";
                     ShapeSocket.detail := {[ "total_segments" := JNum "2" ]};
                     ShapeSocket.explanation := None;
                     ShapeSocket.timestamp := 2000 |} ]
                7 two_segments) as H.
  cbn zeta in H. destruct H as (H & _). exact H.
Defined.

(** C3, as stated, fails: the prompt typed in the modal is a single
    space - not empty - and the query sent automatically is the default
    one, not the prompt. *)
Lemma auto_query_blank_prompt :
  String.eqb " " "" = false
  ∧ ShapeSocket.sent
      (Dashboard.socket
         (Dashboard.run "http://localhost:8000" "u1"
            (fresh_session " ") Dashboard.initial))
    = [ (0, UploadAndSegment 1 16 true);
        (0, Query "describe this geometry") ]
  ∧ ShapeSocket.sent
      (Dashboard.socket
         (Dashboard.run "http://localhost:8000" "u1"
            (fresh_session " ") Dashboard.initial))
    ≠ [ (0, UploadAndSegment 1 16 true); (0, Query " ") ].
Proof. vm_compute. repeat split; intros H; discriminate H. Qed.

(** The one-shot flag of a session left while it was being segmented is
    still set when the segments of the session selected next are
    restored: an automatic query goes out on the restored session's
    socket. *)
Lemma stale_flag_queries_restored_session :
  ShapeSocket.sent
    (Dashboard.socket
       (Dashboard.run "http://localhost:8000" "u1"
          switch_while_segmenting Dashboard.initial))
  = [ (0, UploadAndSegment 1 16 true);
      (1, Query "describe this geometry") ].
Proof. reflexivity. Qed.

(** C5, as stated, fails: a message that does not decode arrives on an
    open, acknowledged socket; the phase stays [connected] and no error is
    stored. *)
Lemma undecodable_message_keeps_phase :
  let s' := ShapeSocket.deliver 0 (ShapeSocket.EvMessage 2000 Undecodable)
              connected_state in
  ShapeSocket.phase s' = "connected"
  ∧ ShapeSocket.phase s' ≠ "error"
  ∧ ShapeSocket.error s' = None
  ∧ s' = connected_state.
Proof. vm_compute. repeat split; intros H; discriminate H. Qed.

(** C7, as stated, fails: the user asked a question, so the flag is
    ["query"]; after [disconnect] it still is. *)
Lemma disconnect_keeps_expectation :
  ShapeSocket.expectingRef querying_state = Some ShapeSocket.query
  ∧ ShapeSocket.expectingRef (ShapeSocket.disconnect querying_state)
    = Some ShapeSocket.query
  ∧ ShapeSocket.expectingRef (ShapeSocket.disconnect querying_state) ≠ None.
Proof. vm_compute. repeat split; intros H; discriminate H. Qed.

(** C8, as stated, fails: the socket closes abnormally with code 1006 (no
    [error] event having been fired); the phase stays [connected] and no
    error is stored. *)
Lemma abnormal_close_stores_no_error :
  let s' := ShapeSocket.deliver 0 (ShapeSocket.EvClose 1006) connected_state in
  ShapeSocket.phase s' = "connected"
  ∧ ShapeSocket.phase s' ≠ "error"
  ∧ ShapeSocket.error s' = None
  ∧ ShapeSocket.isConnected s' = false.
Proof. vm_compute. repeat split; intros H; discriminate H. Qed.

End Instances.

(* ===================================================================== *)
(** * The further theorems at concrete inputs *)
(* ===================================================================== *)

Section FurtherInstances.
Import Api Examples.


(** An open socket fails and closes with code 1006. *)
Lemma failure_then_close_witness :
  ShapeSocket.ready 0 connected_state = Some ShapeSocket.OPEN
  ∧ ShapeSocket.error
      (connected_state |> ShapeSocket.deliver 0 ShapeSocket.EvError
                       |> ShapeSocket.deliver 0 (ShapeSocket.EvClose 1006))
    = Some "WebSocket connection failed.".
Proof.
  split; [reflexivity |].
  pose proof (failure_then_close 0 1006 connected_state (or_intror eq_refl)) as H.
  cbn zeta in H. destruct H as (_ & _ & _ & H & _). exact H.
Defined.

(** The first socket finishes closing after the second one opened. *)
Lemma replaced_socket_close_reaches_hook_witness :
  ShapeSocket.wsRef reconnected_state = Some 1
  ∧ ShapeSocket.ready 0 reconnected_state = Some ShapeSocket.CLOSING
  ∧ ShapeSocket.isConnected reconnected_state = true
  ∧ ShapeSocket.isConnected
      (ShapeSocket.deliver 0 (ShapeSocket.EvClose 1000) reconnected_state) = false
  ∧ ShapeSocket.is_open 1
      (ShapeSocket.deliver 0 (ShapeSocket.EvClose 1000) reconnected_state) = true.
Proof.
  split; [reflexivity |]. split; [reflexivity |]. split; [reflexivity |].
  assert (0 ≠ 1) as Hne by lia.
  pose proof (replaced_socket_close_reaches_hook 1 0 1000 reconnected_state
                eq_refl Hne eq_refl eq_refl) as H.
  cbn zeta in H. destruct H as (H1 & H2 & _). split; [exact H1 | exact H2].
Defined.

(** Credentials in the storage and a backend that answers 503. *)
Lemma credentials_kept_unless_invalid_witness :
  stored_credentials !! "uid" = Some "u1"
  ∧ Auth.uid
      (Auth.mount_effect
         (Fulfilled {| status := 503; json := Rejected "Unexpected token" |})
         (Auth.initial stored_credentials))
    = Some "u1".
Proof.
  assert (stored_credentials !! "uid" = Some "u1") as Hu by reflexivity.
  assert (stored_credentials !! "email" = Some "user_1@shape.local") as He
    by reflexivity.
  assert ("u1" ≠ "") as Hune by discriminate.
  assert ("user_1@shape.local" ≠ "") as Hene by discriminate.
  split; [exact Hu |].
  pose proof (credentials_kept_unless_invalid stored_credentials
                "u1" "user_1@shape.local"
                (Fulfilled {| status := 503; json := Rejected "Unexpected token" |})
                Hu Hune He Hene) as H.
  cbn zeta in H. destruct H as (_ & _ & _ & H & _).
  assert (503 ≠ 401)%Z as H401 by lia. assert (503 ≠ 404)%Z as H404 by lia.
  destruct (H _ eq_refl H401 H404 eq_refl) as (Huid & _). exact Huid.
Defined.

(** A session that is already listed. *)
Lemma addSession_no_duplicates_witness :
  Auth.sessions
    (Auth.addSession "s1"
       (Auth.setSessions ["s2"; "s1"] (Auth.initial stored_credentials)))
  = ["s2"; "s1"].
Proof.
  assert (NoDup ["s2"; "s1"]) as Hnd
    by (apply (bool_decide_unpack _); vm_compute; exact I).
  pose proof (addSession_no_duplicates "s1"
                (Auth.setSessions ["s2"; "s1"] (Auth.initial stored_credentials))
                Hnd) as H.
  cbn zeta in H. destruct H as (_ & _ & _ & _ & H & _).
  rewrite H; [reflexivity |].
  apply (bool_decide_unpack _). vm_compute. exact I.
Defined.

(** The overlay of [centerlines]. *)
Lemma centerline_cells_witness :
  MeshViewer.centerline (Some centerlines) [] = Some centerlines_overlay
  ∧ MeshViewer.cells 9 [2; 0; 1; 2; 1; 2; 2; 3; 4]%Z
    = Some [ [0; 1]; [1; 2]; [3; 4] ]%Z
  ∧ ∃ cs, MeshViewer.cells 9 [2; 0; 1; 2; 1; 2; 2; 3; 4]%Z = Some cs
      ∧ Forall (Forall (fun i => (0 ≤ i < 5)%Z)) cs.
Proof.
  assert (MeshViewer.centerline (Some centerlines) [] = Some centerlines_overlay)
    as Hc by (vm_compute; reflexivity).
  split; [exact Hc |]. split; [reflexivity |].
  assert (Forall MeshViewer.edges_in_range (segments centerlines)) as Hedges.
  { repeat constructor.
    - exists 0%Z, 1%Z. cbn. repeat split; lia.
    - exists 1%Z, 2%Z. cbn. repeat split; lia. }
  assert (Z.of_nat (MeshViewer.clPoints centerlines_overlay) < 2 ^ 32)%Z as Hbound
    by (vm_compute; reflexivity).
  destruct (centerline_cells centerlines [] centerlines_overlay Hc Hedges Hbound)
    as (_ & _ & _ & cs & Hcs & Hin & _).
  exists cs. split; [exact Hcs | exact Hin].
Defined.

(** An older session is selected on the mounted page, its socket opens
    and its stored segments arrive. *)
Lemma restore_needs_stored_result_witness :
  let s := Dashboard.run "http://localhost:8000" "u1"
             [ Dashboard.SelectSession "s0"; Dashboard.Ws 0 ShapeSocket.EvOpen ]
             Dashboard.initial in
  let fetched := Fulfilled {| status := 200;
                              json := Fulfilled (Some (mkObj 9 two_segments)) |} in
  Dashboard.rendered s = Dashboard.deps_of s
  ∧ ShapeSocket.phase
      (Dashboard.socket
         (Dashboard.step "http://localhost:8000" "u1" s
            (Dashboard.SegmentsLoaded (Dashboard.loaded_segments fetched))))
    = "segment_done"
  ∧ ShapeSocket.sent
      (Dashboard.socket
         (Dashboard.step "http://localhost:8000" "u1" s
            (Dashboard.SegmentsLoaded (Dashboard.loaded_segments fetched))))
    = [].
Proof.
  cbn zeta.
  assert (Dashboard.rendered
            (Dashboard.run "http://localhost:8000" "u1"
               [ Dashboard.SelectSession "s0"; Dashboard.Ws 0 ShapeSocket.EvOpen ]
               Dashboard.initial)
          = Dashboard.deps_of
              (Dashboard.run "http://localhost:8000" "u1"
                 [ Dashboard.SelectSession "s0"; Dashboard.Ws 0 ShapeSocket.EvOpen ]
                 Dashboard.initial)) as Hrendered by (vm_compute; reflexivity).
  split; [exact Hrendered |].
  pose proof (restore_needs_stored_result "http://localhost:8000" "u1"
                (Fulfilled {| status := 200;
                              json := Fulfilled (Some (mkObj 9 two_segments)) |})
                _ Hrendered) as H.
  cbn zeta in H. destruct H as (_ & _ & H & _).
  destruct (H (mkObj 9 two_segments) eq_refl eq_refl) as (Hsocket & Hsent & _).
  rewrite Hsocket. split; reflexivity.
Defined.

(** The face lists of [two_segments] hold face indices only. *)
Lemma two_segments_face_indices :
  Forall MeshViewer.face_indices (segments two_segments).
Proof.
  repeat constructor; intros ids [= <-]; repeat constructor;
    [by exists 0%nat | by exists 1%nat | by exists 1%nat | by exists 2%nat
     | by exists 7%nat].
Defined.

(** Face 0 is listed by the straight segment only; highlighting the arc
    does not change its colour. *)
Lemma colouring_is_local_witness :
  MeshViewer.get_rgb (MeshViewer.face_colors 3 (Some two_segments) [1%Z]) 0
  = MeshViewer.get_rgb (MeshViewer.face_colors 3 (Some two_segments) []) 0
  ∧ MeshViewer.get_rgb (MeshViewer.face_colors 3 None [1%Z]) 0
    = Some MeshConstants.DEFAULT_MESH_COLOR.
Proof.
  assert (0 < 3) as HF by lia.
  destruct (colouring_is_local 3 two_segments [1%Z] 0 HF two_segments_face_indices)
    as (Hnone & _ & Hlocal & _).
  split; [| exact Hnone].
  apply Hlocal. intros seg Hseg (ids & Hids & Hin).
  apply elem_of_cons in Hseg as [-> | Hseg].
  - cbn. intros [H | H]%elem_of_cons; [discriminate H | by apply elem_of_nil in H].
  - apply elem_of_cons in Hseg as [-> | Hseg]; [| by apply elem_of_nil in Hseg].
    injection Hids as <-. exfalso.
    repeat (apply Exists_cons in Hin as [Hin | Hin]; [discriminate Hin |]).
    by apply Exists_nil in Hin.
Defined.

(** Face 1 is listed by both segments; the arc is the later one. *)
Lemma last_listing_segment_decides_witness :
  MeshViewer.get_rgb (MeshViewer.face_colors 3 (Some two_segments) []) 1
    = Some (242, 140, 90)%Z.
Proof.
  assert (MeshViewer.lists_face straight_segment 1) as H1.
  { exists [0; 1]%Q. split; [reflexivity |]. right. by left. }
  assert (MeshViewer.lists_face arc_segment 1) as H2.
  { exists [1; 2; 7]%Q. split; [reflexivity |]. by left. }
  assert (MeshViewer.face_indices arc_segment) as Hwf.
  { intros ids [= <-]. repeat constructor;
      [by exists 1%nat | by exists 2%nat | by exists 7%nat]. }
  exact (last_listing_segment_decides 3 two_segments []
           [] straight_segment [] arc_segment [] 1
           eq_refl (le_S 2 2 (le_n 2)) H1 H2 Hwf (List.Forall_nil _)).
Defined.

(** The highlight array is replaced while the mesh of [loaded_viewer] is
    on display. *)
Lemma dependency_change_rebuilds_witness :
  MeshViewer.containerRef (MeshViewer.viewer loaded_viewer) = true
  ∧ MeshViewer.vtkContextRef
      (MeshViewer.viewer (MeshViewer.perform loaded_viewer
                            (MeshViewer.SetProps props_highlight)))
    = Some 1
  ∧ (MeshViewer.SegmentColors
       <$> MeshViewer.scenes
             (MeshViewer.viewer (MeshViewer.perform loaded_viewer
                                   (MeshViewer.SetProps props_highlight))) !! 1)
    = Some (MeshViewer.face_colors 3 (Some two_segments) [1%Z]).
Proof.
  assert (MeshViewer.containerRef (MeshViewer.viewer loaded_viewer) = true) as Hcont
    by (vm_compute; reflexivity).
  split; [exact Hcont |].
  pose proof (dependency_change_rebuilds "u1" "s1" props_40
                [ MeshViewer.MeshFetched
                    (Fulfilled {| status := 200; json := Fulfilled fan_mesh |}) ]
                props_highlight) as H.
  cbn zeta in H.
  assert (MeshViewer.render_deps_changed
            (MeshViewer.surfaceMesh (MeshViewer.viewer loaded_viewer))
            (MeshViewer.surfaceMesh (MeshViewer.viewer loaded_viewer))
            (MeshViewer.props loaded_viewer) props_highlight = true) as Hch
    by (vm_compute; reflexivity).
  destruct (H Hcont Hch) as (mesh & Hmesh & Hctx & _ & Hcolors).
  assert (Some mesh = Some fan_mesh) as Hm
    by (rewrite <- Hmesh; vm_compute; reflexivity).
  injection Hm as ->.
  split; [exact Hctx | exact Hcolors].
Defined.

End FurtherInstances.
